(** * Order registry of [src/server.js]: a shallow embedding

    The server keeps four module-level variables ([sistemaAtivo], [pedidos],
    [proximoId], [timersExpiracao]) and registers one handler per socket
    event.  Node runs each handler, and each timeout callback, to completion
    before the next one starts, so a run of the server is a sequence of
    events, each handled by a function from the state to a new state and a
    list of emissions.

    Order objects live in a heap ([objetos]): [pedidos] holds references,
    handlers mutate the referenced object in place, and a timeout closure
    keeps the reference to its [novoPedido] after ['sistema.reset'] has
    emptied [pedidos].  Timeouts carry no clock: a scheduled timeout may
    fire at any later turn of the event loop, which covers every delay.
    [console.log] calls are left out.

    [src/sistema-pedidos/server.js] is an earlier variant of the same file
    (no validation, no error replies, no timer map, no reset); it is
    embedded in the module [SistemaPedidos] further down. *)

From Stdlib Require Import ZArith NArith Lia.
From stdpp Require Import base option list strings sorting gmap fin_maps.

(** ** JavaScript data reaching the handlers *)

(** A JS string is a sequence of UTF-16 code units. *)
Definition JsString : Type := list N.

(** [String.prototype.trim] strips WhiteSpace and LineTerminator code points
    (ECMA-262, 12.2 and 12.3): TAB, LF, VT, FF, CR, SP, NBSP, the other
    space separators, LS, PS and ZWNBSP. *)
Definition espacoJs (c : N) : bool :=
  ((9 <=? c) && (c <=? 13) || (c =? 32) || (c =? 160) || (c =? 5760)
   || (8192 <=? c) && (c <=? 8202) || (c =? 8232) || (c =? 8233)
   || (c =? 8239) || (c =? 8287) || (c =? 12288) || (c =? 65279))%N.

Fixpoint trimStart (s : JsString) : JsString :=
  match s with
  | [] => []
  | c :: r => if espacoJs c then trimStart r else s
  end.

Definition trimEnd (s : JsString) : JsString := rev (trimStart (rev s)).

Definition trim (s : JsString) : JsString := trimEnd (trimStart s).

(** The value of a property of the [pedido.criar] payload.  A number is
    only tested for truthiness: [CNum 0] also stands for [-0], every other
    [CNum] for a non-zero number; [COutro] is an object or an array. *)
Inductive Campo :=
| CUndefined
| CNull
| CBool (b : bool)
| CNum (n : Z)
| CNaN
| CStr (s : JsString)
| COutro.

(** The payload [dados]: [DNulo] is [undefined] or [null] (reading a
    property of it throws a TypeError); [DObj c i] reads [c] for
    [dados.cliente] and [i] for [dados.itens] (a missing property, or any
    property of a primitive payload, reads [CUndefined]). *)
Inductive Dados :=
| DNulo
| DObj (cliente itens : Campo).

(** JS truthiness, as tested by [!dados.cliente]. *)
Definition truthy (c : Campo) : bool :=
  match c with
  | CUndefined | CNull | CNaN => false
  | CBool b => b
  | CNum n => negb (n =? 0)%Z
  | CStr s => negb (bool_decide (s = []))
  | COutro => true
  end.

(** ** Orders *)

Inductive Status :=
| Pendente | Preparando | Pronto | Entregue | Cancelado | Expirado.

#[global] Instance Status_eq_dec : EqDecision Status.
Proof. solve_decision. Defined.

(** [new Date().toLocaleTimeString()] and [socket.id] are strings handed to
    the handler by its environment. *)
Definition Hora : Type := JsString.
Definition SocketId : Type := JsString.

(** The three timestamps are properties added by a later transition;
    [None] is a property not set yet. *)
Record Pedido := {
  id : Z;
  cliente : JsString;
  itens : JsString;
  status : Status;
  criadoEm : Hora;
  socketId : SocketId;
  prontoEm : option Hora;
  canceladoEm : option Hora;
  entregueEm : option Hora
}.

Definition com_status (st : Status) (p : Pedido) : Pedido :=
  {| id := id p; cliente := cliente p; itens := itens p; status := st;
     criadoEm := criadoEm p; socketId := socketId p; prontoEm := prontoEm p;
     canceladoEm := canceladoEm p; entregueEm := entregueEm p |}.

Definition com_prontoEm (t : Hora) (p : Pedido) : Pedido :=
  {| id := id p; cliente := cliente p; itens := itens p; status := status p;
     criadoEm := criadoEm p; socketId := socketId p; prontoEm := Some t;
     canceladoEm := canceladoEm p; entregueEm := entregueEm p |}.

Definition com_canceladoEm (t : Hora) (p : Pedido) : Pedido :=
  {| id := id p; cliente := cliente p; itens := itens p; status := status p;
     criadoEm := criadoEm p; socketId := socketId p; prontoEm := prontoEm p;
     canceladoEm := Some t; entregueEm := entregueEm p |}.

Definition com_entregueEm (t : Hora) (p : Pedido) : Pedido :=
  {| id := id p; cliente := cliente p; itens := itens p; status := status p;
     criadoEm := criadoEm p; socketId := socketId p; prontoEm := prontoEm p;
     canceladoEm := canceladoEm p; entregueEm := Some t |}.

(** ** Server state *)

(** A reference to an order object, and the identity of a [Timeout] object
    returned by [setTimeout]. *)
Abbreviation loc := nat.
Abbreviation handle := nat.

(** The four variables of the module, then the part of the runtime they
    point into: the order objects ever allocated, the timeouts that are
    scheduled and have neither fired nor been cleared (each with the
    [novoPedido] its closure captured), and the next fresh timeout.
    [proximoId] is a JS number holding an integer; [proximoId++] is exact
    below 2^53, and the counter is taken as an unbounded integer. *)
Record Estado := {
  sistemaAtivo : bool;
  pedidos : list loc;
  proximoId : Z;
  timersExpiracao : gmap Z handle;
  objetos : list Pedido;
  agendados : gmap handle loc;
  proximoTimer : handle
}.

Definition inicial : Estado :=
  {| sistemaAtivo := false; pedidos := []; proximoId := 1;
     timersExpiracao := ∅; objetos := []; agendados := ∅;
     proximoTimer := 0 |}.

Definition com_sistemaAtivo (b : bool) (s : Estado) : Estado :=
  {| sistemaAtivo := b; pedidos := pedidos s; proximoId := proximoId s;
     timersExpiracao := timersExpiracao s; objetos := objetos s;
     agendados := agendados s; proximoTimer := proximoTimer s |}.

Definition com_proximoId (n : Z) (s : Estado) : Estado :=
  {| sistemaAtivo := sistemaAtivo s; pedidos := pedidos s; proximoId := n;
     timersExpiracao := timersExpiracao s; objetos := objetos s;
     agendados := agendados s; proximoTimer := proximoTimer s |}.

Definition com_timers (m : gmap Z handle) (a : gmap handle loc) (s : Estado)
  : Estado :=
  {| sistemaAtivo := sistemaAtivo s; pedidos := pedidos s;
     proximoId := proximoId s; timersExpiracao := m; objetos := objetos s;
     agendados := a; proximoTimer := proximoTimer s |}.

Definition com_objetos (o : list Pedido) (s : Estado) : Estado :=
  {| sistemaAtivo := sistemaAtivo s; pedidos := pedidos s;
     proximoId := proximoId s; timersExpiracao := timersExpiracao s;
     objetos := o; agendados := agendados s;
     proximoTimer := proximoTimer s |}.

(** ** Emissions *)

(** The texts sent with ['erro.operacao'], by the handler that sends them. *)
Inductive Mensagem :=
| SistemaNaoAtivo        (* 'Sistema não está ativo!' *)
| DadosInvalidos         (* 'Dados inválidos! Cliente e itens são obrigatórios.' *)
| PedidoNaoEncontrado    (* 'Pedido não encontrado!' *)
| ApenasPendentes        (* 'Apenas pedidos pendentes podem ser aceitos!' *)
| ApenasEmPreparo        (* 'Apenas pedidos em preparo podem ser finalizados!' *)
| NaoPodeCancelar        (* 'Este pedido não pode ser cancelado!' *)
| ApenasProntos.         (* 'Apenas pedidos prontos podem ser entregues!' *)

(** The error taxonomy of the specification (section 7). *)
Inductive Erro := SystemInactive | InvalidInput | OrderNotFound | InvalidTransition.

Definition classe (m : Mensagem) : Erro :=
  match m with
  | SistemaNaoAtivo => SystemInactive
  | DadosInvalidos => InvalidInput
  | PedidoNaoEncontrado => OrderNotFound
  | ApenasPendentes | ApenasEmPreparo | NaoPodeCancelar | ApenasProntos =>
      InvalidTransition
  end.

(** An event name with its payload.  An order is passed to [emit] by
    reference and serialised as it is at that moment: the payload is the
    reference together with that snapshot. *)
Inductive Emissao :=
| EstadoInicial (ativo : bool) (ps : list Pedido)   (* 'estado.inicial' *)
| ErroOperacao (m : Mensagem)                       (* 'erro.operacao' *)
| SistemaIniciado (timestamp : Hora)                (* 'sistema.iniciado' *)
| SistemaResetado (timestamp : Hora)                (* 'sistema.resetado' *)
| PedidoCriado (l : loc) (p : Pedido)               (* 'pedido.criado' *)
| PedidoAceito (l : loc) (p : Pedido)               (* 'pedido.aceito' *)
| PedidoFinalizado (l : loc) (p : Pedido)           (* 'pedido.finalizado' *)
| PedidoCancelado (l : loc) (p : Pedido)            (* 'pedido.cancelado' *)
| PedidoEntregue (l : loc) (p : Pedido)             (* 'pedido.entregue' *)
| PedidoExpirado (l : loc) (p : Pedido).            (* 'pedido.expirado' *)

(** [socket.emit] reaches the one connection, [io.emit] all of them. *)
Inductive Saida :=
| SocketEmit (sock : SocketId) (e : Emissao)
| IoEmit (e : Emissao).

(** How a handler ends: it returns, or a TypeError escapes from it.  Both
    carry the state and the emissions at that point. *)
Inductive Resultado :=
| Retorna (s : Estado) (out : list Saida)
| Lanca (s : Estado) (out : list Saida).

Definition estadoDe (r : Resultado) : Estado :=
  match r with Retorna s _ | Lanca s _ => s end.

Definition saidasDe (r : Resultado) : list Saida :=
  match r with Retorna _ out | Lanca _ out => out end.

(** ** The handlers *)

(** [pedidos.find(p => p.id === pedidoId)]: the first reference in
    [pedidos] whose object has that id, with the object it points to.
    [pedidoId] is the event's payload; a payload that is not a number is
    never [===] to an id and is handled like a number that no order has,
    so the payload is taken as an integer.  A reference always points to an
    object ([invIds] below); the [None] branch is there because [objetos]
    is a list. *)
Fixpoint find (objs : list Pedido) (pedidoId : Z) (ps : list loc)
  : option (loc * Pedido) :=
  match ps with
  | [] => None
  | l :: r =>
      match objs !! l with
      | Some p => if (id p =? pedidoId)%Z then Some (l, p) else find objs pedidoId r
      | None => find objs pedidoId r
      end
  end.

(** [limparTimer(pedidoId)]: [clearTimeout] the stored timeout, if any, and
    delete its entry. *)
Definition limparTimer (pedidoId : Z) (s : Estado) : Estado :=
  match timersExpiracao s !! pedidoId with
  | Some h =>
      com_timers (delete pedidoId (timersExpiracao s)) (delete h (agendados s)) s
  | None => s
  end.

(** ['connection']: the new socket is sent the current state. *)
Definition connection (sock : SocketId) (s : Estado) : Resultado :=
  Retorna s
    [SocketEmit sock
       (EstadoInicial (sistemaAtivo s) (omap (λ l, objetos s !! l) (pedidos s)))].

(** ['sistema.iniciar'] *)
Definition sistema_iniciar (agora : Hora) (s : Estado) : Resultado :=
  Retorna (com_sistemaAtivo true s) [IoEmit (SistemaIniciado agora)].

(** The callback given to [setTimeout] in ['pedido.criar'], run when the
    timeout fires; [novoPedido] is the reference its closure captured.  The
    reference of a closure always points to an object; the first branch is
    there because [objetos] is a list. *)
Definition timeout_callback (novoPedido : loc) (s : Estado) : Resultado :=
  match objetos s !! novoPedido with
  | None => Retorna s []
  | Some np =>
      match find (objetos s) (id np) (pedidos s) with
      | Some (l, pedido) =>
          if bool_decide (status pedido = Pendente) then
            let pedido' := com_status Expirado pedido in
            let s1 := com_objetos (<[l := pedido']> (objetos s)) s in
            let s2 := com_timers (delete (id np) (timersExpiracao s1))
                                 (agendados s1) s1 in
            Retorna s2 [IoEmit (PedidoExpirado l pedido')]
          else Retorna s []
      | None => Retorna s []
      end
  end.

(** ['pedido.criar'].  In the object literal [proximoId++] is evaluated
    before [dados.cliente.trim()]: when a field is truthy and not a string,
    the TypeError leaves the counter incremented. *)
Definition pedido_criar (sock : SocketId) (agora : Hora) (dados : Dados)
    (s : Estado) : Resultado :=
  if negb (sistemaAtivo s) then
    Retorna s [SocketEmit sock (ErroOperacao SistemaNaoAtivo)]
  else
    match dados with
    | DNulo => Lanca s []
    | DObj c i =>
        if negb (truthy c) || negb (truthy i) then
          Retorna s [SocketEmit sock (ErroOperacao DadosInvalidos)]
        else
          let s1 := com_proximoId (proximoId s + 1) s in
          match c, i with
          | CStr dc, CStr di =>
              let novoPedido :=
                {| id := proximoId s; cliente := trim dc; itens := trim di;
                   status := Pendente; criadoEm := agora; socketId := sock;
                   prontoEm := None; canceladoEm := None;
                   entregueEm := None |} in
              let l := length (objetos s) in
              let timer := proximoTimer s in
              Retorna
                {| sistemaAtivo := sistemaAtivo s;
                   pedidos := pedidos s ++ [l];
                   proximoId := proximoId s + 1;
                   timersExpiracao := <[proximoId s := timer]> (timersExpiracao s);
                   objetos := objetos s ++ [novoPedido];
                   agendados := <[timer := l]> (agendados s);
                   proximoTimer := S timer |}
                [IoEmit (PedidoCriado l novoPedido)]
          | _, _ => Lanca s1 []
          end
    end.

(** ['pedido.aceitar'] *)
Definition pedido_aceitar (sock : SocketId) (pedidoId : Z) (s : Estado)
  : Resultado :=
  match find (objetos s) pedidoId (pedidos s) with
  | None => Retorna s [SocketEmit sock (ErroOperacao PedidoNaoEncontrado)]
  | Some (l, pedido) =>
      if negb (bool_decide (status pedido = Pendente)) then
        Retorna s [SocketEmit sock (ErroOperacao ApenasPendentes)]
      else
        let pedido' := com_status Preparando pedido in
        let s1 := com_objetos (<[l := pedido']> (objetos s)) s in
        Retorna (limparTimer pedidoId s1) [IoEmit (PedidoAceito l pedido')]
  end.

(** ['pedido.finalizar'] *)
Definition pedido_finalizar (sock : SocketId) (agora : Hora) (pedidoId : Z)
    (s : Estado) : Resultado :=
  match find (objetos s) pedidoId (pedidos s) with
  | None => Retorna s [SocketEmit sock (ErroOperacao PedidoNaoEncontrado)]
  | Some (l, pedido) =>
      if negb (bool_decide (status pedido = Preparando)) then
        Retorna s [SocketEmit sock (ErroOperacao ApenasEmPreparo)]
      else
        let pedido' := com_prontoEm agora (com_status Pronto pedido) in
        Retorna (com_objetos (<[l := pedido']> (objetos s)) s)
                [IoEmit (PedidoFinalizado l pedido')]
  end.

(** ['pedido.cancelar'] *)
Definition pedido_cancelar (sock : SocketId) (agora : Hora) (pedidoId : Z)
    (s : Estado) : Resultado :=
  match find (objetos s) pedidoId (pedidos s) with
  | None => Retorna s [SocketEmit sock (ErroOperacao PedidoNaoEncontrado)]
  | Some (l, pedido) =>
      if bool_decide (status pedido = Entregue)
         || bool_decide (status pedido = Cancelado) then
        Retorna s [SocketEmit sock (ErroOperacao NaoPodeCancelar)]
      else
        let pedido' := com_canceladoEm agora (com_status Cancelado pedido) in
        let s1 := com_objetos (<[l := pedido']> (objetos s)) s in
        Retorna (limparTimer pedidoId s1) [IoEmit (PedidoCancelado l pedido')]
  end.

(** ['pedido.entregar'] *)
Definition pedido_entregar (sock : SocketId) (agora : Hora) (pedidoId : Z)
    (s : Estado) : Resultado :=
  match find (objetos s) pedidoId (pedidos s) with
  | None => Retorna s [SocketEmit sock (ErroOperacao PedidoNaoEncontrado)]
  | Some (l, pedido) =>
      if negb (bool_decide (status pedido = Pronto)) then
        Retorna s [SocketEmit sock (ErroOperacao ApenasProntos)]
      else
        let pedido' := com_entregueEm agora (com_status Entregue pedido) in
        Retorna (com_objetos (<[l := pedido']> (objetos s)) s)
                [IoEmit (PedidoEntregue l pedido')]
  end.

(** ['sistema.reset']: [forEach] clears every timeout stored in the map,
    then the map, the list and the counter are reset. *)
Definition sistema_reset (agora : Hora) (s : Estado) : Resultado :=
  let a := map_fold (λ _ timer a, delete timer a) (agendados s)
                    (timersExpiracao s) in
  Retorna
    {| sistemaAtivo := sistemaAtivo s; pedidos := []; proximoId := 1;
       timersExpiracao := ∅; objetos := objetos s; agendados := a;
       proximoTimer := proximoTimer s |}
    [IoEmit (SistemaResetado agora)].

(** ** Runs *)

(** What the event loop hands to the server: a socket event with the socket
    it came from, the clock reading the handler takes (when it takes one)
    and the payload, or a scheduled timeout firing. *)
Inductive Evento :=
| Connection (sock : SocketId)
| SistemaIniciar (sock : SocketId) (agora : Hora)
| PedidoCriar (sock : SocketId) (agora : Hora) (dados : Dados)
| PedidoAceitar (sock : SocketId) (pedidoId : Z)
| PedidoFinalizar (sock : SocketId) (agora : Hora) (pedidoId : Z)
| PedidoCancelar (sock : SocketId) (agora : Hora) (pedidoId : Z)
| PedidoEntregar (sock : SocketId) (agora : Hora) (pedidoId : Z)
| SistemaReset (sock : SocketId) (agora : Hora)
| Timeout (timer : handle).

(** One turn of the event loop.  A timeout fires only while it is scheduled
    ([None] otherwise), and firing unschedules it before its callback runs. *)
Definition passo (s : Estado) (ev : Evento) : option Resultado :=
  match ev with
  | Connection sock => Some (connection sock s)
  | SistemaIniciar _ agora => Some (sistema_iniciar agora s)
  | PedidoCriar sock agora dados => Some (pedido_criar sock agora dados s)
  | PedidoAceitar sock pedidoId => Some (pedido_aceitar sock pedidoId s)
  | PedidoFinalizar sock agora pedidoId =>
      Some (pedido_finalizar sock agora pedidoId s)
  | PedidoCancelar sock agora pedidoId =>
      Some (pedido_cancelar sock agora pedidoId s)
  | PedidoEntregar sock agora pedidoId =>
      Some (pedido_entregar sock agora pedidoId s)
  | SistemaReset _ agora => Some (sistema_reset agora s)
  | Timeout timer =>
      match agendados s !! timer with
      | Some novoPedido =>
          Some (timeout_callback novoPedido
                  (com_timers (timersExpiracao s) (delete timer (agendados s)) s))
      | None => None
      end
  end.

(** A run from [s]: the final state and everything emitted, in order.  A
    TypeError escaping a handler is taken not to stop the server: the run
    goes on from the state at the throw (if it ends the process instead,
    the runs are the prefixes up to the first throw). *)
Fixpoint executa (s : Estado) (evs : list Evento) : option (Estado * list Saida) :=
  match evs with
  | [] => Some (s, [])
  | ev :: evs' =>
      match passo s ev with
      | Some r =>
          match executa (estadoDe r) evs' with
          | Some (s', out) => Some (s', saidasDe r ++ out)
          | None => None
          end
      | None => None
      end
  end.

(** The states the server can be in. *)
Inductive alcancavel : Estado → Prop :=
| alc_inicial : alcancavel inicial
| alc_passo s ev r :
    alcancavel s → passo s ev = Some r → alcancavel (estadoDe r).

(** The ASCII text of a Rocq string as a JS string, for examples. *)
Definition js (s : string) : JsString :=
  map Ascii.N_of_ascii (String.list_ascii_of_string s).

(** ** The transition table of the specification *)

(** The actions of section 4. *)
Inductive Acao := Accept | Finalize | Cancel | Deliver | TimerElapses.

(** The state machine summary of section 4, row by row. *)
Definition tabela (de : Status) (a : Acao) (para : Status) : bool :=
  match de, a, para with
  | Pendente, Accept, Preparando
  | Pendente, TimerElapses, Expirado
  | Pendente, Cancel, Cancelado
  | Preparando, Finalize, Pronto
  | Preparando, Cancel, Cancelado
  | Pronto, Deliver, Entregue
  | Pronto, Cancel, Cancelado => true
  | _, _, _ => false
  end.

(** The action an event stands for, if any. *)
Definition acaoDe (ev : Evento) : option Acao :=
  match ev with
  | PedidoAceitar _ _ => Some Accept
  | PedidoFinalizar _ _ _ => Some Finalize
  | PedidoCancelar _ _ _ => Some Cancel
  | PedidoEntregar _ _ _ => Some Deliver
  | Timeout _ => Some TimerElapses
  | _ => None
  end.

(** What one event may do to one order object: [p] before, [p'] after. *)
Definition altera (ev : Evento) (p p' : Pedido) : Prop :=
  match ev with
  | PedidoAceitar _ _ =>
      status p = Pendente ∧ p' = com_status Preparando p
  | PedidoFinalizar _ agora _ =>
      status p = Preparando ∧ p' = com_prontoEm agora (com_status Pronto p)
  | PedidoCancelar _ agora _ =>
      status p ≠ Entregue ∧ status p ≠ Cancelado
      ∧ p' = com_canceladoEm agora (com_status Cancelado p)
  | PedidoEntregar _ agora _ =>
      status p = Pronto ∧ p' = com_entregueEm agora (com_status Entregue p)
  | Timeout _ =>
      status p = Pendente ∧ p' = com_status Expirado p
  | _ => False
  end.

(** What one event may do to the heap of order objects: nothing, allocate
    one object (only ['pedido.criar']), or mutate one object in place. *)
Inductive mudanca (ev : Evento) (objs objs' : list Pedido) : Prop :=
| mud_nada : objs' = objs → mudanca ev objs objs'
| mud_novo sock agora dados np :
    ev = PedidoCriar sock agora dados →
    objs' = objs ++ [np] → mudanca ev objs objs'
| mud_altera l p p' :
    objs !! l = Some p → altera ev p p' →
    objs' = <[l := p']> objs → mudanca ev objs objs'.

(** The fields written once, by ['pedido.criar']. *)
Definition mesmosCampos (p p' : Pedido) : Prop :=
  id p' = id p ∧ cliente p' = cliente p ∧ itens p' = itens p
  ∧ criadoEm p' = criadoEm p ∧ socketId p' = socketId p.

(** The variables of the server other than the timer bookkeeping. *)
Definition mesmasVariaveis (s s' : Estado) : Prop :=
  sistemaAtivo s' = sistemaAtivo s ∧ pedidos s' = pedidos s
  ∧ proximoId s' = proximoId s ∧ length (objetos s') = length (objetos s).

(** The order collection as the clients see it: the objects [pedidos]
    refers to, in insertion order. *)
Definition pedidosDe (s : Estado) : list Pedido :=
  omap (λ l, objetos s !! l) (pedidos s).

(** The event emitted, whoever it is sent to. *)
Definition emissaoDe (o : Saida) : Emissao :=
  match o with SocketEmit _ e | IoEmit e => e end.

(** The ids given to the orders created during a run, in order, read off
    the ['pedido.criado'] emissions. *)
Definition idsCriados (out : list Saida) : list Z :=
  omap (λ o, match emissaoDe o with
             | PedidoCriado _ p => Some (id p)
             | _ => None
             end) out.

(** The timeout that fires at an event, with the order object its callback
    is for. *)
Definition disparo (s : Estado) (ev : Evento) : list (handle * loc) :=
  match ev with
  | Timeout timer =>
      match agendados s !! timer with
      | Some l => [(timer, l)]
      | None => []
      end
  | _ => []
  end.

(** The timeouts that fire during a run from [s]. *)
Fixpoint disparos (s : Estado) (evs : list Evento) : list (handle * loc) :=
  match evs with
  | [] => []
  | ev :: evs' =>
      match passo s ev with
      | Some r => disparo s ev ++ disparos (estadoDe r) evs'
      | None => []
      end
  end.

(** An order that has been accepted or canceled: it is neither pending nor
    expired. *)
Definition deixouPendente (p : Pedido) : Prop :=
  status p ≠ Pendente ∧ status p ≠ Expirado.

(** ** Invariants of the reachable states *)

(** The collection: no reference dangles, the ids are strictly increasing
    in insertion order, and every id lies between 1 and the counter. *)
Definition invIds (s : Estado) : Prop :=
  (1 ≤ proximoId s)%Z
  ∧ Forall (λ l, is_Some (objetos s !! l)) (pedidos s)
  ∧ StronglySorted Z.lt (id <$> pedidosDe s)
  ∧ Forall (λ p, (1 ≤ id p < proximoId s)%Z) (pedidosDe s).

(** The timers: every key of the map is an id already given out, and every
    scheduled timeout is the one the map stores under the id of the order
    its closure captured. *)
Definition invTimers (s : Estado) : Prop :=
  (∀ k h, timersExpiracao s !! k = Some h → (k < proximoId s)%Z)
  ∧ (∀ h l, agendados s !! h = Some l →
       ∃ p, objetos s !! l = Some p ∧ timersExpiracao s !! id p = Some h).

Definition inv (s : Estado) : Prop := invIds s ∧ invTimers s.

(** Every event but ['sistema.reset']. *)
Definition naoReset (ev : Evento) : bool :=
  match ev with
  | SistemaReset _ _ => false
  | _ => true
  end.

(** The scheduler: scheduled timeouts are older than the next fresh one,
    point to allocated objects, and no two are for the same object; the
    timeouts in [F], which have fired, are no longer scheduled, nor is any
    timeout for their objects, and none occurs twice. *)
Definition invDisparos (s : Estado) (F : list (handle * loc)) : Prop :=
  (∀ h l, agendados s !! h = Some l →
          h < proximoTimer s ∧ l < length (objetos s))
  ∧ (∀ h1 h2 l, agendados s !! h1 = Some l → agendados s !! h2 = Some l → h1 = h2)
  ∧ (∀ h l, (h, l) ∈ F →
            h < proximoTimer s ∧ l < length (objetos s)
            ∧ agendados s !! h = None ∧ ∀ h', agendados s !! h' ≠ Some l)
  ∧ NoDup F.*1 ∧ NoDup F.*2.

(** The events that stand for accept, finalize, cancel, deliver and reset. *)
Definition semPortao (ev : Evento) : bool :=
  match ev with
  | PedidoAceitar _ _ | PedidoFinalizar _ _ _ | PedidoCancelar _ _ _
  | PedidoEntregar _ _ _ | SistemaReset _ _ => true
  | _ => false
  end.

(** The preconditions section 4.1 gives for those operations: the order
    exists and its status is the one required; reset has none. *)
Definition precondicao_spec (s : Estado) (ev : Evento) : bool :=
  let statusDe pedidoId := status <$> (snd <$> find (objetos s) pedidoId (pedidos s)) in
  match ev with
  | PedidoAceitar _ pedidoId => bool_decide (statusDe pedidoId = Some Pendente)
  | PedidoFinalizar _ _ pedidoId => bool_decide (statusDe pedidoId = Some Preparando)
  | PedidoCancelar _ _ pedidoId =>
      bool_decide (is_Some (statusDe pedidoId)
                   ∧ statusDe pedidoId ≠ Some Entregue
                   ∧ statusDe pedidoId ≠ Some Cancelado)
  | PedidoEntregar _ _ pedidoId => bool_decide (statusDe pedidoId = Some Pronto)
  | SistemaReset _ _ => true
  | _ => false
  end.

(** The same result with the flag of its state set to [b]. *)
Definition comAtivo (b : bool) (r : Resultado) : Resultado :=
  match r with
  | Retorna s out => Retorna (com_sistemaAtivo b s) out
  | Lanca s out => Lanca (com_sistemaAtivo b s) out
  end.

(** An action that succeeds on the order [pedidoId]: the handler returns;
    the order the collection holds under that id is rewritten in place as
    [altera] says, and that order is the one broadcast, under the name
    [anuncia]; the flag, the collection and the counter are as they were.
    Where the operation cancels the order's timer ([limpa]), the entry of
    the map under that id is deleted and the timeout it stored is no longer
    scheduled; elsewhere the timers are as they were. *)
Definition acaoFeita (ev : Evento) (pedidoId : Z)
    (anuncia : loc → Pedido → Emissao) (limpa : bool)
    (s : Estado) (r : Resultado) : Prop :=
  ∃ l p p',
    find (objetos s) pedidoId (pedidos s) = Some (l, p)
    ∧ altera ev p p'
    ∧ r = Retorna
            {| sistemaAtivo := sistemaAtivo s;
               pedidos := pedidos s;
               proximoId := proximoId s;
               timersExpiracao :=
                 if limpa then delete pedidoId (timersExpiracao s)
                 else timersExpiracao s;
               objetos := <[l := p']> (objetos s);
               agendados :=
                 match timersExpiracao s !! pedidoId with
                 | Some h => if limpa then delete h (agendados s) else agendados s
                 | None => agendados s
                 end;
               proximoTimer := proximoTimer s |}
            [IoEmit (anuncia l p')].

(** A reset that succeeds: the handler returns after one broadcast of
    ['sistema.resetado']; the collection and the timer map are empty and the
    counter is 1; the flag is as it was; the timeouts still scheduled are
    those that were scheduled and that the map did not store. *)
Definition resetFeito (agora : Hora) (s : Estado) (r : Resultado) : Prop :=
  ∃ s',
    r = Retorna s' [IoEmit (SistemaResetado agora)]
    ∧ sistemaAtivo s' = sistemaAtivo s
    ∧ pedidos s' = [] ∧ proximoId s' = 1%Z ∧ timersExpiracao s' = ∅
    ∧ objetos s' = objetos s ∧ proximoTimer s' = proximoTimer s
    ∧ ∀ h l, agendados s' !! h = Some l
             ↔ agendados s !! h = Some l ∧ ∀ k, timersExpiracao s !! k ≠ Some h.

(** What it is for accept, finalize, cancel, deliver and reset to succeed:
    the effect and the broadcast section 4.1 gives for each. *)
Definition sucesso (s : Estado) (ev : Evento) (r : Resultado) : Prop :=
  match ev with
  | PedidoAceitar _ pedidoId => acaoFeita ev pedidoId PedidoAceito true s r
  | PedidoFinalizar _ _ pedidoId => acaoFeita ev pedidoId PedidoFinalizado false s r
  | PedidoCancelar _ _ pedidoId => acaoFeita ev pedidoId PedidoCancelado true s r
  | PedidoEntregar _ _ pedidoId => acaoFeita ev pedidoId PedidoEntregue false s r
  | SistemaReset _ agora => resetFeito agora s r
  | _ => False
  end.

(** ** Example data *)

Definition sockA : SocketId := js "sock-A".
Definition sockB : SocketId := js "sock-B".

Definition anaPizza : Dados := DObj (CStr (js "  Ana ")) (CStr (js "Pizza")).

(** Start, create order 1, accept it. *)
Definition eventosAceito : list Evento :=
  [SistemaIniciar sockA (js "10:00:00");
   PedidoCriar sockB (js "10:00:05") anaPizza;
   PedidoAceitar sockA 1].

(** Start, create order 1, let its timeout fire. *)
Definition eventosExpirado : list Evento :=
  [SistemaIniciar sockA (js "10:00:00");
   PedidoCriar sockB (js "10:00:05") anaPizza;
   Timeout 0].

(** The state a run from [inicial] ends in, and the result of one event. *)
Definition estadoDepois (evs : list Evento) : Estado :=
  match executa inicial evs with
  | Some (s, _) => s
  | None => inicial
  end.

Definition estadoExpirado : Estado := estadoDepois eventosExpirado.
Definition estadoAceito : Estado := estadoDepois eventosAceito.

Definition resultadoDe (s : Estado) (ev : Evento) : Resultado :=
  match passo s ev with
  | Some r => r
  | None => Retorna s []
  end.

(** Order 1 of the example runs, in the given status. *)
Definition pedidoAna (st : Status) (canc : option Hora) : Pedido :=
  {| id := 1; cliente := js "Ana"; itens := js "Pizza"; status := st;
     criadoEm := js "10:00:05"; socketId := sockB; prontoEm := None;
     canceladoEm := canc; entregueEm := None |}.

Definition cancelar1 : Evento := PedidoCancelar sockA (js "10:01:00") 1.

(** After start alone; after start and one order; the latter with the flag
    cleared by hand (a state no run reaches, used to exercise the handlers
    with the flag off). *)
Definition estadoAtivo : Estado :=
  estadoDepois [SistemaIniciar sockA (js "10:00:00")].

Definition estadoPendente : Estado :=
  estadoDepois [SistemaIniciar sockA (js "10:00:00");
                PedidoCriar sockB (js "10:00:05") anaPizza].

Definition estadoPendenteInativo : Estado := com_sistemaAtivo false estadoPendente.

(** A customer made of three spaces. *)
Definition soEspacos : Dados := DObj (CStr (js "   ")) (CStr (js "Pizza")).

Definition biaSuco : Dados := DObj (CStr (js "Bia")) (CStr (js "Suco")).

(** Start, create an order, reset, create another order. *)
Definition eventosReset : list Evento :=
  [SistemaIniciar sockA (js "10:00:00");
   PedidoCriar sockB (js "10:00:05") anaPizza;
   SistemaReset sockA (js "10:00:10");
   PedidoCriar sockB (js "10:00:15") biaSuco].

(** Two orders created after a reset. *)
Definition eventosDois : list Evento :=
  eventosReset ++ [PedidoCriar sockA (js "10:00:20") anaPizza].

(** What follows the acceptance of order 1 in the example: a second order
    is created, its timeout fires, and order 1 is finalized. *)
Definition eventosDepoisDeAceitar : list Evento :=
  [PedidoCriar sockB (js "10:00:40") biaSuco;
   Timeout 1;
   PedidoFinalizar sockA (js "10:01:30") 1].

(** ** Further notions about the handlers *)

(** The socket an event came from; a timeout comes from none. *)
Definition socketDe (ev : Evento) : option SocketId :=
  match ev with
  | Connection sock | SistemaIniciar sock _ | PedidoCriar sock _ _
  | PedidoAceitar sock _ | PedidoFinalizar sock _ _ | PedidoCancelar sock _ _
  | PedidoEntregar sock _ _ | SistemaReset sock _ => Some sock
  | Timeout _ => None
  end.

(** The order an emission carries, if it carries one. *)
Definition pedidoDe (e : Emissao) : option (loc * Pedido) :=
  match e with
  | PedidoCriado l p | PedidoAceito l p | PedidoFinalizado l p
  | PedidoCancelado l p | PedidoEntregue l p | PedidoExpirado l p => Some (l, p)
  | _ => None
  end.

(** The emissions that go to one socket: errors and the initial state. *)
Definition soParaSocket (e : Emissao) : bool :=
  match e with
  | ErroOperacao _ | EstadoInicial _ _ => true
  | _ => false
  end.

(** The pedido id an action event carries. *)
Definition pedidoIdDe (ev : Evento) : option Z :=
  match ev with
  | PedidoAceitar _ pedidoId | PedidoFinalizar _ _ pedidoId
  | PedidoCancelar _ _ pedidoId | PedidoEntregar _ _ pedidoId => Some pedidoId
  | _ => None
  end.

(** The statuses in which ['pedido.cancelar'] refuses an order. *)
Definition terminal (st : Status) : Prop := st = Entregue ∨ st = Cancelado.

(** Order 1 of the examples delivered: start, create, accept, finalize,
    deliver. *)
Definition eventosEntregue : list Evento :=
  eventosAceito ++ [PedidoFinalizar sockA (js "10:03:00") 1;
                    PedidoEntregar sockA (js "10:04:00") 1].

Definition pedidoEntregue : Pedido :=
  {| id := 1; cliente := js "Ana"; itens := js "Pizza"; status := Entregue;
     criadoEm := js "10:00:05"; socketId := sockB;
     prontoEm := Some (js "10:03:00"); canceladoEm := None;
     entregueEm := Some (js "10:04:00") |}.

(** What arrives after the delivery in the example: every action on
    order 1, a new order, the new order's timeout. *)
Definition eventosAposEntrega : list Evento :=
  [PedidoCancelar sockA (js "10:05:00") 1;
   PedidoAceitar sockA 1;
   PedidoCriar sockB (js "10:06:00") biaSuco;
   PedidoFinalizar sockA (js "10:07:00") 1;
   Timeout 1;
   PedidoEntregar sockA (js "10:08:00") 1].

(** Timers and pending orders go together: a scheduled timeout is older
    than the next fresh one, is for a pending order of the collection and
    is the one stored under that order's id; an entry of the map stores a
    scheduled timeout, which is for the order with that id; a pending order
    of the collection has an entry. *)
Definition invPendentes (s : Estado) : Prop :=
  (∀ h l, agendados s !! h = Some l →
     h < proximoTimer s ∧ l ∈ pedidos s
     ∧ ∃ p, objetos s !! l = Some p ∧ status p = Pendente
            ∧ timersExpiracao s !! id p = Some h)
  ∧ (∀ k h, timersExpiracao s !! k = Some h →
       ∃ l p, agendados s !! h = Some l ∧ objetos s !! l = Some p ∧ id p = k)
  ∧ (∀ l p, l ∈ pedidos s → objetos s !! l = Some p → status p = Pendente →
       is_Some (timersExpiracao s !! id p)).

(** Two orders, the first accepted and the second still pending. *)
Definition eventosUmPendente : list Evento :=
  eventosAceito ++ [PedidoCriar sockB (js "10:00:40") biaSuco].

Definition pedidoBia (st : Status) : Pedido :=
  {| id := 2; cliente := js "Bia"; itens := js "Suco"; status := st;
     criadoEm := js "10:00:40"; socketId := sockB; prontoEm := None;
     canceladoEm := None; entregueEm := None |}.

(** A string with no whitespace at either end. *)
Definition aparado (t : JsString) : Prop :=
  (∀ c, head t = Some c → espacoJs c = false)
  ∧ (∀ c, last t = Some c → espacoJs c = false).

(** The timestamps an order carries, by its status. *)
Definition carimbos (p : Pedido) : Prop :=
  match status p with
  | Pendente | Preparando | Expirado =>
      prontoEm p = None ∧ canceladoEm p = None ∧ entregueEm p = None
  | Pronto =>
      is_Some (prontoEm p) ∧ canceladoEm p = None ∧ entregueEm p = None
  | Entregue =>
      is_Some (prontoEm p) ∧ canceladoEm p = None ∧ is_Some (entregueEm p)
  | Cancelado =>
      is_Some (canceladoEm p) ∧ entregueEm p = None
  end.

(** The order ['pedido.criar'] builds from two strings, in a given status
    and with given timestamps. *)
Definition pedidoCom (n : Z) (dc di : JsString) (sock : SocketId) (agora : Hora)
    (st : Status) (pronto entregue : option Hora) : Pedido :=
  {| id := n; cliente := trim dc; itens := trim di; status := st;
     criadoEm := agora; socketId := sock; prontoEm := pronto;
     canceladoEm := None; entregueEm := entregue |}.

(** Whether a field of the payload is a string. *)
Definition ehString (c : Campo) : bool :=
  match c with CStr _ => true | _ => false end.

(** How a viewer that keeps the list of orders follows a broadcast: a
    created order is appended, a changed order replaces the one with its
    id, a reset empties the list. *)
Definition substitui (p : Pedido) (ps : list Pedido) : list Pedido :=
  (λ q, if (id q =? id p)%Z then p else q) <$> ps.

Definition acompanha (ps : list Pedido) (o : Saida) : list Pedido :=
  match o with
  | IoEmit (PedidoCriado _ p) => ps ++ [p]
  | IoEmit (PedidoAceito _ p) | IoEmit (PedidoFinalizado _ p)
  | IoEmit (PedidoCancelado _ p) | IoEmit (PedidoEntregue _ p)
  | IoEmit (PedidoExpirado _ p) => substitui p ps
  | IoEmit (SistemaResetado _) => []
  | _ => ps
  end.

(** * The earlier variant, [src/sistema-pedidos/server.js]

    The same server without validation, error replies, timestamps, timer
    map and reset: three module-level variables, and timeouts that are
    scheduled and never cleared.  It shares the payload, status and message
    types with the embedding above; its orders store the payload fields as
    they came. *)
Module SistemaPedidos.

Record Pedido := {
  id : Z;
  cliente : Campo;
  itens : Campo;
  status : Status;
  criadoEm : Hora;
  socketId : SocketId
}.

Definition com_status (st : Status) (p : Pedido) : Pedido :=
  {| id := id p; cliente := cliente p; itens := itens p; status := st;
     criadoEm := criadoEm p; socketId := socketId p |}.

(** The three variables of the module, then the order objects ever
    allocated, the timeouts scheduled and not yet fired (each with the
    [novoPedido] its closure captured) and the next fresh timeout. *)
Record Estado := {
  sistemaAtivo : bool;
  pedidos : list loc;
  proximoId : Z;
  objetos : list Pedido;
  agendados : gmap handle loc;
  proximoTimer : handle
}.

Definition inicial : Estado :=
  {| sistemaAtivo := false; pedidos := []; proximoId := 1; objetos := [];
     agendados := ∅; proximoTimer := 0 |}.

Definition com_objetos (o : list Pedido) (s : Estado) : Estado :=
  {| sistemaAtivo := sistemaAtivo s; pedidos := pedidos s;
     proximoId := proximoId s; objetos := o; agendados := agendados s;
     proximoTimer := proximoTimer s |}.

Inductive Emissao :=
| EstadoInicial (ativo : bool) (ps : list Pedido)   (* 'estado.inicial' *)
| ErroOperacao (m : Mensagem)                       (* 'erro.operacao' *)
| SistemaIniciado (timestamp : Hora)                (* 'sistema.iniciado' *)
| PedidoCriado (l : loc) (p : Pedido)               (* 'pedido.criado' *)
| PedidoAceito (l : loc) (p : Pedido)               (* 'pedido.aceito' *)
| PedidoFinalizado (l : loc) (p : Pedido)           (* 'pedido.finalizado' *)
| PedidoCancelado (l : loc) (p : Pedido)            (* 'pedido.cancelado' *)
| PedidoEntregue (l : loc) (p : Pedido)             (* 'pedido.entregue' *)
| PedidoExpirado (l : loc) (p : Pedido).            (* 'pedido.expirado' *)

Inductive Saida :=
| SocketEmit (sock : SocketId) (e : Emissao)
| IoEmit (e : Emissao).

Inductive Resultado :=
| Retorna (s : Estado) (out : list Saida)
| Lanca (s : Estado) (out : list Saida).

Definition estadoDe (r : Resultado) : Estado :=
  match r with Retorna s _ | Lanca s _ => s end.

Definition saidasDe (r : Resultado) : list Saida :=
  match r with Retorna _ out | Lanca _ out => out end.

(** [pedidos.find(p => p.id === pedidoId)], as above. *)
Fixpoint find (objs : list Pedido) (pedidoId : Z) (ps : list loc)
  : option (loc * Pedido) :=
  match ps with
  | [] => None
  | l :: r =>
      match objs !! l with
      | Some p => if (id p =? pedidoId)%Z then Some (l, p) else find objs pedidoId r
      | None => find objs pedidoId r
      end
  end.

(** ['connection'] *)
Definition connection (sock : SocketId) (s : Estado) : Resultado :=
  Retorna s
    [SocketEmit sock
       (EstadoInicial (sistemaAtivo s) (omap (λ l, objetos s !! l) (pedidos s)))].

(** ['sistema.iniciar'] *)
Definition sistema_iniciar (agora : Hora) (s : Estado) : Resultado :=
  Retorna
    {| sistemaAtivo := true; pedidos := pedidos s; proximoId := proximoId s;
       objetos := objetos s; agendados := agendados s;
       proximoTimer := proximoTimer s |}
    [IoEmit (SistemaIniciado agora)].

(** The callback given to [setTimeout]. *)
Definition timeout_callback (novoPedido : loc) (s : Estado) : Resultado :=
  match objetos s !! novoPedido with
  | None => Retorna s []
  | Some np =>
      match find (objetos s) (id np) (pedidos s) with
      | Some (l, pedido) =>
          if bool_decide (status pedido = Pendente) then
            let pedido' := com_status Expirado pedido in
            Retorna (com_objetos (<[l := pedido']> (objetos s)) s)
                    [IoEmit (PedidoExpirado l pedido')]
          else Retorna s []
      | None => Retorna s []
      end
  end.

(** ['pedido.criar']: the fields of the payload are stored as they are.
    [proximoId++] comes first in the object literal, so that reading
    [dados.cliente] of a missing payload throws with the counter already
    incremented.  The timeout returned by [setTimeout] is not kept. *)
Definition pedido_criar (sock : SocketId) (agora : Hora) (dados : Dados)
    (s : Estado) : Resultado :=
  if negb (sistemaAtivo s) then
    Retorna s [SocketEmit sock (ErroOperacao SistemaNaoAtivo)]
  else
    match dados with
    | DNulo =>
        Lanca {| sistemaAtivo := sistemaAtivo s; pedidos := pedidos s;
                 proximoId := proximoId s + 1; objetos := objetos s;
                 agendados := agendados s; proximoTimer := proximoTimer s |} []
    | DObj c i =>
        let novoPedido :=
          {| id := proximoId s; cliente := c; itens := i; status := Pendente;
             criadoEm := agora; socketId := sock |} in
        let l := length (objetos s) in
        Retorna
          {| sistemaAtivo := sistemaAtivo s;
             pedidos := pedidos s ++ [l];
             proximoId := proximoId s + 1;
             objetos := objetos s ++ [novoPedido];
             agendados := <[proximoTimer s := l]> (agendados s);
             proximoTimer := S (proximoTimer s) |}
          [IoEmit (PedidoCriado l novoPedido)]
    end.

(** ['pedido.aceitar'] *)
Definition pedido_aceitar (pedidoId : Z) (s : Estado) : Resultado :=
  match find (objetos s) pedidoId (pedidos s) with
  | Some (l, pedido) =>
      if bool_decide (status pedido = Pendente) then
        let pedido' := com_status Preparando pedido in
        Retorna (com_objetos (<[l := pedido']> (objetos s)) s)
                [IoEmit (PedidoAceito l pedido')]
      else Retorna s []
  | None => Retorna s []
  end.

(** ['pedido.finalizar'] *)
Definition pedido_finalizar (pedidoId : Z) (s : Estado) : Resultado :=
  match find (objetos s) pedidoId (pedidos s) with
  | Some (l, pedido) =>
      if bool_decide (status pedido = Preparando) then
        let pedido' := com_status Pronto pedido in
        Retorna (com_objetos (<[l := pedido']> (objetos s)) s)
                [IoEmit (PedidoFinalizado l pedido')]
      else Retorna s []
  | None => Retorna s []
  end.

(** ['pedido.cancelar'] *)
Definition pedido_cancelar (pedidoId : Z) (s : Estado) : Resultado :=
  match find (objetos s) pedidoId (pedidos s) with
  | Some (l, pedido) =>
      if negb (bool_decide (status pedido = Entregue)) then
        let pedido' := com_status Cancelado pedido in
        Retorna (com_objetos (<[l := pedido']> (objetos s)) s)
                [IoEmit (PedidoCancelado l pedido')]
      else Retorna s []
  | None => Retorna s []
  end.

(** ['pedido.entregar'] *)
Definition pedido_entregar (pedidoId : Z) (s : Estado) : Resultado :=
  match find (objetos s) pedidoId (pedidos s) with
  | Some (l, pedido) =>
      if bool_decide (status pedido = Pronto) then
        let pedido' := com_status Entregue pedido in
        Retorna (com_objetos (<[l := pedido']> (objetos s)) s)
                [IoEmit (PedidoEntregue l pedido')]
      else Retorna s []
  | None => Retorna s []
  end.

(** What the event loop hands to this server. *)
Inductive Evento :=
| Connection (sock : SocketId)
| SistemaIniciar (sock : SocketId) (agora : Hora)
| PedidoCriar (sock : SocketId) (agora : Hora) (dados : Dados)
| PedidoAceitar (sock : SocketId) (pedidoId : Z)
| PedidoFinalizar (sock : SocketId) (pedidoId : Z)
| PedidoCancelar (sock : SocketId) (pedidoId : Z)
| PedidoEntregar (sock : SocketId) (pedidoId : Z)
| Timeout (timer : handle).

(** One turn of the event loop. *)
Definition passo (s : Estado) (ev : Evento) : option Resultado :=
  match ev with
  | Connection sock => Some (connection sock s)
  | SistemaIniciar _ agora => Some (sistema_iniciar agora s)
  | PedidoCriar sock agora dados => Some (pedido_criar sock agora dados s)
  | PedidoAceitar _ pedidoId => Some (pedido_aceitar pedidoId s)
  | PedidoFinalizar _ pedidoId => Some (pedido_finalizar pedidoId s)
  | PedidoCancelar _ pedidoId => Some (pedido_cancelar pedidoId s)
  | PedidoEntregar _ pedidoId => Some (pedido_entregar pedidoId s)
  | Timeout timer =>
      match agendados s !! timer with
      | Some novoPedido =>
          Some (timeout_callback novoPedido
                  {| sistemaAtivo := sistemaAtivo s; pedidos := pedidos s;
                     proximoId := proximoId s; objetos := objetos s;
                     agendados := delete timer (agendados s);
                     proximoTimer := proximoTimer s |})
      | None => None
      end
  end.

(** A run, as above. *)
Fixpoint executa (s : Estado) (evs : list Evento) : option (Estado * list Saida) :=
  match evs with
  | [] => Some (s, [])
  | ev :: evs' =>
      match passo s ev with
      | Some r =>
          match executa (estadoDe r) evs' with
          | Some (s', out) => Some (s', saidasDe r ++ out)
          | None => None
          end
      | None => None
      end
  end.

Inductive alcancavel : Estado → Prop :=
| alc_inicial : alcancavel inicial
| alc_passo s ev r :
    alcancavel s → passo s ev = Some r → alcancavel (estadoDe r).

Definition emissaoDe (o : Saida) : Emissao :=
  match o with SocketEmit _ e | IoEmit e => e end.

Definition pedidosDe (s : Estado) : list Pedido :=
  omap (λ l, objetos s !! l) (pedidos s).

(** The ids given to the orders created during a run. *)
Definition idsCriados (out : list Saida) : list Z :=
  omap (λ o, match emissaoDe o with
             | PedidoCriado _ p => Some (id p)
             | _ => None
             end) out.

(** What one event may do to one order object. *)
Definition altera (ev : Evento) (p p' : Pedido) : Prop :=
  match ev with
  | PedidoAceitar _ _ => status p = Pendente ∧ p' = com_status Preparando p
  | PedidoFinalizar _ _ => status p = Preparando ∧ p' = com_status Pronto p
  | PedidoCancelar _ _ => status p ≠ Entregue ∧ p' = com_status Cancelado p
  | PedidoEntregar _ _ => status p = Pronto ∧ p' = com_status Entregue p
  | Timeout _ => status p = Pendente ∧ p' = com_status Expirado p
  | _ => False
  end.

(** The action an event stands for, if any. *)
Definition acaoDe (ev : Evento) : option Acao :=
  match ev with
  | PedidoAceitar _ _ => Some Accept
  | PedidoFinalizar _ _ => Some Finalize
  | PedidoCancelar _ _ => Some Cancel
  | PedidoEntregar _ _ => Some Deliver
  | Timeout _ => Some TimerElapses
  | _ => None
  end.

(** The order an emission carries, if it carries one. *)
Definition pedidoDe (e : Emissao) : option (loc * Pedido) :=
  match e with
  | PedidoCriado l p | PedidoAceito l p | PedidoFinalizado l p
  | PedidoCancelado l p | PedidoEntregue l p | PedidoExpirado l p => Some (l, p)
  | _ => None
  end.

(** What one turn does, in one of three ways: it touches neither the
    collection nor any order and emits no order event; or it is a
    ['pedido.criar'] that appends a pending order with the counter as its
    id and broadcasts it; or it changes one order of the collection as
    [altera] says and broadcasts it. *)
Inductive forma (s : Estado) (ev : Evento) (r : Resultado) : Prop :=
| forma_nada :
    objetos (estadoDe r) = objetos s → pedidos (estadoDe r) = pedidos s →
    (proximoId s ≤ proximoId (estadoDe r))%Z →
    (∀ o, o ∈ saidasDe r → pedidoDe (emissaoDe o) = None) →
    forma s ev r
| forma_novo sock agora c i :
    ev = PedidoCriar sock agora (DObj c i) →
    sistemaAtivo s = true →
    r = Retorna (estadoDe r)
          [IoEmit (PedidoCriado (length (objetos s))
             {| id := proximoId s; cliente := c; itens := i; status := Pendente;
                criadoEm := agora; socketId := sock |})] →
    objetos (estadoDe r)
    = objetos s ++ [{| id := proximoId s; cliente := c; itens := i;
                       status := Pendente; criadoEm := agora; socketId := sock |}] →
    pedidos (estadoDe r) = pedidos s ++ [length (objetos s)] →
    proximoId (estadoDe r) = (proximoId s + 1)%Z →
    forma s ev r
| forma_altera l p p' e :
    l ∈ pedidos s → objetos s !! l = Some p → altera ev p p' →
    objetos (estadoDe r) = <[l := p']> (objetos s) →
    pedidos (estadoDe r) = pedidos s →
    proximoId (estadoDe r) = proximoId s →
    saidasDe r = [IoEmit e] → pedidoDe e = Some (l, p') →
    match e with
    | PedidoCriado _ _ => False
    | PedidoExpirado _ _ => ∃ timer, ev = Timeout timer
    | _ => True
    end →
    forma s ev r.

(** An order that is neither pending nor expired. *)
Definition deixouPendente (p : Pedido) : Prop :=
  status p ≠ Pendente ∧ status p ≠ Expirado.

(** The counter and the collection: the ids are strictly increasing in
    insertion order and below the counter; no reference dangles. *)
Definition invIds (s : Estado) : Prop :=
  (1 ≤ proximoId s)%Z
  ∧ Forall (λ l, is_Some (objetos s !! l)) (pedidos s)
  ∧ StronglySorted Z.lt (id <$> pedidosDe s)
  ∧ Forall (λ p, (1 ≤ id p < proximoId s)%Z) (pedidosDe s).

(** Example: start, create an order with no cliente, accept it, and let
    its timeout, which was never cleared, fire. *)
Definition semCliente : Dados := DObj CUndefined (CStr (js "Pizza")).

Definition eventosExemplo : list Evento :=
  [SistemaIniciar sockA (js "10:00:00");
   PedidoCriar sockB (js "10:00:05") semCliente;
   PedidoAceitar sockA 1;
   Timeout 0].

Definition estadoDepois (evs : list Evento) : Estado :=
  match executa inicial evs with
  | Some (s, _) => s
  | None => inicial
  end.

Definition saidasDepois (evs : list Evento) : list Saida :=
  match executa inicial evs with
  | Some (_, out) => out
  | None => []
  end.

End SistemaPedidos.

(** * The two servers side by side *)

(** An order of [src/server.js] as the variant would hold it: the same
    fields, without the timestamps. *)
Definition projeta (p : Pedido) : SistemaPedidos.Pedido :=
  {| SistemaPedidos.id := id p;
     SistemaPedidos.cliente := CStr (cliente p);
     SistemaPedidos.itens := CStr (itens p);
     SistemaPedidos.status := status p;
     SistemaPedidos.criadoEm := criadoEm p;
     SistemaPedidos.socketId := socketId p |}.

(** The same message sent to the variant, which has no handler for
    ['sistema.reset'] and drops it. *)
Definition traduz (ev : Evento) : option SistemaPedidos.Evento :=
  match ev with
  | Connection sock => Some (SistemaPedidos.Connection sock)
  | SistemaIniciar sock agora => Some (SistemaPedidos.SistemaIniciar sock agora)
  | PedidoCriar sock agora dados =>
      Some (SistemaPedidos.PedidoCriar sock agora dados)
  | PedidoAceitar sock pedidoId => Some (SistemaPedidos.PedidoAceitar sock pedidoId)
  | PedidoFinalizar sock _ pedidoId =>
      Some (SistemaPedidos.PedidoFinalizar sock pedidoId)
  | PedidoCancelar sock _ pedidoId =>
      Some (SistemaPedidos.PedidoCancelar sock pedidoId)
  | PedidoEntregar sock _ pedidoId =>
      Some (SistemaPedidos.PedidoEntregar sock pedidoId)
  | SistemaReset _ _ => None
  | Timeout timer => Some (SistemaPedidos.Timeout timer)
  end.

(** The events on which the two servers can be compared: no reset, and
    orders created from two non-empty strings with no whitespace to
    trim. *)
Definition limpo (ev : Evento) : Prop :=
  match ev with
  | SistemaReset _ _ => False
  | PedidoCriar _ _ dados =>
      ∃ dc di, dados = DObj (CStr dc) (CStr di)
               ∧ dc ≠ [] ∧ di ≠ [] ∧ trim dc = dc ∧ trim di = di
  | _ => True
  end.

(** The states of the two servers agree: same flag, collection, counters
    and orders, and every timeout scheduled in [src/server.js] is scheduled
    in the variant. *)
Definition corresponde (s : Estado) (v : SistemaPedidos.Estado) : Prop :=
  sistemaAtivo s = SistemaPedidos.sistemaAtivo v
  ∧ pedidos s = SistemaPedidos.pedidos v
  ∧ proximoId s = SistemaPedidos.proximoId v
  ∧ projeta <$> objetos s = SistemaPedidos.objetos v
  ∧ proximoTimer s = SistemaPedidos.proximoTimer v
  ∧ (∀ h l, agendados s !! h = Some l → SistemaPedidos.agendados v !! h = Some l).

(** A run of clean events: orders are created, accepted and canceled, and a
    canceled order is canceled again. *)
Definition eventosLimpos : list Evento :=
  [SistemaIniciar sockA (js "10:00:00");
   PedidoCriar sockB (js "10:00:05") (DObj (CStr (js "Ana")) (CStr (js "Pizza")));
   PedidoCriar sockB (js "10:00:40") biaSuco;
   PedidoAceitar sockA 1;
   PedidoCancelar sockA (js "10:01:00") 2;
   PedidoCancelar sockA (js "10:01:10") 2;
   PedidoFinalizar sockA (js "10:03:00") 1].

(** ** Basic facts about the handlers *)

Lemma find_Some objs pedidoId ps l p :
  find objs pedidoId ps = Some (l, p) →
  l ∈ ps ∧ objs !! l = Some p ∧ id p = pedidoId.
Proof.
  induction ps as [|l0 r IH]; simpl; [done|].
  destruct (objs !! l0) as [p0|] eqn:E.
  - destruct (Z.eqb_spec (id p0) pedidoId) as [Hid|Hid].
    + intros [= <- <-]. split; [left | done].
    + intros H. destruct (IH H) as (? & ? & ?). split; [by right | done].
  - intros H. destruct (IH H) as (? & ? & ?). split; [by right | done].
Qed.

Lemma objetos_limparTimer pedidoId s :
  objetos (limparTimer pedidoId s) = objetos s.
Proof. unfold limparTimer. by destruct (timersExpiracao s !! pedidoId). Qed.

Lemma pedidos_limparTimer pedidoId s :
  pedidos (limparTimer pedidoId s) = pedidos s.
Proof. unfold limparTimer. by destruct (timersExpiracao s !! pedidoId). Qed.

Lemma proximoId_limparTimer pedidoId s :
  proximoId (limparTimer pedidoId s) = proximoId s.
Proof. unfold limparTimer. by destruct (timersExpiracao s !! pedidoId). Qed.

Lemma sistemaAtivo_limparTimer pedidoId s :
  sistemaAtivo (limparTimer pedidoId s) = sistemaAtivo s.
Proof. unfold limparTimer. by destruct (timersExpiracao s !! pedidoId). Qed.

Lemma proximoTimer_limparTimer pedidoId s :
  proximoTimer (limparTimer pedidoId s) = proximoTimer s.
Proof. unfold limparTimer. by destruct (timersExpiracao s !! pedidoId). Qed.

Create Rewrite HintDb registro.

#[local] Hint Rewrite objetos_limparTimer pedidos_limparTimer
  proximoId_limparTimer sistemaAtivo_limparTimer proximoTimer_limparTimer
  : registro.

(** Splits a handler on the outcome of its [find] and of the status test
    that follows. *)
Ltac abre_handler s pedidoId :=
  let E := fresh "Efind" in
  destruct (find (objetos s) pedidoId (pedidos s)) as [[? ?]|] eqn:E;
  [ apply find_Some in E as (? & ? & ?) | ];
  simpl; repeat case_bool_decide; simpl.

Lemma timeout_callback_mudanca timer novoPedido s :
  mudanca (Timeout timer) (objetos s) (objetos (estadoDe (timeout_callback novoPedido s))).
Proof.
  unfold timeout_callback.
  destruct (objetos s !! novoPedido) as [np|]; [|by apply mud_nada].
  abre_handler s (id np); try by apply mud_nada.
  eapply mud_altera; [eassumption| |reflexivity]. by split.
Qed.

(** Every event changes the heap in one of the three ways of [mudanca]. *)
Lemma passo_mudanca s ev r :
  passo s ev = Some r → mudanca ev (objetos s) (objetos (estadoDe r)).
Proof.
  destruct ev as [sock|sock agora|sock agora dados|sock pedidoId
                 |sock agora pedidoId|sock agora pedidoId|sock agora pedidoId
                 |sock agora|timer]; simpl.
  - intros [= <-]. by apply mud_nada.
  - intros [= <-]. by apply mud_nada.
  - intros [= <-]. unfold pedido_criar.
    destruct (sistemaAtivo s); simpl; [|by apply mud_nada].
    destruct dados as [|c i]; [by apply mud_nada|].
    destruct (truthy c), (truthy i); simpl; try by apply mud_nada.
    destruct c, i; simpl; try by apply mud_nada.
    eapply mud_novo; reflexivity.
  - intros [= <-]. unfold pedido_aceitar.
    abre_handler s pedidoId; autorewrite with registro; try by apply mud_nada.
    eapply mud_altera; [eassumption| |reflexivity]. by split.
  - intros [= <-]. unfold pedido_finalizar.
    abre_handler s pedidoId; try by apply mud_nada.
    eapply mud_altera; [eassumption| |reflexivity]. by split.
  - intros [= <-]. unfold pedido_cancelar.
    abre_handler s pedidoId; autorewrite with registro; try by apply mud_nada.
    eapply mud_altera; [eassumption| |reflexivity]. by split.
  - intros [= <-]. unfold pedido_entregar.
    abre_handler s pedidoId; try by apply mud_nada.
    eapply mud_altera; [eassumption| |reflexivity]. by split.
  - intros [= <-]. by apply mud_nada.
  - destruct (agendados s !! timer) as [novoPedido|]; [|done].
    intros [= <-]. apply (timeout_callback_mudanca timer novoPedido
      (com_timers (timersExpiracao s) (delete timer (agendados s)) s)).
Qed.

Lemma executa_alcancavel s evs s' out :
  alcancavel s → executa s evs = Some (s', out) → alcancavel s'.
Proof.
  revert s out. induction evs as [|ev evs IH]; simpl; intros s out Hs.
  - by intros [= <- _].
  - destruct (passo s ev) as [r|] eqn:Hp; [|done].
    destruct (executa (estadoDe r) evs) as [[s1 out1]|] eqn:He; [|done].
    intros [= <- _]. eapply IH; [|exact He]. by eapply alc_passo.
Qed.

Lemma alcancavel_estadoDepois evs : alcancavel (estadoDepois evs).
Proof.
  unfold estadoDepois.
  destruct (executa inicial evs) as [[s out]|] eqn:E; [|constructor].
  eapply executa_alcancavel; [constructor | exact E].
Qed.

Lemma altera_mesmosCampos ev p p' : altera ev p p' → mesmosCampos p p'.
Proof.
  destruct ev; simpl; try done; intros H; decompose [and] H; subst p';
    by repeat split.
Qed.

(** The status change an event makes to an object is the one of its action,
    and is a row of the table or the cancellation of an expired order. *)
Lemma altera_tabela ev p p' :
  altera ev p p' →
  ∃ a, acaoDe ev = Some a
       ∧ (tabela (status p) a (status p') = true
          ∨ (status p = Expirado ∧ a = Cancel ∧ status p' = Cancelado)).
Proof.
  destruct ev; simpl; try done; intros H; decompose [and] H; subst p'; simpl;
    eexists; (split; [reflexivity|]);
    destruct (status p); simpl in *; try done; auto.
Qed.

(** C1, as amended: every status change of every order object, at every
    event from every reachable state, is made by the action of that event
    and is either a row of the section-4 table or the cancellation of an
    expired order (expired to canceled, by cancel). *)
Theorem C1_status_transitions s ev r l p p' :
  alcancavel s →
  passo s ev = Some r →
  objetos s !! l = Some p →
  objetos (estadoDe r) !! l = Some p' →
  status p' = status p
  ∨ ∃ a, acaoDe ev = Some a
         ∧ (tabela (status p) a (status p') = true
            ∨ (status p = Expirado ∧ a = Cancel ∧ status p' = Cancelado)).
Proof.
  intros _ Hp Hl Hl'. destruct (passo_mudanca _ _ _ Hp) as [E|???? _ E|l0 p0 p0' H0 Ha E].
  - rewrite E, Hl in Hl'. injection Hl' as <-. by left.
  - rewrite E, lookup_app_l, Hl in Hl' by (by eapply lookup_lt_Some).
    injection Hl' as <-. by left.
  - rewrite E in Hl'. destruct (decide (l0 = l)) as [->|Hne].
    + rewrite list_lookup_insert_eq in Hl' by (by eapply lookup_lt_Some).
      injection Hl' as <-. rewrite Hl in H0. injection H0 as <-.
      right. by eapply altera_tabela.
    + rewrite list_lookup_insert_ne, Hl in Hl' by done.
      injection Hl' as <-. by left.
Qed.

Lemma C1_status_transitions_witness :
  status (pedidoAna Cancelado (Some (js "10:01:00")))
    = status (pedidoAna Expirado None)
  ∨ ∃ a, acaoDe cancelar1 = Some a
         ∧ (tabela (status (pedidoAna Expirado None)) a
                   (status (pedidoAna Cancelado (Some (js "10:01:00")))) = true
            ∨ (status (pedidoAna Expirado None) = Expirado ∧ a = Cancel
               ∧ status (pedidoAna Cancelado (Some (js "10:01:00"))) = Cancelado)).
Proof.
  apply (C1_status_transitions estadoExpirado cancelar1
           (resultadoDe estadoExpirado cancelar1) 0%nat).
  - apply alcancavel_estadoDepois.
  - vm_compute; reflexivity.
  - vm_compute; reflexivity.
  - vm_compute; reflexivity.
Defined.

(** C1 as stated fails: after start, create and the timeout firing, order 1
    is expired, and ['pedido.cancelar'] moves it to canceled, which is no
    row of the table. *)
Lemma C1_counterexample :
  executa inicial eventosExpirado = Some (estadoExpirado,
    [IoEmit (SistemaIniciado (js "10:00:00"));
     IoEmit (PedidoCriado 0 (pedidoAna Pendente None));
     IoEmit (PedidoExpirado 0 (pedidoAna Expirado None))])
  ∧ objetos estadoExpirado !! 0%nat = Some (pedidoAna Expirado None)
  ∧ (∃ s', passo estadoExpirado cancelar1
           = Some (Retorna s' [IoEmit (PedidoCancelado 0
                     (pedidoAna Cancelado (Some (js "10:01:00"))))])
         ∧ objetos s' !! 0%nat = Some (pedidoAna Cancelado (Some (js "10:01:00"))))
  ∧ ¬ (status (pedidoAna Cancelado (Some (js "10:01:00")))
         = status (pedidoAna Expirado None)
       ∨ ∃ a, tabela (status (pedidoAna Expirado None)) a
                     (status (pedidoAna Cancelado (Some (js "10:01:00")))) = true).
Proof.
  split; [vm_compute; reflexivity|].
  split; [vm_compute; reflexivity|].
  split.
  - eexists. split; vm_compute; reflexivity.
  - intros [H|[a H]]; [discriminate H|]. destruct a; discriminate H.
Qed.

(** ** Frame: what an event leaves alone *)

(** An object, once allocated, stays in the heap, and an event either
    leaves it as it is or changes it as [altera] says. *)
Lemma passo_objeto s ev r l p :
  passo s ev = Some r →
  objetos s !! l = Some p →
  ∃ p', objetos (estadoDe r) !! l = Some p' ∧ (p' = p ∨ altera ev p p').
Proof.
  intros Hp Hl.
  destruct (passo_mudanca _ _ _ Hp) as [E|???? _ E|l0 p0 p0' H0 Ha E]; rewrite E.
  - exists p. auto.
  - exists p. split; [|by left].
    rewrite lookup_app_l; [done | by eapply lookup_lt_Some].
  - destruct (decide (l0 = l)) as [->|Hne].
    + exists p0'. rewrite Hl in H0. injection H0 as <-. split; [|by right].
      apply list_lookup_insert_eq. by eapply lookup_lt_Some.
    + exists p. split; [|by left]. by rewrite list_lookup_insert_ne.
Qed.

Lemma timeout_callback_mesmasVariaveis novoPedido s :
  mesmasVariaveis s (estadoDe (timeout_callback novoPedido s)).
Proof.
  unfold timeout_callback, mesmasVariaveis.
  destruct (objetos s !! novoPedido) as [np|]; [|done].
  abre_handler s (id np); rewrite ?length_insert; done.
Qed.

(** Accept, finalize, cancel, deliver and the timeout callback write to no
    variable of the server but the timer map, and allocate nothing. *)
Lemma passo_mesmasVariaveis s ev r :
  passo s ev = Some r → is_Some (acaoDe ev) → mesmasVariaveis s (estadoDe r).
Proof.
  destruct ev as [sock|sock agora|sock agora dados|sock pedidoId
                 |sock agora pedidoId|sock agora pedidoId|sock agora pedidoId
                 |sock agora|timer]; simpl; intros Hp [a Ha]; try discriminate Ha;
    unfold mesmasVariaveis.
  - injection Hp as <-. unfold pedido_aceitar.
    abre_handler s pedidoId; autorewrite with registro; simpl;
      rewrite ?length_insert; done.
  - injection Hp as <-. unfold pedido_finalizar.
    abre_handler s pedidoId; rewrite ?length_insert; done.
  - injection Hp as <-. unfold pedido_cancelar.
    abre_handler s pedidoId; autorewrite with registro; simpl;
      rewrite ?length_insert; done.
  - injection Hp as <-. unfold pedido_entregar.
    abre_handler s pedidoId; rewrite ?length_insert; done.
  - destruct (agendados s !! timer) as [novoPedido|]; [|done].
    injection Hp as <-.
    apply (timeout_callback_mesmasVariaveis novoPedido
      (com_timers (timersExpiracao s) (delete timer (agendados s)) s)).
Qed.

(** C10: whatever the event and the state, an order object that exists
    keeps its id, cliente, itens, criadoEm and socketId.  The event leaves
    the object as it is, or (accept, finalize, cancel, deliver, timeout
    only) rewrites its status and, for finalize, cancel and deliver, the
    one timestamp of that transition; and those five events change no
    variable of the server other than the timer bookkeeping. *)
Theorem C10_fields_set_once s ev r l p :
  passo s ev = Some r →
  objetos s !! l = Some p →
  ∃ p', objetos (estadoDe r) !! l = Some p'
        ∧ mesmosCampos p p'
        ∧ (p' = p ∨ altera ev p p')
        ∧ (is_Some (acaoDe ev) → mesmasVariaveis s (estadoDe r)).
Proof.
  intros Hp Hl. destruct (passo_objeto _ _ _ _ _ Hp Hl) as (p' & Hl' & Hch).
  exists p'. split; [done|]. split; [|split; [done|]].
  - destruct Hch as [->|Ha]; [by repeat split | by eapply altera_mesmosCampos].
  - by apply passo_mesmasVariaveis.
Qed.

Lemma C10_fields_set_once_witness :
  ∃ p', objetos (estadoDe (resultadoDe estadoExpirado cancelar1)) !! 0%nat = Some p'
        ∧ mesmosCampos (pedidoAna Expirado None) p'
        ∧ (p' = pedidoAna Expirado None
           ∨ altera cancelar1 (pedidoAna Expirado None) p')
        ∧ (is_Some (acaoDe cancelar1) →
           mesmasVariaveis estadoExpirado
             (estadoDe (resultadoDe estadoExpirado cancelar1))).
Proof.
  apply (C10_fields_set_once estadoExpirado cancelar1
           (resultadoDe estadoExpirado cancelar1) 0%nat (pedidoAna Expirado None)).
  - vm_compute; reflexivity.
  - vm_compute; reflexivity.
Defined.

(** ** Single handlers *)

(** C2, as amended: on an order whose status is expired, accept, finalize
    and deliver fail with InvalidTransition, emit the error to the caller
    only and leave the whole state as it was (the status stays expired);
    cancel does not fail: it sets the status to canceled, records
    canceladoEm, clears the timer entry and broadcasts the canceled order. *)
Theorem C2_actions_on_expired s pedidoId l p sock agora :
  find (objetos s) pedidoId (pedidos s) = Some (l, p) →
  status p = Expirado →
  passo s (PedidoAceitar sock pedidoId)
    = Some (Retorna s [SocketEmit sock (ErroOperacao ApenasPendentes)])
  ∧ passo s (PedidoFinalizar sock agora pedidoId)
    = Some (Retorna s [SocketEmit sock (ErroOperacao ApenasEmPreparo)])
  ∧ passo s (PedidoEntregar sock agora pedidoId)
    = Some (Retorna s [SocketEmit sock (ErroOperacao ApenasProntos)])
  ∧ classe ApenasPendentes = InvalidTransition
  ∧ classe ApenasEmPreparo = InvalidTransition
  ∧ classe ApenasProntos = InvalidTransition
  ∧ passo s (PedidoCancelar sock agora pedidoId)
    = Some (Retorna
              (limparTimer pedidoId
                 (com_objetos
                    (<[l := com_canceladoEm agora (com_status Cancelado p)]>
                       (objetos s)) s))
              [IoEmit (PedidoCancelado l
                         (com_canceladoEm agora (com_status Cancelado p)))]).
Proof.
  intros Hf Hst. simpl.
  unfold pedido_aceitar, pedido_finalizar, pedido_entregar, pedido_cancelar.
  rewrite Hf, Hst. simpl. by repeat split.
Qed.

Lemma C2_actions_on_expired_witness :
  passo estadoExpirado (PedidoAceitar sockA 1)
    = Some (Retorna estadoExpirado [SocketEmit sockA (ErroOperacao ApenasPendentes)])
  ∧ passo estadoExpirado (PedidoFinalizar sockA (js "10:01:00") 1)
    = Some (Retorna estadoExpirado [SocketEmit sockA (ErroOperacao ApenasEmPreparo)])
  ∧ passo estadoExpirado (PedidoEntregar sockA (js "10:01:00") 1)
    = Some (Retorna estadoExpirado [SocketEmit sockA (ErroOperacao ApenasProntos)])
  ∧ classe ApenasPendentes = InvalidTransition
  ∧ classe ApenasEmPreparo = InvalidTransition
  ∧ classe ApenasProntos = InvalidTransition
  ∧ passo estadoExpirado (PedidoCancelar sockA (js "10:01:00") 1)
    = Some (Retorna
              (limparTimer 1
                 (com_objetos
                    (<[0%nat := com_canceladoEm (js "10:01:00")
                                  (com_status Cancelado (pedidoAna Expirado None))]>
                       (objetos estadoExpirado)) estadoExpirado))
              [IoEmit (PedidoCancelado 0
                         (com_canceladoEm (js "10:01:00")
                            (com_status Cancelado (pedidoAna Expirado None))))]).
Proof.
  apply (C2_actions_on_expired estadoExpirado 1 0%nat
           (pedidoAna Expirado None) sockA (js "10:01:00")).
  - vm_compute; reflexivity.
  - reflexivity.
Defined.

(** C2 as stated fails for cancel: order 1 is expired, and
    ['pedido.cancelar'] does not answer with an error to the caller but
    broadcasts the order, now canceled. *)
Lemma C2_counterexample :
  find (objetos estadoExpirado) 1 (pedidos estadoExpirado)
    = Some (0%nat, pedidoAna Expirado None)
  ∧ status (pedidoAna Expirado None) = Expirado
  ∧ (∃ s', passo estadoExpirado cancelar1
           = Some (Retorna s' [IoEmit (PedidoCancelado 0
                     (pedidoAna Cancelado (Some (js "10:01:00"))))])
         ∧ (status <$> objetos s' !! 0%nat) = Some Cancelado)
  ∧ ¬ ∃ m, classe m = InvalidTransition
           ∧ passo estadoExpirado cancelar1
             = Some (Retorna estadoExpirado [SocketEmit sockA (ErroOperacao m)]).
Proof.
  split; [vm_compute; reflexivity|].
  split; [reflexivity|].
  split.
  - eexists. split; vm_compute; reflexivity.
  - intros (m & _ & H). vm_compute in H. discriminate H.
Qed.

Lemma trim_nao_vazio (s : JsString) : trim s ≠ [] → s ≠ [].
Proof. intros H ->. by apply H. Qed.

(** C3, as amended: with the system active, when cliente or itens is
    absent or empty before any trimming (undefined, null, the empty string
    or another falsy value), ['pedido.criar'] fails with InvalidInput,
    emits the error to the caller only and leaves the whole state as it
    was; when both are strings that are non-empty after trimming, it
    creates a pending order that stores the trimmed cliente and itens. *)
Theorem C3_create_validation s sock agora c i :
  sistemaAtivo s = true →
  (truthy c = false ∨ truthy i = false →
   passo s (PedidoCriar sock agora (DObj c i))
     = Some (Retorna s [SocketEmit sock (ErroOperacao DadosInvalidos)])
   ∧ classe DadosInvalidos = InvalidInput)
  ∧ (∀ dc di, c = CStr dc → i = CStr di → trim dc ≠ [] → trim di ≠ [] →
     ∃ s' np,
       passo s (PedidoCriar sock agora (DObj c i))
         = Some (Retorna s' [IoEmit (PedidoCriado (length (objetos s)) np)])
       ∧ objetos s' = objetos s ++ [np]
       ∧ pedidos s' = pedidos s ++ [length (objetos s)]
       ∧ cliente np = trim dc ∧ itens np = trim di
       ∧ status np = Pendente ∧ id np = proximoId s).
Proof.
  intros Hat. split.
  - intros Hf. split; [|done]. simpl. unfold pedido_criar. rewrite Hat. simpl.
    destruct Hf as [-> | ->]; [done|]. by rewrite orb_true_r.
  - intros dc di -> -> Hc Hi. apply trim_nao_vazio in Hc, Hi.
    eexists _, _. simpl. unfold pedido_criar. rewrite Hat. simpl.
    rewrite !bool_decide_eq_false_2 by done. simpl.
    split; [reflexivity|]. by repeat split.
Qed.

Lemma C3_create_validation_witness :
  (passo estadoAtivo (PedidoCriar sockB (js "10:00:05")
                        (DObj (CStr (js "")) (CStr (js "Pizza"))))
     = Some (Retorna estadoAtivo [SocketEmit sockB (ErroOperacao DadosInvalidos)])
   ∧ classe DadosInvalidos = InvalidInput)
  ∧ (∃ s' np,
       passo estadoAtivo (PedidoCriar sockB (js "10:00:05") anaPizza)
         = Some (Retorna s' [IoEmit (PedidoCriado (length (objetos estadoAtivo)) np)])
       ∧ objetos s' = objetos estadoAtivo ++ [np]
       ∧ pedidos s' = pedidos estadoAtivo ++ [length (objetos estadoAtivo)]
       ∧ cliente np = trim (js "  Ana ") ∧ itens np = trim (js "Pizza")
       ∧ status np = Pendente ∧ id np = proximoId estadoAtivo).
Proof.
  split.
  - apply (proj1 (C3_create_validation estadoAtivo sockB (js "10:00:05")
                    (CStr (js "")) (CStr (js "Pizza")) eq_refl)).
    left. reflexivity.
  - apply (proj2 (C3_create_validation estadoAtivo sockB (js "10:00:05")
                    (CStr (js "  Ana ")) (CStr (js "Pizza")) eq_refl)
             (js "  Ana ") (js "Pizza") eq_refl eq_refl);
      vm_compute; discriminate.
Defined.

(** C3 as stated fails on a whitespace-only cliente: three spaces are empty
    after trimming, yet the order is created, with the empty string as its
    cliente, the counter is incremented and the order is broadcast. *)
Lemma C3_counterexample :
  sistemaAtivo estadoAtivo = true
  ∧ trim (js "   ") = []
  ∧ (∃ s', passo estadoAtivo (PedidoCriar sockB (js "10:00:05") soEspacos)
           = Some (Retorna s'
                     [IoEmit (PedidoCriado 0
                        {| id := 1; cliente := []; itens := js "Pizza";
                           status := Pendente; criadoEm := js "10:00:05";
                           socketId := sockB; prontoEm := None;
                           canceladoEm := None; entregueEm := None |})])
         ∧ pedidos s' = [0%nat] ∧ proximoId s' = 2%Z)
  ∧ passo estadoAtivo (PedidoCriar sockB (js "10:00:05") soEspacos)
    ≠ Some (Retorna estadoAtivo [SocketEmit sockB (ErroOperacao DadosInvalidos)]).
Proof.
  split; [vm_compute; reflexivity|].
  split; [vm_compute; reflexivity|].
  split.
  - eexists. repeat split; vm_compute; reflexivity.
  - intros H. vm_compute in H. discriminate H.
Qed.

(** With the system active and no payload at all ([dados] undefined or
    null), reading [dados.cliente] throws: nothing is emitted and the state is
    the one before the event. *)
Lemma pedido_criar_sem_payload s sock agora :
  sistemaAtivo s = true →
  passo s (PedidoCriar sock agora DNulo) = Some (Lanca s []).
Proof. intros Hat. simpl. unfold pedido_criar. by rewrite Hat. Qed.

(** C6: while the flag is false, ['pedido.criar'] fails with SystemInactive
    whatever its payload: the error goes to the caller only and the state is
    returned as it was, so no order is appended, [proximoId] is unchanged,
    no timeout is scheduled and nothing is broadcast. *)
Theorem C6_create_while_inactive s sock agora dados :
  sistemaAtivo s = false →
  ∃ r, passo s (PedidoCriar sock agora dados) = Some r
       ∧ r = Retorna s [SocketEmit sock (ErroOperacao SistemaNaoAtivo)]
       ∧ classe SistemaNaoAtivo = SystemInactive
       ∧ pedidos (estadoDe r) = pedidos s
       ∧ objetos (estadoDe r) = objetos s
       ∧ proximoId (estadoDe r) = proximoId s
       ∧ agendados (estadoDe r) = agendados s
       ∧ timersExpiracao (estadoDe r) = timersExpiracao s
       ∧ (∀ e, IoEmit e ∉ saidasDe r).
Proof.
  intros Hat. eexists. simpl. unfold pedido_criar. rewrite Hat. simpl.
  split; [reflexivity|]. repeat split.
  intros e He. apply list_elem_of_singleton in He. discriminate He.
Qed.

Lemma C6_create_while_inactive_witness :
  ∃ r, passo inicial (PedidoCriar sockB (js "10:00:05") anaPizza) = Some r
       ∧ r = Retorna inicial [SocketEmit sockB (ErroOperacao SistemaNaoAtivo)]
       ∧ classe SistemaNaoAtivo = SystemInactive
       ∧ pedidos (estadoDe r) = pedidos inicial
       ∧ objetos (estadoDe r) = objetos inicial
       ∧ proximoId (estadoDe r) = proximoId inicial
       ∧ agendados (estadoDe r) = agendados inicial
       ∧ timersExpiracao (estadoDe r) = timersExpiracao inicial
       ∧ (∀ e, IoEmit e ∉ saidasDe r).
Proof.
  apply (C6_create_while_inactive inicial sockB (js "10:00:05") anaPizza).
  reflexivity.
Defined.

(** [forEach(clearTimeout)] over the map unschedules exactly the timeouts
    the map stores. *)
Lemma forEach_clearTimeout (m : gmap Z handle) (a : gmap handle loc) h l :
  map_fold (λ _ timer a, delete timer a) a m !! h = Some l
  ↔ a !! h = Some l ∧ ∀ k, m !! k ≠ Some h.
Proof.
  revert h l.
  apply (map_fold_weak_ind
    (λ (a' : gmap handle loc) (m : gmap Z handle),
       ∀ h l, a' !! h = Some l ↔ a !! h = Some l ∧ ∀ k, m !! k ≠ Some h)).
  - intros h l. split; [|by intros [? _]].
    intros H. split; [done|]. intros k. by rewrite lookup_empty.
  - intros k t m0 a' Hk IH h l. rewrite lookup_delete_Some, IH. split.
    + intros (Hne & Ha & Hm). split; [done|]. intros k0.
      rewrite lookup_insert_Some. intros [[_ ->]|[_ Hk0]]; [done|]. by eapply Hm.
    + intros (Ha & Hm). split; [|split; [done|]].
      * intros ->. by apply (Hm k), lookup_insert_eq.
      * intros k0 Hk0. apply (Hm k0). rewrite lookup_insert_ne; [done|].
        intros <-. congruence.
Qed.

Lemma limparTimer_com_sistemaAtivo b pedidoId o s :
  limparTimer pedidoId (com_objetos o (com_sistemaAtivo b s))
  = com_sistemaAtivo b (limparTimer pedidoId (com_objetos o s)).
Proof.
  unfold limparTimer. simpl. by destruct (timersExpiracao s !! pedidoId).
Qed.

(** The five handlers never read [sistemaAtivo]: run with the flag set to
    [b], they do the same, and hand the flag on. *)
Lemma semPortao_comAtivo b s ev r :
  semPortao ev = true →
  passo s ev = Some r →
  passo (com_sistemaAtivo b s) ev = Some (comAtivo b r).
Proof.
  destruct ev as [sock|sock agora|sock agora dados|sock pedidoId
                 |sock agora pedidoId|sock agora pedidoId|sock agora pedidoId
                 |sock agora|timer]; simpl; intros Hev Hp; try discriminate Hev;
    injection Hp as <-; f_equal.
  - unfold pedido_aceitar. simpl.
    destruct (find (objetos s) pedidoId (pedidos s)) as [[l p]|]; [|done].
    destruct (negb _); simpl; [done|]. by rewrite limparTimer_com_sistemaAtivo.
  - unfold pedido_finalizar. simpl.
    destruct (find (objetos s) pedidoId (pedidos s)) as [[l p]|]; [|done].
    by destruct (negb _).
  - unfold pedido_cancelar. simpl.
    destruct (find (objetos s) pedidoId (pedidos s)) as [[l p]|]; [|done].
    destruct (_ || _); simpl; [done|]. by rewrite limparTimer_com_sistemaAtivo.
  - unfold pedido_entregar. simpl.
    destruct (find (objetos s) pedidoId (pedidos s)) as [[l p]|]; [|done].
    by destruct (negb _).
Qed.

(** [limparTimer] on the state an action has just written an order to. *)
Lemma limparTimer_feito pedidoId o s :
  limparTimer pedidoId (com_objetos o s)
  = {| sistemaAtivo := sistemaAtivo s; pedidos := pedidos s;
       proximoId := proximoId s;
       timersExpiracao := delete pedidoId (timersExpiracao s);
       objetos := o;
       agendados := match timersExpiracao s !! pedidoId with
                    | Some h => delete h (agendados s)
                    | None => agendados s
                    end;
       proximoTimer := proximoTimer s |}.
Proof.
  unfold limparTimer. simpl.
  destruct (timersExpiracao s !! pedidoId) as [h|] eqn:Hk; [done|].
  unfold com_objetos. simpl. by rewrite delete_id.
Qed.

(** With their own preconditions met, the five handlers do what section
    4.1 says they do. *)
Lemma semPortao_sucesso s ev r :
  semPortao ev = true →
  passo s ev = Some r →
  precondicao_spec s ev = true →
  sucesso s ev r.
Proof.
  destruct ev as [sock|sock agora|sock agora dados|sock pedidoId
                 |sock agora pedidoId|sock agora pedidoId|sock agora pedidoId
                 |sock agora|timer]; simpl; intros Hev Hp Hpre;
    try discriminate Hev; injection Hp as <-.
  - unfold pedido_aceitar, acaoFeita. apply bool_decide_eq_true_1 in Hpre.
    destruct (find (objetos s) pedidoId (pedidos s)) as [[l p]|];
      simpl in Hpre; [injection Hpre as Hst | discriminate Hpre].
    exists l, p, (com_status Preparando p). split; [done|]. split; [done|].
    rewrite Hst, limparTimer_feito. simpl.
    by destruct (timersExpiracao s !! pedidoId).
  - unfold pedido_finalizar, acaoFeita. apply bool_decide_eq_true_1 in Hpre.
    destruct (find (objetos s) pedidoId (pedidos s)) as [[l p]|];
      simpl in Hpre; [injection Hpre as Hst | discriminate Hpre].
    exists l, p, (com_prontoEm agora (com_status Pronto p)).
    split; [done|]. split; [done|].
    rewrite Hst. simpl. by destruct (timersExpiracao s !! pedidoId).
  - unfold pedido_cancelar, acaoFeita. apply bool_decide_eq_true_1 in Hpre.
    destruct Hpre as (H0 & H1 & H2).
    destruct (find (objetos s) pedidoId (pedidos s)) as [[l p]|];
      simpl in *; [|by destruct H0].
    exists l, p, (com_canceladoEm agora (com_status Cancelado p)).
    split; [done|]. split; [repeat split; congruence|].
    rewrite !bool_decide_eq_false_2 by congruence.
    rewrite limparTimer_feito. simpl.
    by destruct (timersExpiracao s !! pedidoId).
  - unfold pedido_entregar, acaoFeita. apply bool_decide_eq_true_1 in Hpre.
    destruct (find (objetos s) pedidoId (pedidos s)) as [[l p]|];
      simpl in Hpre; [injection Hpre as Hst | discriminate Hpre].
    exists l, p, (com_entregueEm agora (com_status Entregue p)).
    split; [done|]. split; [done|].
    rewrite Hst. simpl. by destruct (timersExpiracao s !! pedidoId).
  - unfold sistema_reset, resetFeito. eexists. split; [reflexivity|].
    simpl. do 6 (split; [done|]). intros h l. apply forEach_clearTimeout.
Qed.

(** A success is one broadcast, of an event that is not an error. *)
Lemma sucesso_broadcast s ev r :
  sucesso s ev r → ∃ s' e, r = Retorna s' [IoEmit e] ∧ ∀ m, e ≠ ErroOperacao m.
Proof.
  destruct ev; simpl; try done.
  1-4: by intros (l & p & p' & _ & _ & ->); eexists _, _.
  by intros (s' & -> & _); eexists _, _.
Qed.

(** None of the five handlers emits the SystemInactive error. *)
Lemma semPortao_sem_SystemInactive s ev r o m :
  semPortao ev = true →
  passo s ev = Some r →
  o ∈ saidasDe r → emissaoDe o = ErroOperacao m → classe m ≠ SystemInactive.
Proof.
  destruct ev as [sock|sock agora|sock agora dados|sock pedidoId
                 |sock agora pedidoId|sock agora pedidoId|sock agora pedidoId
                 |sock agora|timer]; simpl; intros Hev Hp;
    try discriminate Hev; injection Hp as <-.
  - unfold pedido_aceitar. abre_handler s pedidoId;
      intros ->%list_elem_of_singleton [= <-]; done.
  - unfold pedido_finalizar. abre_handler s pedidoId;
      intros ->%list_elem_of_singleton [= <-]; done.
  - unfold pedido_cancelar. abre_handler s pedidoId;
      intros ->%list_elem_of_singleton [= <-]; done.
  - unfold pedido_entregar. abre_handler s pedidoId;
      intros ->%list_elem_of_singleton [= <-]; done.
  - simpl. intros ->%list_elem_of_singleton [= <-].
Qed.

(** C8: accept, finalize, cancel, deliver and reset do not look at the
    flag.  In any state, none of them emits the SystemInactive error; each
    does with the flag set either way exactly what it does otherwise; and
    when its own precondition holds it succeeds, also with the flag false:
    the order found under the id is rewritten as the action says (status,
    and the timestamp of the action), that order is broadcast under the
    action's name, accept and cancel delete the order's entry of the timer
    map and unschedule its timeout, and nothing else changes; a reset
    empties the collection and the timer map, unschedules the timeouts the
    map stored, puts the counter back to 1 and broadcasts
    ['sistema.resetado'].  Either way there is one broadcast and no
    error. *)
Theorem C8_only_create_checks_flag s ev r :
  semPortao ev = true →
  passo s ev = Some r →
  (∀ o m, o ∈ saidasDe r → emissaoDe o = ErroOperacao m →
          classe m ≠ SystemInactive)
  ∧ (∀ b, passo (com_sistemaAtivo b s) ev = Some (comAtivo b r))
  ∧ (precondicao_spec s ev = true →
     sucesso s ev r
     ∧ ∃ s' e, r = Retorna s' [IoEmit e] ∧ ∀ m, e ≠ ErroOperacao m).
Proof.
  intros Hev Hp. split; [|split].
  - intros o m. by eapply semPortao_sem_SystemInactive.
  - intros b. by apply semPortao_comAtivo.
  - intros Hpre. pose proof (semPortao_sucesso s ev r Hev Hp Hpre) as Hs.
    split; [exact Hs|]. by eapply sucesso_broadcast.
Qed.

Lemma C8_only_create_checks_flag_witness :
  sistemaAtivo estadoPendenteInativo = false
  ∧ (∀ o m, o ∈ saidasDe (resultadoDe estadoPendenteInativo (PedidoAceitar sockA 1)) →
            emissaoDe o = ErroOperacao m → classe m ≠ SystemInactive)
  ∧ (∀ b, passo (com_sistemaAtivo b estadoPendenteInativo) (PedidoAceitar sockA 1)
          = Some (comAtivo b (resultadoDe estadoPendenteInativo (PedidoAceitar sockA 1))))
  ∧ sucesso estadoPendenteInativo (PedidoAceitar sockA 1)
            (resultadoDe estadoPendenteInativo (PedidoAceitar sockA 1))
  ∧ ∃ s' e, resultadoDe estadoPendenteInativo (PedidoAceitar sockA 1)
            = Retorna s' [IoEmit e] ∧ ∀ m, e ≠ ErroOperacao m.
Proof.
  split; [reflexivity|].
  destruct (C8_only_create_checks_flag estadoPendenteInativo (PedidoAceitar sockA 1)
              (resultadoDe estadoPendenteInativo (PedidoAceitar sockA 1)))
    as (H1 & H2 & H3).
  - reflexivity.
  - vm_compute; reflexivity.
  - split; [exact H1|]. split; [exact H2|].
    apply H3. vm_compute; reflexivity.
Defined.

(** ** The invariants hold in every reachable state *)

Section heap_update.
Context (objs : list Pedido) (l : loc) (p p' : Pedido).
Hypothesis Hl : objs !! l = Some p.
Hypothesis Hid : id p' = id p.

Lemma insert_is_Some l0 :
  is_Some (<[l := p']> objs !! l0) ↔ is_Some (objs !! l0).
Proof. by rewrite !lookup_lt_is_Some, length_insert. Qed.

Lemma insert_lookup_id l0 q' :
  <[l := p']> objs !! l0 = Some q' →
  ∃ q, objs !! l0 = Some q ∧ id q' = id q.
Proof.
  destruct (decide (l0 = l)) as [E|Hne].
  - rewrite E.
    rewrite list_lookup_insert_eq by (by eapply lookup_lt_Some).
    intros [= <-]. eauto.
  - rewrite list_lookup_insert_ne by done. eauto.
Qed.

Lemma lookup_insert_id l0 q :
  objs !! l0 = Some q →
  ∃ q', <[l := p']> objs !! l0 = Some q' ∧ id q' = id q.
Proof.
  intros Hq. destruct (decide (l0 = l)) as [E|Hne].
  - rewrite E in Hq |- *.
    rewrite list_lookup_insert_eq by (by eapply lookup_lt_Some).
    rewrite Hl in Hq. injection Hq as <-. eauto.
  - rewrite list_lookup_insert_ne by done. eauto.
Qed.

(** Rewriting an object without touching its id leaves the ids of a list
    of references as they were. *)
Lemma ids_insert (ps : list loc) :
  id <$> omap (λ l0, <[l := p']> objs !! l0) ps
  = id <$> omap (λ l0, objs !! l0) ps.
Proof.
  induction ps as [|l0 ps IH]; csimpl; [done|].
  destruct (objs !! l0) as [q|] eqn:Hq.
  - destruct (lookup_insert_id l0 q Hq) as (q' & -> & Hq'). csimpl.
    by rewrite IH, Hq'.
  - assert (<[l := p']> objs !! l0 = None) as ->; [|done].
    apply eq_None_not_Some. rewrite insert_is_Some. by rewrite Hq; intros [??].
Qed.

Lemma find_insert_None pedidoId ps :
  find objs pedidoId ps = None → find (<[l := p']> objs) pedidoId ps = None.
Proof.
  induction ps as [|l0 ps IH]; simpl; [done|].
  destruct (objs !! l0) as [q|] eqn:Hq.
  - destruct (lookup_insert_id l0 q Hq) as (q' & -> & ->).
    destruct (id q =? pedidoId)%Z; [done | exact IH].
  - assert (<[l := p']> objs !! l0 = None) as ->; [|exact IH].
    apply eq_None_not_Some. rewrite insert_is_Some. by rewrite Hq; intros [??].
Qed.
End heap_update.

Lemma invIds_insert s l p p' :
  objetos s !! l = Some p → id p' = id p →
  invIds s → invIds (com_objetos (<[l := p']> (objetos s)) s).
Proof.
  intros Hl Hid (H1 & H2 & H3 & H4). unfold invIds, pedidosDe in *. simpl.
  split; [done|]. split; [|split].
  - eapply Forall_impl; [exact H2|]. intros l0. by rewrite (insert_is_Some _ l p').
  - by rewrite (ids_insert _ _ _ _ Hl Hid).
  - apply Forall_forall. intros q' (l0 & Hl0 & Hq')%list_elem_of_omap.
    destruct (insert_lookup_id _ _ _ _ Hl Hid _ _ Hq') as (q & Hq & ->).
    rewrite Forall_forall in H4. apply H4, list_elem_of_omap. eauto.
Qed.

Lemma invTimers_insert s l p p' :
  objetos s !! l = Some p → id p' = id p →
  invTimers s → invTimers (com_objetos (<[l := p']> (objetos s)) s).
Proof.
  intros Hl Hid (H1 & H2). split; simpl; [done|].
  intros h l0 Hh. destruct (H2 _ _ Hh) as (q & Hq & Ht).
  destruct (lookup_insert_id _ _ _ _ Hl Hid _ _ Hq) as (q' & Hq' & Hidq).
  exists q'. by rewrite Hidq.
Qed.

Lemma invIds_limparTimer pedidoId s : invIds s → invIds (limparTimer pedidoId s).
Proof.
  unfold invIds, pedidosDe. by autorewrite with registro.
Qed.

Lemma invTimers_limparTimer pedidoId s :
  invTimers s → invTimers (limparTimer pedidoId s).
Proof.
  intros (H1 & H2). unfold limparTimer.
  destruct (timersExpiracao s !! pedidoId) as [h|] eqn:Hk; [|done].
  split; simpl.
  - intros k h0 [_ Hk0]%lookup_delete_Some. by eapply H1.
  - intros h0 l0 [Hne Hh0]%lookup_delete_Some.
    destruct (H2 _ _ Hh0) as (q & Hq & Ht). exists q. split; [done|].
    rewrite lookup_delete_ne; [done|]. intros E. rewrite E in Hk. congruence.
Qed.

Lemma pedidosDe_snoc (objs : list Pedido) (ps : list loc) np :
  Forall (λ l, is_Some (objs !! l)) ps →
  omap (λ l, (objs ++ [np]) !! l) (ps ++ [length objs])
  = omap (λ l, objs !! l) ps ++ [np].
Proof.
  intros Hps. rewrite omap_app. f_equal.
  - induction Hps as [|l ps [q Hq] _ IH]; csimpl; [done|].
    by rewrite (lookup_app_l_Some _ _ _ _ Hq), Hq, IH.
  - csimpl. by rewrite list_lookup_middle.
Qed.

(** The state left by a handler that only bumped the counter. *)
Lemma inv_com_proximoId s :
  inv s → inv (com_proximoId (proximoId s + 1) s).
Proof.
  intros [(H1 & H2 & H3 & H4) (H5 & H6)]. repeat split; simpl; try done.
  - lia.
  - eapply Forall_impl; [exact H4|]. simpl. lia.
  - intros k h Hk. specialize (H5 _ _ Hk). lia.
Qed.

(** The state left by a successful ['pedido.criar']. *)
Lemma inv_novoPedido s np :
  inv s → id np = proximoId s →
  inv {| sistemaAtivo := sistemaAtivo s;
         pedidos := pedidos s ++ [length (objetos s)];
         proximoId := proximoId s + 1;
         timersExpiracao := <[proximoId s := proximoTimer s]> (timersExpiracao s);
         objetos := objetos s ++ [np];
         agendados := <[proximoTimer s := length (objetos s)]> (agendados s);
         proximoTimer := S (proximoTimer s) |}.
Proof.
  intros [(H1 & H2 & H3 & H4) (H5 & H6)] Hid.
  split; [split; [|split; [|split]] | split]; unfold pedidosDe in *; simpl.
  - lia.
  - apply Forall_app. split.
    + eapply Forall_impl; [exact H2|]. intros l [q Hq].
      exists q. by apply lookup_app_l_Some.
    + apply Forall_singleton. exists np. by apply list_lookup_middle.
  - rewrite pedidosDe_snoc, fmap_app by done. apply StronglySorted_app_2.
    + intros x1 x2 (q & -> & Hq)%list_elem_of_fmap ->%list_elem_of_singleton.
      rewrite Forall_forall in H4. specialize (H4 _ Hq). lia.
    + done.
    + repeat constructor.
  - rewrite pedidosDe_snoc by done. apply Forall_app. split.
    + eapply Forall_impl; [exact H4|]. simpl. lia.
    + apply Forall_singleton. lia.
  - intros k h [[<- _]|[_ Hk]]%lookup_insert_Some; [lia|].
    specialize (H5 _ _ Hk). lia.
  - intros h l [[<- <-]|[Hne Hh]]%lookup_insert_Some.
    + exists np. split; [by apply list_lookup_middle|].
      rewrite Hid. apply lookup_insert_eq.
    + destruct (H6 _ _ Hh) as (q & Hq & Ht). exists q.
      split; [by apply lookup_app_l_Some|].
      rewrite lookup_insert_ne; [done|]. specialize (H5 _ _ Ht). lia.
Qed.

Lemma inv_insert s l p p' :
  objetos s !! l = Some p → id p' = id p →
  inv s → inv (com_objetos (<[l := p']> (objetos s)) s).
Proof.
  intros Hl Hid [H1 H2]. split;
    [by eapply invIds_insert | by eapply invTimers_insert].
Qed.

Lemma inv_limparTimer pedidoId s : inv s → inv (limparTimer pedidoId s).
Proof.
  intros [H1 H2]. split;
    [by apply invIds_limparTimer | by apply invTimers_limparTimer].
Qed.

Lemma inv_sistema_reset agora s : inv s → inv (estadoDe (sistema_reset agora s)).
Proof.
  intros [_ (_ & H6)]. split; [|split]; simpl.
  - repeat split; unfold pedidosDe; simpl; try constructor; lia.
  - intros k h. by rewrite lookup_empty.
  - intros h l [Hh Hm]%forEach_clearTimeout.
    destruct (H6 _ _ Hh) as (q & _ & Ht). by destruct (Hm (id q)).
Qed.

Lemma inv_timeout timer novoPedido s :
  inv s → agendados s !! timer = Some novoPedido →
  inv (estadoDe (timeout_callback novoPedido
         (com_timers (timersExpiracao s) (delete timer (agendados s)) s))).
Proof.
  intros Hinv Htimer.
  pose proof Hinv as [HI (H5 & H6)].
  destruct (H6 _ _ Htimer) as (np & Hnp & Htnp).
  assert (inv (com_timers (timersExpiracao s) (delete timer (agendados s)) s))
    as Hinv0.
  { split; [exact HI|]. split; simpl; [exact H5|].
    intros h l [_ Hh]%lookup_delete_Some. by apply H6. }
  unfold timeout_callback. simpl. rewrite Hnp.
  destruct (find (objetos s) (id np) (pedidos s)) as [[l pedido]|] eqn:Ef;
    [|exact Hinv0].
  apply find_Some in Ef as (_ & Hl & Hidl).
  case_bool_decide; [|exact Hinv0]. simpl.
  pose proof (inv_insert
                (com_timers (timersExpiracao s) (delete timer (agendados s)) s)
                l pedido (com_status Expirado pedido) Hl eq_refl Hinv0)
    as [HI1 (H51 & H61)].
  split; [exact HI1|]. split; simpl in *.
  - intros k h [_ Hk]%lookup_delete_Some. by eapply H5.
  - intros h l0 Hh. destruct (H61 _ _ Hh) as (q & Hq & Ht). exists q.
    split; [done|]. rewrite lookup_delete_ne; [done|].
    intros E. rewrite <- E in Ht.
    apply lookup_delete_Some in Hh as [Hne _]. congruence.
Qed.

(** The invariants are kept by every turn of the event loop. *)
Lemma inv_passo s ev r : inv s → passo s ev = Some r → inv (estadoDe r).
Proof.
  intros Hinv.
  destruct ev as [sock|sock agora|sock agora dados|sock pedidoId
                 |sock agora pedidoId|sock agora pedidoId|sock agora pedidoId
                 |sock agora|timer]; simpl.
  - by intros [= <-].
  - by intros [= <-].
  - intros [= <-]. unfold pedido_criar.
    destruct (sistemaAtivo s); simpl; [|done].
    destruct dados as [|c i]; [done|].
    destruct (truthy c), (truthy i); simpl; try done.
    destruct c, i; simpl; try by apply inv_com_proximoId.
    by apply inv_novoPedido.
  - intros [= <-]. unfold pedido_aceitar.
    abre_handler s pedidoId; try done.
    apply inv_limparTimer. by eapply inv_insert.
  - intros [= <-]. unfold pedido_finalizar.
    abre_handler s pedidoId; try done. by eapply inv_insert.
  - intros [= <-]. unfold pedido_cancelar.
    abre_handler s pedidoId; try done.
    apply inv_limparTimer. by eapply inv_insert.
  - intros [= <-]. unfold pedido_entregar.
    abre_handler s pedidoId; try done. by eapply inv_insert.
  - intros [= <-]. by apply inv_sistema_reset.
  - destruct (agendados s !! timer) as [novoPedido|] eqn:Ht; [|done].
    intros [= <-]. by apply inv_timeout.
Qed.

Lemma inv_inicial : inv inicial.
Proof.
  split; [|split]; simpl.
  - repeat split; unfold pedidosDe; simpl; try constructor; lia.
  - intros k h. by rewrite lookup_empty.
  - intros h l. by rewrite lookup_empty.
Qed.

Lemma alcancavel_inv s : alcancavel s → inv s.
Proof.
  induction 1 as [|s ev r _ IH Hp]; [apply inv_inicial | by eapply inv_passo].
Qed.

(** ** Ids *)

Lemma StronglySorted_lt_NoDup (l : list Z) : StronglySorted Z.lt l → NoDup l.
Proof.
  induction 1 as [|x l _ IH Hx]; constructor; [|done].
  intros Hin. rewrite Forall_forall in Hx. specialize (Hx _ Hin). lia.
Qed.

Lemma length_omap_is_Some (objs : list Pedido) (ps : list loc) :
  Forall (λ l, is_Some (objs !! l)) ps →
  length (omap (λ l, objs !! l) ps) = length ps.
Proof.
  induction 1 as [|l ps [q Hq] _ IH]; csimpl; [done|]. rewrite Hq. simpl. by rewrite IH.
Qed.

(** C9: in every reachable state every reference of [pedidos] points to an
    order, and the ids of these orders, in insertion order, are strictly
    increasing, hence pairwise distinct; runs with resets included. *)
Theorem C9_coexisting_ids_distinct s :
  alcancavel s →
  length (pedidosDe s) = length (pedidos s)
  ∧ StronglySorted Z.lt (id <$> pedidosDe s)
  ∧ NoDup (id <$> pedidosDe s).
Proof.
  intros [(_ & H2 & H3 & _) _]%alcancavel_inv. split; [|split].
  - by apply length_omap_is_Some.
  - done.
  - by apply StronglySorted_lt_NoDup.
Qed.

Lemma C9_coexisting_ids_distinct_witness :
  length (pedidosDe (estadoDepois eventosDois))
    = length (pedidos (estadoDepois eventosDois))
  ∧ StronglySorted Z.lt (id <$> pedidosDe (estadoDepois eventosDois))
  ∧ NoDup (id <$> pedidosDe (estadoDepois eventosDois)).
Proof.
  apply (C9_coexisting_ids_distinct (estadoDepois eventosDois)).
  apply alcancavel_estadoDepois.
Defined.

(** C7: from every reachable state ['sistema.reset'] returns, with the one
    broadcast and no error, a state with no timeout scheduled, an empty
    timer map, an empty collection and the counter at 1; the flag is the
    one it found. *)
Theorem C7_reset s sock agora :
  alcancavel s →
  ∃ s', passo s (SistemaReset sock agora)
        = Some (Retorna s' [IoEmit (SistemaResetado agora)])
        ∧ agendados s' = ∅
        ∧ timersExpiracao s' = ∅
        ∧ pedidos s' = []
        ∧ pedidosDe s' = []
        ∧ proximoId s' = 1%Z
        ∧ sistemaAtivo s' = sistemaAtivo s.
Proof.
  intros [_ (_ & H6)]%alcancavel_inv. eexists. split; [reflexivity|]. simpl.
  repeat split. apply map_empty. intros h.
  apply eq_None_not_Some. intros [l [Hh Hm]%forEach_clearTimeout].
  destruct (H6 _ _ Hh) as (q & _ & Ht). by destruct (Hm (id q)).
Qed.

Lemma C7_reset_witness :
  ∃ s', passo estadoPendente (SistemaReset sockA (js "10:00:10"))
        = Some (Retorna s' [IoEmit (SistemaResetado (js "10:00:10"))])
        ∧ agendados s' = ∅
        ∧ timersExpiracao s' = ∅
        ∧ pedidos s' = []
        ∧ pedidosDe s' = []
        ∧ proximoId s' = 1%Z
        ∧ sistemaAtivo s' = sistemaAtivo estadoPendente.
Proof.
  apply (C7_reset estadoPendente sockA (js "10:00:10")).
  apply alcancavel_estadoDepois.
Defined.

(** What one event other than reset does to the counter: it stays, with no
    order created, or one order is created with the counter as its id and
    the counter goes up by one (a throw in ['pedido.criar'] moves the
    counter up without an order). *)
Lemma passo_idsCriados s ev r :
  naoReset ev = true →
  passo s ev = Some r →
  (idsCriados (saidasDe r) = []
   ∧ (proximoId s ≤ proximoId (estadoDe r))%Z)
  ∨ (idsCriados (saidasDe r) = [proximoId s]
     ∧ proximoId (estadoDe r) = (proximoId s + 1)%Z).
Proof.
  destruct ev as [sock|sock agora|sock agora dados|sock pedidoId
                 |sock agora pedidoId|sock agora pedidoId|sock agora pedidoId
                 |sock agora|timer]; simpl; intros Hev Hp;
    try discriminate Hev.
  - injection Hp as <-. by left.
  - injection Hp as <-. by left.
  - injection Hp as <-. unfold pedido_criar.
    destruct (sistemaAtivo s); simpl; [|by left].
    destruct dados as [|c i]; [by left|].
    destruct (truthy c), (truthy i); simpl; try by left.
    destruct c, i; simpl; try (left; split; [done|lia]).
    by right.
  - injection Hp as <-. unfold pedido_aceitar.
    abre_handler s pedidoId; autorewrite with registro; by left.
  - injection Hp as <-. unfold pedido_finalizar.
    abre_handler s pedidoId; by left.
  - injection Hp as <-. unfold pedido_cancelar.
    abre_handler s pedidoId; autorewrite with registro; by left.
  - injection Hp as <-. unfold pedido_entregar.
    abre_handler s pedidoId; by left.
  - destruct (agendados s !! timer) as [novoPedido|]; [|done].
    injection Hp as <-. unfold timeout_callback. simpl.
    destruct (objetos s !! novoPedido) as [np|]; [|by left].
    abre_handler s (id np); by left.
Qed.

Lemma idsCriados_app out1 out2 :
  idsCriados (out1 ++ out2) = idsCriados out1 ++ idsCriados out2.
Proof. apply omap_app. Qed.

Lemma executa_idsCriados evs : ∀ s s' out,
  forallb naoReset evs = true →
  executa s evs = Some (s', out) →
  (proximoId s ≤ proximoId s')%Z
  ∧ StronglySorted Z.lt (idsCriados out)
  ∧ Forall (λ i, (proximoId s ≤ i < proximoId s')%Z) (idsCriados out).
Proof.
  induction evs as [|ev evs IH]; simpl; intros s s' out Hevs Hex.
  - injection Hex as <- <-. split; [lia|]. split; constructor.
  - apply andb_true_iff in Hevs as [Hev Hevs].
    destruct (passo s ev) as [r|] eqn:Hp; [|done].
    destruct (executa (estadoDe r) evs) as [[s1 out1]|] eqn:He; [|done].
    injection Hex as <- <-.
    destruct (IH _ _ _ Hevs He) as (Hle & Hsort & Hall).
    rewrite idsCriados_app.
    destruct (passo_idsCriados _ _ _ Hev Hp) as [[-> Hn]|[-> Hn]]; simpl.
    + split; [lia|]. split; [done|].
      eapply Forall_impl; [exact Hall|]. simpl. lia.
    + split; [lia|]. split.
      * constructor; [done|].
        eapply Forall_impl; [exact Hall|]. simpl. lia.
      * constructor; [lia|].
        eapply Forall_impl; [exact Hall|]. simpl. lia.
Qed.

(** C4, as amended: from any reachable state, over any sequence of events
    with no reset in it, the orders created get positive integer ids that
    are strictly increasing in creation order, hence pairwise distinct, and
    greater than the id of every order already in the collection. *)
Theorem C4_ids_between_resets s evs s' out :
  alcancavel s →
  forallb naoReset evs = true →
  executa s evs = Some (s', out) →
  StronglySorted Z.lt (idsCriados out)
  ∧ NoDup (idsCriados out)
  ∧ Forall (λ i, (1 ≤ i)%Z) (idsCriados out)
  ∧ Forall (λ p, Forall (λ i, (id p < i)%Z) (idsCriados out)) (pedidosDe s).
Proof.
  intros [(H1 & _ & _ & H4) _]%alcancavel_inv Hevs Hex.
  destruct (executa_idsCriados _ _ _ _ Hevs Hex) as (_ & Hsort & Hall).
  split; [done|]. split; [by apply StronglySorted_lt_NoDup|]. split.
  - eapply Forall_impl; [exact Hall|]. simpl. lia.
  - eapply Forall_impl; [exact H4|]. simpl. intros p Hp.
    eapply Forall_impl; [exact Hall|]. simpl. lia.
Qed.

Lemma C4_ids_between_resets_witness :
  StronglySorted Z.lt [2; 3]%Z
  ∧ NoDup [2; 3]%Z
  ∧ Forall (λ i, (1 ≤ i)%Z) [2; 3]%Z
  ∧ Forall (λ p, Forall (λ i, (id p < i)%Z) [2; 3]%Z) (pedidosDe estadoAceito).
Proof.
  apply (C4_ids_between_resets estadoAceito
           [PedidoCriar sockB (js "10:02:00") biaSuco;
            PedidoFinalizar sockA (js "10:03:00") 1;
            PedidoCriar sockB (js "10:04:00") anaPizza]
           (estadoDepois (eventosAceito ++
              [PedidoCriar sockB (js "10:02:00") biaSuco;
               PedidoFinalizar sockA (js "10:03:00") 1;
               PedidoCriar sockB (js "10:04:00") anaPizza]))
           [IoEmit (PedidoCriado 1
              {| id := 2; cliente := js "Bia"; itens := js "Suco";
                 status := Pendente; criadoEm := js "10:02:00";
                 socketId := sockB; prontoEm := None; canceladoEm := None;
                 entregueEm := None |});
            IoEmit (PedidoFinalizado 0
              {| id := 1; cliente := js "Ana"; itens := js "Pizza";
                 status := Pronto; criadoEm := js "10:00:05";
                 socketId := sockB; prontoEm := Some (js "10:03:00");
                 canceladoEm := None; entregueEm := None |});
            IoEmit (PedidoCriado 2
              {| id := 3; cliente := js "Ana"; itens := js "Pizza";
                 status := Pendente; criadoEm := js "10:04:00";
                 socketId := sockB; prontoEm := None; canceladoEm := None;
                 entregueEm := None |})]).
  - apply alcancavel_estadoDepois.
  - reflexivity.
  - vm_compute; reflexivity.
Defined.

(** C4 as stated fails across a reset: the order created before the reset
    and the one created after it are two objects with the same id 1. *)
Lemma C4_counterexample :
  ∃ s' out,
    executa inicial eventosReset = Some (s', out)
    ∧ idsCriados out = [1; 1]%Z
    ∧ ¬ NoDup (idsCriados out)
    ∧ (id <$> objetos s' !! 0%nat) = Some 1%Z
    ∧ (id <$> objetos s' !! 1%nat) = Some 1%Z
    ∧ (cliente <$> objetos s' !! 0%nat) = Some (js "Ana")
    ∧ (cliente <$> objetos s' !! 1%nat) = Some (js "Bia").
Proof.
  eexists _, _. split; [vm_compute; reflexivity|].
  split; [vm_compute; reflexivity|].
  split; [|repeat split].
  intros H. apply NoDup_cons in H as [H _]. apply H. vm_compute. left.
Qed.

(** ** Timers *)

Lemma agendados_limparTimer pedidoId s h l :
  agendados (limparTimer pedidoId s) !! h = Some l → agendados s !! h = Some l.
Proof.
  unfold limparTimer. destruct (timersExpiracao s !! pedidoId); [|done].
  simpl. by intros [_ ?]%lookup_delete_Some.
Qed.

Lemma agendados_timeout_callback novoPedido s :
  agendados (estadoDe (timeout_callback novoPedido s)) = agendados s
  ∧ proximoTimer (estadoDe (timeout_callback novoPedido s)) = proximoTimer s.
Proof.
  unfold timeout_callback.
  destruct (objetos s !! novoPedido) as [np|]; [|done].
  abre_handler s (id np); done.
Qed.

(** What one event does to the scheduler: it schedules nothing new (and the
    timeout that fired is gone), or, in a successful ['pedido.criar'], it
    schedules one fresh timeout for the one fresh object. *)
Lemma passo_agendados s ev r :
  passo s ev = Some r →
  (proximoTimer (estadoDe r) = proximoTimer s
   ∧ length (objetos (estadoDe r)) = length (objetos s)
   ∧ (∀ h l, agendados (estadoDe r) !! h = Some l → agendados s !! h = Some l)
   ∧ (∀ h l, (h, l) ∈ disparo s ev → agendados (estadoDe r) !! h = None))
  ∨ (agendados (estadoDe r) = <[proximoTimer s := length (objetos s)]> (agendados s)
     ∧ proximoTimer (estadoDe r) = S (proximoTimer s)
     ∧ length (objetos (estadoDe r)) = S (length (objetos s))
     ∧ disparo s ev = []).
Proof.
  destruct ev as [sock|sock agora|sock agora dados|sock pedidoId
                 |sock agora pedidoId|sock agora pedidoId|sock agora pedidoId
                 |sock agora|timer]; simpl; intros Hp.
  - injection Hp as <-. left. repeat split; [done|]. by intros ?? ?%elem_of_nil.
  - injection Hp as <-. left. repeat split; [done|]. by intros ?? ?%elem_of_nil.
  - injection Hp as <-. unfold pedido_criar.
    destruct (sistemaAtivo s); simpl;
      [|left; repeat split; [done|]; by intros ?? ?%elem_of_nil].
    destruct dados as [|c i];
      [left; repeat split; [done|]; by intros ?? ?%elem_of_nil|].
    destruct (truthy c), (truthy i); simpl;
      try (left; repeat split; [done|]; by intros ?? ?%elem_of_nil).
    destruct c, i; simpl;
      try (left; repeat split; [done|]; by intros ?? ?%elem_of_nil).
    right. repeat split. rewrite length_app. simpl. lia.
  - injection Hp as <-. left. unfold pedido_aceitar.
    abre_handler s pedidoId; autorewrite with registro; simpl;
      rewrite ?length_insert; repeat split;
      try (by intros ?? ?%elem_of_nil); try done.
    intros h l Hh. by apply agendados_limparTimer in Hh.
  - injection Hp as <-. left. unfold pedido_finalizar.
    abre_handler s pedidoId; rewrite ?length_insert; repeat split;
      try (by intros ?? ?%elem_of_nil); done.
  - injection Hp as <-. left. unfold pedido_cancelar.
    abre_handler s pedidoId; autorewrite with registro; simpl;
      rewrite ?length_insert; repeat split;
      try (by intros ?? ?%elem_of_nil); try done.
    intros h l Hh. by apply agendados_limparTimer in Hh.
  - injection Hp as <-. left. unfold pedido_entregar.
    abre_handler s pedidoId; rewrite ?length_insert; repeat split;
      try (by intros ?? ?%elem_of_nil); done.
  - injection Hp as <-. left. simpl. repeat split.
    + intros h l [Hh _]%forEach_clearTimeout. done.
    + by intros ?? ?%elem_of_nil.
  - destruct (agendados s !! timer) as [novoPedido|] eqn:Ht; [|done].
    injection Hp as <-. left.
    destruct (agendados_timeout_callback novoPedido
      (com_timers (timersExpiracao s) (delete timer (agendados s)) s)) as [-> ->].
    destruct (timeout_callback_mesmasVariaveis novoPedido
      (com_timers (timersExpiracao s) (delete timer (agendados s)) s))
      as (_ & _ & _ & ->). simpl. repeat split.
    + by intros h l [_ ?]%lookup_delete_Some.
    + intros h l [= -> ->]%list_elem_of_singleton. apply lookup_delete_eq.
Qed.

Lemma disparo_agendado s ev h l :
  (h, l) ∈ disparo s ev → agendados s !! h = Some l.
Proof.
  destruct ev; simpl; try by intros ?%elem_of_nil.
  destruct (agendados s !! timer) as [l0|] eqn:Ht; [|by intros ?%elem_of_nil].
  by intros [= -> ->]%list_elem_of_singleton.
Qed.

Lemma disparo_unico s ev x y : x ∈ disparo s ev → y ∈ disparo s ev → x = y.
Proof.
  destruct ev; simpl; try by intros ?%elem_of_nil.
  destruct (agendados s !! timer); [|by intros ?%elem_of_nil].
  by intros ->%list_elem_of_singleton ->%list_elem_of_singleton.
Qed.

Lemma disparo_forma s ev :
  disparo s ev = []
  ∨ ∃ h l, disparo s ev = [(h, l)] ∧ agendados s !! h = Some l.
Proof.
  destruct ev; simpl; try by left.
  destruct (agendados s !! timer) as [l|] eqn:Ht; [|by left].
  right. by exists timer, l.
Qed.

(** The scheduler invariant is kept by every turn of the event loop, the
    timeout fired at that turn joining the fired ones. *)
Lemma invDisparos_passo s F ev r :
  invDisparos s F → passo s ev = Some r →
  invDisparos (estadoDe r) (F ++ disparo s ev).
Proof.
  intros (H1 & H2 & H3 & H4 & H5) Hp.
  destruct (passo_agendados _ _ _ Hp)
    as [(Ept & Elen & Hsub & Hgone)|(Eag & Ept & Elen & ED)].
  - unfold invDisparos. rewrite Ept, Elen. split; [|split; [|split]].
    + intros h l Hh. by apply H1, Hsub.
    + intros h1 h2 l Hh1 Hh2. apply (H2 h1 h2 l); by apply Hsub.
    + intros h l [HF|HD]%elem_of_app.
      * destruct (H3 _ _ HF) as (? & ? & Hn & Hnt). repeat split; try done.
        -- apply eq_None_not_Some. intros [x Hx]. apply Hsub in Hx. congruence.
        -- intros h' Hh'. by apply Hsub, Hnt in Hh'.
      * pose proof (disparo_agendado _ _ _ _ HD) as Hh.
        destruct (H1 _ _ Hh) as [? ?]. repeat split; try done.
        -- by eapply Hgone.
        -- intros h' Hh'. pose proof (Hsub _ _ Hh') as Hh0.
           rewrite (H2 _ _ _ Hh0 Hh) in Hh'.
           rewrite (Hgone _ _ HD) in Hh'. discriminate Hh'.
    + destruct (disparo_forma s ev) as [->|(h & l & -> & Hh)];
        [by rewrite app_nil_r|].
      rewrite !fmap_app. simpl. split; apply NoDup_app; (split; [done|]);
        (split; [|apply NoDup_singleton]).
      * intros x ([h0 l0] & Ex & HF)%list_elem_of_fmap Hx%list_elem_of_singleton.
        simpl in *. subst. destruct (H3 _ _ HF) as (_ & _ & Hn & _). congruence.
      * intros x ([h0 l0] & Ex & HF)%list_elem_of_fmap Hx%list_elem_of_singleton.
        simpl in *. subst. destruct (H3 _ _ HF) as (_ & _ & _ & Hnt).
        by apply (Hnt h).
  - unfold invDisparos. rewrite ED, app_nil_r, Eag, Ept, Elen.
    split; [|split; [|split]].
    + intros h l [[<- <-]|[_ Hh]]%lookup_insert_Some; [lia|].
      destruct (H1 _ _ Hh). lia.
    + intros h1 h2 l [[<- <-]|[_ Hh1]]%lookup_insert_Some
                      [[<- E]|[_ Hh2]]%lookup_insert_Some.
      * done.
      * destruct (H1 _ _ Hh2). lia.
      * destruct (H1 _ _ Hh1). lia.
      * by eapply H2.
    + intros h l HF. destruct (H3 _ _ HF) as (? & ? & Hn & Hnt).
      split; [lia|]. split; [lia|]. split.
      * rewrite lookup_insert_ne; [done | lia].
      * intros h' [[_ ?]|[_ Hh']]%lookup_insert_Some; [lia | by eapply Hnt].
    + done.
Qed.

Lemma invDisparos_inicial : invDisparos inicial [].
Proof.
  split; [|split; [|split; [|split]]]; simpl.
  - intros h l. by rewrite lookup_empty.
  - intros h1 h2 l. by rewrite lookup_empty.
  - by intros h l ?%elem_of_nil.
  - constructor.
  - constructor.
Qed.

Lemma invDisparos_executa evs : ∀ s F s' out,
  invDisparos s F → executa s evs = Some (s', out) →
  invDisparos s' (F ++ disparos s evs).
Proof.
  induction evs as [|ev evs IH]; simpl; intros s F s' out HF Hex.
  - injection Hex as <- _. by rewrite app_nil_r.
  - destruct (passo s ev) as [r|] eqn:Hp; [|done].
    destruct (executa (estadoDe r) evs) as [[s1 out1]|] eqn:He; [|done].
    injection Hex as <- _. rewrite app_assoc.
    eapply IH; [|exact He]. by apply invDisparos_passo.
Qed.

(** In a run of the server no timeout fires twice, and no two timeouts that
    fire are for the same order. *)
Lemma disparos_NoDup evs s out :
  executa inicial evs = Some (s, out) →
  NoDup (disparos inicial evs).*1 ∧ NoDup (disparos inicial evs).*2.
Proof.
  intros Hex.
  pose proof (invDisparos_executa _ _ _ _ _ invDisparos_inicial Hex)
    as (_ & _ & _ & H4 & H5).
  done.
Qed.

(** [limparTimer] on the id of an order leaves no entry for that id and no
    scheduled timeout for that order. *)
Lemma limparTimer_remove s l p :
  inv s → objetos s !! l = Some p →
  timersExpiracao (limparTimer (id p) s) !! id p = None
  ∧ ∀ h, agendados (limparTimer (id p) s) !! h ≠ Some l.
Proof.
  intros [_ (_ & H6)] Hl. unfold limparTimer.
  destruct (timersExpiracao s !! id p) as [h0|] eqn:Ht; simpl.
  - split; [apply lookup_delete_eq|].
    intros h [Hne Hh]%lookup_delete_Some.
    destruct (H6 _ _ Hh) as (q & Hq & Htq). congruence.
  - split; [done|]. intros h Hh.
    destruct (H6 _ _ Hh) as (q & Hq & Htq). congruence.
Qed.

(** ['pedido.expirado'] is only ever emitted for an order that was pending
    when the event arrived. *)
Lemma passo_saida_expirado s ev r o l q :
  passo s ev = Some r → o ∈ saidasDe r → emissaoDe o = PedidoExpirado l q →
  ∃ p, objetos s !! l = Some p ∧ status p = Pendente.
Proof.
  destruct ev as [sock|sock agora|sock agora dados|sock pedidoId
                 |sock agora pedidoId|sock agora pedidoId|sock agora pedidoId
                 |sock agora|timer]; simpl; intros Hp.
  - injection Hp as <-. by intros ->%list_elem_of_singleton.
  - injection Hp as <-. by intros ->%list_elem_of_singleton.
  - injection Hp as <-. unfold pedido_criar.
    destruct (sistemaAtivo s); simpl; [|by intros ->%list_elem_of_singleton].
    destruct dados as [|c i]; [by intros ?%elem_of_nil|].
    destruct (truthy c), (truthy i); simpl;
      try by intros ->%list_elem_of_singleton.
    destruct c, i; simpl; try by intros ?%elem_of_nil.
    by intros ->%list_elem_of_singleton.
  - injection Hp as <-. unfold pedido_aceitar.
    abre_handler s pedidoId; by intros ->%list_elem_of_singleton.
  - injection Hp as <-. unfold pedido_finalizar.
    abre_handler s pedidoId; by intros ->%list_elem_of_singleton.
  - injection Hp as <-. unfold pedido_cancelar.
    abre_handler s pedidoId; by intros ->%list_elem_of_singleton.
  - injection Hp as <-. unfold pedido_entregar.
    abre_handler s pedidoId; by intros ->%list_elem_of_singleton.
  - injection Hp as <-. by intros ->%list_elem_of_singleton.
  - destruct (agendados s !! timer) as [novoPedido|]; [|done].
    injection Hp as <-. unfold timeout_callback. simpl.
    destruct (objetos s !! novoPedido) as [np|]; [|by intros ?%elem_of_nil].
    abre_handler s (id np); try by intros ?%elem_of_nil.
    intros ->%list_elem_of_singleton [= <- _]. eauto.
Qed.

Lemma deixouPendente_passo s ev r l p :
  passo s ev = Some r → objetos s !! l = Some p → deixouPendente p →
  ∃ p', objetos (estadoDe r) !! l = Some p' ∧ deixouPendente p'.
Proof.
  intros Hp Hl [Hn1 Hn2].
  destruct (passo_objeto _ _ _ _ _ Hp Hl) as (p' & Hl' & [E|Ha]);
    exists p'; (split; [done|]); [by rewrite E|].
  destruct ev; simpl in Ha; try done; decompose [and] Ha; subst p'; done.
Qed.

Lemma semTimer_passo s ev r l :
  passo s ev = Some r →
  l < length (objetos s) → (∀ h, agendados s !! h ≠ Some l) →
  l < length (objetos (estadoDe r))
  ∧ (∀ h, agendados (estadoDe r) !! h ≠ Some l)
  ∧ (∀ h, (h, l) ∉ disparo s ev).
Proof.
  intros Hp Hlen Hno.
  assert (∀ h, (h, l) ∉ disparo s ev) as HD.
  { intros h Hh%disparo_agendado. by apply (Hno h). }
  destruct (passo_agendados _ _ _ Hp)
    as [(_ & Elen & Hsub & _)|(Eag & _ & Elen & _)]; rewrite Elen.
  - split; [done|]. split; [|done]. intros h Hh%Hsub. by apply (Hno h).
  - split; [lia|]. split; [|done]. rewrite Eag.
    intros h [[_ ?]|[_ Hh]]%lookup_insert_Some; [lia | by apply (Hno h)].
Qed.

(** Once an order has left pending and has no timeout scheduled, then
    whatever happens next it is never expired, no ['pedido.expirado'] is
    emitted for it and no timeout fires for it. *)
Lemma executa_deixouPendente evs : ∀ s s' out l p,
  objetos s !! l = Some p → deixouPendente p →
  (∀ h, agendados s !! h ≠ Some l) →
  executa s evs = Some (s', out) →
  (∃ p', objetos s' !! l = Some p' ∧ deixouPendente p')
  ∧ (∀ o q, o ∈ out → emissaoDe o ≠ PedidoExpirado l q)
  ∧ (∀ h, (h, l) ∉ disparos s evs).
Proof.
  induction evs as [|ev evs IH]; simpl; intros s s' out l p Hl Hp Hno Hex.
  - injection Hex as <- <-. split; [eauto|]. split.
    + by intros o q ?%elem_of_nil.
    + by intros h ?%elem_of_nil.
  - destruct (passo s ev) as [r|] eqn:Hpasso; [|done].
    destruct (executa (estadoDe r) evs) as [[s1 out1]|] eqn:He; [|done].
    injection Hex as <- <-.
    destruct (deixouPendente_passo _ _ _ _ _ Hpasso Hl Hp) as (p1 & Hl1 & Hp1).
    destruct (semTimer_passo _ _ _ l Hpasso (lookup_lt_Some _ _ _ Hl) Hno)
      as (_ & Hno1 & HD).
    destruct (IH _ _ _ _ _ Hl1 Hp1 Hno1 He) as (Hfim & Hout & Hdis).
    split; [done|]. split.
    + intros o q [Ho|Ho]%elem_of_app E; [|by eapply Hout].
      destruct (passo_saida_expirado _ _ _ _ _ _ Hpasso Ho E) as (p0 & Hl0 & Hst).
      rewrite Hl in Hl0. injection Hl0 as <-. by destruct Hp.
    + intros h [Hh|Hh]%elem_of_app; [by eapply HD | by eapply Hdis].
Qed.

(** C5.  First part: when accept or cancel takes a pending order out of
    pending from a reachable state, the order is no longer pending, the
    timer map has no entry for its id and no timeout is scheduled for it;
    and in every continuation of the run the order is never expired, no
    ['pedido.expirado'] is emitted for it and no timeout fires for it.
    Second part: in every run no timeout fires twice, and no two timeouts
    that fire are for the same order. *)
Theorem C5_timer_cleared_on_leaving_pending :
  (∀ s ev sock agora pedidoId l p r,
     alcancavel s →
     ev = PedidoAceitar sock pedidoId ∨ ev = PedidoCancelar sock agora pedidoId →
     find (objetos s) pedidoId (pedidos s) = Some (l, p) →
     status p = Pendente →
     passo s ev = Some r →
     (∃ p', objetos (estadoDe r) !! l = Some p' ∧ status p' ≠ Pendente)
     ∧ timersExpiracao (estadoDe r) !! pedidoId = None
     ∧ (∀ h, agendados (estadoDe r) !! h ≠ Some l)
     ∧ ∀ evs s' out,
         executa (estadoDe r) evs = Some (s', out) →
         (∃ p', objetos s' !! l = Some p' ∧ status p' ≠ Expirado)
         ∧ (∀ o q, o ∈ out → emissaoDe o ≠ PedidoExpirado l q)
         ∧ (∀ h, (h, l) ∉ disparos (estadoDe r) evs))
  ∧ (∀ evs s out,
       executa inicial evs = Some (s, out) →
       NoDup (disparos inicial evs).*1 ∧ NoDup (disparos inicial evs).*2).
Proof.
  split; [|by apply disparos_NoDup].
  intros s ev sock agora pedidoId l p r Hs%alcancavel_inv Hev Hf Hst Hp.
  pose proof Hf as (_ & Hl & Hid)%find_Some.
  assert (∃ p', deixouPendente p' ∧ id p' = id p
                ∧ estadoDe r = limparTimer (id p)
                    (com_objetos (<[l := p']> (objetos s)) s)) as (p' & Hp' & Hid' & Er).
  { destruct Hev as [-> | ->]; simpl in Hp; injection Hp as <-.
    - unfold pedido_aceitar. rewrite Hf, Hst, Hid. simpl.
      by exists (com_status Preparando p).
    - unfold pedido_cancelar. rewrite Hf, Hst, Hid. simpl.
      by exists (com_canceladoEm agora (com_status Cancelado p)). }
  pose proof (inv_insert _ _ _ p' Hl Hid' Hs) as Hinv1.
  assert (objetos (com_objetos (<[l := p']> (objetos s)) s) !! l = Some p') as Hl1.
  { simpl. apply list_lookup_insert_eq. by eapply lookup_lt_Some. }
  rewrite <- Hid' in Er.
  destruct (limparTimer_remove _ _ _ Hinv1 Hl1) as [Hmap Hno].
  rewrite <- Er in Hmap, Hno. rewrite Hid', Hid in Hmap.
  assert (objetos (estadoDe r) !! l = Some p') as Hl2.
  { by rewrite Er, objetos_limparTimer. }
  split; [exists p'; split; [done | by destruct Hp']|].
  split; [done|]. split; [done|].
  intros evs s' out Hex.
  destruct (executa_deixouPendente _ _ _ _ _ _ Hl2 Hp' Hno Hex)
    as ((p'' & Hl'' & [_ Hne]) & Hout & Hdis).
  eauto.
Qed.

Lemma C5_timer_cleared_on_leaving_pending_witness :
  ((∃ p', objetos estadoAceito !! 0%nat = Some p' ∧ status p' ≠ Pendente)
   ∧ timersExpiracao estadoAceito !! 1%Z = None
   ∧ (∀ h, agendados estadoAceito !! h ≠ Some 0%nat)
   ∧ ∀ evs s' out,
       executa estadoAceito evs = Some (s', out) →
       (∃ p', objetos s' !! 0%nat = Some p' ∧ status p' ≠ Expirado)
       ∧ (∀ o q, o ∈ out → emissaoDe o ≠ PedidoExpirado 0%nat q)
       ∧ (∀ h, (h, 0%nat) ∉ disparos estadoAceito evs))
  ∧ NoDup (disparos inicial (eventosAceito ++ eventosDepoisDeAceitar)).*1
  ∧ NoDup (disparos inicial (eventosAceito ++ eventosDepoisDeAceitar)).*2.
Proof.
  split.
  - apply (proj1 C5_timer_cleared_on_leaving_pending estadoPendente
             (PedidoAceitar sockA 1) sockA (js "") 1%Z 0%nat
             (pedidoAna Pendente None)
             (resultadoDe estadoPendente (PedidoAceitar sockA 1))).
    + apply alcancavel_estadoDepois.
    + left; reflexivity.
    + vm_compute; reflexivity.
    + reflexivity.
    + vm_compute; reflexivity.
  - apply (proj2 C5_timer_cleared_on_leaving_pending
             (eventosAceito ++ eventosDepoisDeAceitar)
             (estadoDepois (eventosAceito ++ eventosDepoisDeAceitar))
             (match executa inicial (eventosAceito ++ eventosDepoisDeAceitar) with
              | Some (_, out) => out
              | None => []
              end)).
    vm_compute; reflexivity.
Defined.

(** ** Scenarios of section 8 of the specification, run on the model *)

(** Accept on an id that no order has: an error to the caller only, and the
    state as it was. *)
Example cenario_aceitar_inexistente :
  passo estadoAtivo (PedidoAceitar sockA 1)
  = Some (Retorna estadoAtivo [SocketEmit sockA (ErroOperacao PedidoNaoEncontrado)]).
Proof. vm_compute; reflexivity. Qed.

(** Finalize without a prior accept: InvalidTransition, the order stays
    pending. *)
Example cenario_finalizar_sem_aceitar :
  passo estadoPendente (PedidoFinalizar sockA (js "10:00:30") 1)
  = Some (Retorna estadoPendente [SocketEmit sockA (ErroOperacao ApenasEmPreparo)])
  ∧ pedidosDe estadoPendente = [pedidoAna Pendente None].
Proof. split; vm_compute; reflexivity. Qed.

(** Create, accept, finalize, deliver, then cancel: the cancel is refused,
    delivered being terminal. *)
Example cenario_cancelar_entregue :
  (snd <$> executa estadoAceito
     [PedidoFinalizar sockA (js "10:03:00") 1;
      PedidoEntregar sockA (js "10:04:00") 1;
      PedidoCancelar sockA (js "10:05:00") 1])
  = Some [IoEmit (PedidoFinalizado 0
            {| id := 1; cliente := js "Ana"; itens := js "Pizza";
               status := Pronto; criadoEm := js "10:00:05"; socketId := sockB;
               prontoEm := Some (js "10:03:00"); canceladoEm := None;
               entregueEm := None |});
          IoEmit (PedidoEntregue 0
            {| id := 1; cliente := js "Ana"; itens := js "Pizza";
               status := Entregue; criadoEm := js "10:00:05"; socketId := sockB;
               prontoEm := Some (js "10:03:00"); canceladoEm := None;
               entregueEm := Some (js "10:04:00") |});
          SocketEmit sockA (ErroOperacao NaoPodeCancelar)].
Proof. vm_compute; reflexivity. Qed.

(** * Further properties of [src/server.js] *)

(** ** The flag *)

(** Only ['sistema.iniciar'] writes the flag, and it writes [true]. *)
Lemma passo_sistemaAtivo s ev r :
  passo s ev = Some r →
  sistemaAtivo (estadoDe r)
  = match ev with SistemaIniciar _ _ => true | _ => sistemaAtivo s end.
Proof.
  intros Hp. destruct (acaoDe ev) as [a|] eqn:Ha.
  - destruct (passo_mesmasVariaveis _ _ _ Hp (mk_is_Some _ _ Ha)) as (-> & _).
    by destruct ev.
  - destruct ev as [sock|sock agora|sock agora dados| | | | |sock agora|];
      try discriminate Ha; simpl in Hp; injection Hp as <-; try done.
    unfold pedido_criar. destruct (sistemaAtivo s) eqn:Hat; simpl; [|done].
    destruct dados as [|c i]; [done|].
    destruct (truthy c), (truthy i); simpl; try done.
    destruct c, i; simpl; done.
Qed.

(** X1: once the system has been started, no run of events, resets
    included, turns the flag off again. *)
Theorem X1_flag_never_cleared evs : ∀ s s' out,
  sistemaAtivo s = true →
  executa s evs = Some (s', out) →
  sistemaAtivo s' = true.
Proof.
  induction evs as [|ev evs IH]; simpl; intros s s' out Hat Hex.
  - by injection Hex as <- _.
  - destruct (passo s ev) as [r|] eqn:Hp; [|done].
    destruct (executa (estadoDe r) evs) as [[s1 out1]|] eqn:He; [|done].
    injection Hex as <- _. eapply IH; [|exact He].
    rewrite (passo_sistemaAtivo _ _ _ Hp). by destruct ev.
Qed.

Lemma X1_flag_never_cleared_witness :
  sistemaAtivo (estadoDepois eventosReset) = true.
Proof.
  apply (X1_flag_never_cleared
           [PedidoCriar sockB (js "10:00:05") anaPizza;
            SistemaReset sockA (js "10:00:10");
            PedidoCriar sockB (js "10:00:15") biaSuco]
           estadoAtivo (estadoDepois eventosReset)
           (match executa inicial eventosReset with
            | Some (_, out) => drop 1 out
            | None => []
            end)).
  - reflexivity.
  - vm_compute; reflexivity.
Defined.

(** X2: as long as the system has not been started, the server is in its
    initial state: no order exists, the counter is 1 and nothing is
    scheduled, whatever events have arrived. *)
Theorem X2_inactive_is_initial s :
  alcancavel s → sistemaAtivo s = false → s = inicial.
Proof.
  induction 1 as [|s ev r Hs IH Hp]; [done|].
  intros Hat. rewrite (passo_sistemaAtivo _ _ _ Hp) in Hat.
  assert (s = inicial) as -> by (destruct ev; auto; discriminate Hat).
  clear IH Hs.
  destruct ev; simpl in Hp; try discriminate Hp; try discriminate Hat;
    injection Hp as <-; done.
Qed.

Lemma X2_inactive_is_initial_witness :
  estadoDepois [PedidoCriar sockB (js "10:00:05") anaPizza;
                PedidoAceitar sockA 1;
                SistemaReset sockA (js "10:00:10")] = inicial.
Proof.
  apply (X2_inactive_is_initial
           (estadoDepois [PedidoCriar sockB (js "10:00:05") anaPizza;
                          PedidoAceitar sockA 1;
                          SistemaReset sockA (js "10:00:10")])).
  - apply alcancavel_estadoDepois.
  - vm_compute; reflexivity.
Defined.

(** ** What is emitted, and to whom *)

(** Reads off the one emission of a handler branch. *)
Ltac uma_saida :=
  let Ho := fresh "Ho" in
  intros Ho;
  first [ by apply elem_of_nil in Ho
        | apply list_elem_of_singleton in Ho; subst; simpl ].

Ltac toda_saida := let o := fresh "o" in intros o; uma_saida.

(** X3: an error reply means that nothing happened: whenever an event makes
    the server emit ['erro.operacao'], that is the only emission, it goes
    to the socket the event came from, and the state is the one before the
    event. *)
Theorem X3_error_leaves_state s ev r o m :
  passo s ev = Some r →
  o ∈ saidasDe r →
  emissaoDe o = ErroOperacao m →
  ∃ sock, socketDe ev = Some sock
          ∧ r = Retorna s [SocketEmit sock (ErroOperacao m)].
Proof.
  destruct ev as [sock|sock agora|sock agora dados|sock pedidoId
                 |sock agora pedidoId|sock agora pedidoId|sock agora pedidoId
                 |sock agora|timer]; simpl; intros Hp.
  - injection Hp as <-. uma_saida. done.
  - injection Hp as <-. uma_saida. done.
  - injection Hp as <-. unfold pedido_criar.
    destruct (sistemaAtivo s); simpl; [|uma_saida; intros [= <-]; eauto].
    destruct dados as [|c i]; [uma_saida|].
    destruct (truthy c), (truthy i); simpl;
      try (uma_saida; intros [= <-]; by eauto).
    destruct c, i; simpl; uma_saida; done.
  - injection Hp as <-. unfold pedido_aceitar.
    abre_handler s pedidoId; uma_saida; try done; intros [= <-]; eauto.
  - injection Hp as <-. unfold pedido_finalizar.
    abre_handler s pedidoId; uma_saida; try done; intros [= <-]; eauto.
  - injection Hp as <-. unfold pedido_cancelar.
    abre_handler s pedidoId; uma_saida; try done; intros [= <-]; eauto.
  - injection Hp as <-. unfold pedido_entregar.
    abre_handler s pedidoId; uma_saida; try done; intros [= <-]; eauto.
  - injection Hp as <-. uma_saida. done.
  - destruct (agendados s !! timer) as [novoPedido|]; [|done].
    injection Hp as <-. unfold timeout_callback. simpl.
    destruct (objetos s !! novoPedido) as [np|]; [|uma_saida].
    abre_handler s (id np); uma_saida; done.
Qed.

Lemma X3_error_leaves_state_witness :
  ∃ sock, socketDe (PedidoFinalizar sockA (js "10:00:30") 1) = Some sock
          ∧ resultadoDe estadoPendente (PedidoFinalizar sockA (js "10:00:30") 1)
            = Retorna estadoPendente [SocketEmit sock (ErroOperacao ApenasEmPreparo)].
Proof.
  apply (X3_error_leaves_state estadoPendente
           (PedidoFinalizar sockA (js "10:00:30") 1)
           (resultadoDe estadoPendente (PedidoFinalizar sockA (js "10:00:30") 1))
           (SocketEmit sockA (ErroOperacao ApenasEmPreparo)) ApenasEmPreparo).
  - vm_compute; reflexivity.
  - vm_compute. left.
  - reflexivity.
Defined.

(** X4: an event makes the server emit at most one message.  What goes to
    a single socket goes to the socket the event came from and is an error
    or the initial state; everything else goes to all sockets.  A handler
    that throws has emitted nothing, and only ['pedido.criar'] throws. *)
Theorem X4_emission_routing s ev r :
  passo s ev = Some r →
  length (saidasDe r) ≤ 1
  ∧ (∀ o, o ∈ saidasDe r →
       match o with
       | SocketEmit sock e => socketDe ev = Some sock ∧ soParaSocket e = true
       | IoEmit e => soParaSocket e = false
       end)
  ∧ (∀ s' out, r = Lanca s' out →
       out = [] ∧ ∃ sock agora dados, ev = PedidoCriar sock agora dados).
Proof.
  destruct ev as [sock|sock agora|sock agora dados|sock pedidoId
                 |sock agora pedidoId|sock agora pedidoId|sock agora pedidoId
                 |sock agora|timer]; simpl; intros Hp.
  - injection Hp as <-. split; [simpl; lia|]. split; [toda_saida; done|done].
  - injection Hp as <-. split; [simpl; lia|]. split; [toda_saida; done|done].
  - injection Hp as <-. unfold pedido_criar.
    destruct (sistemaAtivo s); simpl;
      [|split; [simpl; lia|]; split; [toda_saida; done|done]].
    destruct dados as [|c i];
      [split; [simpl; lia|]; split; [toda_saida|intros ?? [= <- <-]; eauto]|].
    destruct (truthy c), (truthy i); simpl;
      try (split; [simpl; lia|]; split; [toda_saida; done|done]).
    destruct c, i; simpl;
      (split; [simpl; lia|]; split;
       [toda_saida; done | first [done | intros ?? [= <- <-]; eauto]]).
  - injection Hp as <-. unfold pedido_aceitar.
    abre_handler s pedidoId;
      (split; [simpl; lia|]; split; [toda_saida; done|done]).
  - injection Hp as <-. unfold pedido_finalizar.
    abre_handler s pedidoId;
      (split; [simpl; lia|]; split; [toda_saida; done|done]).
  - injection Hp as <-. unfold pedido_cancelar.
    abre_handler s pedidoId;
      (split; [simpl; lia|]; split; [toda_saida; done|done]).
  - injection Hp as <-. unfold pedido_entregar.
    abre_handler s pedidoId;
      (split; [simpl; lia|]; split; [toda_saida; done|done]).
  - injection Hp as <-. split; [simpl; lia|]. split; [toda_saida; done|done].
  - destruct (agendados s !! timer) as [novoPedido|]; [|done].
    injection Hp as <-. unfold timeout_callback. simpl.
    destruct (objetos s !! novoPedido) as [np|];
      [|split; [simpl; lia|]; split; [toda_saida|done]].
    abre_handler s (id np);
      (split; [simpl; lia|]; split; [toda_saida; done|done]).
Qed.

Lemma X4_emission_routing_witness :
  length (saidasDe (resultadoDe estadoPendente cancelar1)) ≤ 1
  ∧ (∀ o, o ∈ saidasDe (resultadoDe estadoPendente cancelar1) →
       match o with
       | SocketEmit sock e => socketDe cancelar1 = Some sock ∧ soParaSocket e = true
       | IoEmit e => soParaSocket e = false
       end)
  ∧ (∀ s' out, resultadoDe estadoPendente cancelar1 = Lanca s' out →
       out = [] ∧ ∃ sock agora dados, cancelar1 = PedidoCriar sock agora dados).
Proof.
  apply (X4_emission_routing estadoPendente cancelar1
           (resultadoDe estadoPendente cancelar1)).
  vm_compute; reflexivity.
Defined.

(** An order event is emitted for the object just created, or for the one
    object the event changed; it goes to all sockets and carries the object
    as it stands in the new state. *)
Lemma passo_broadcast s ev r o l q :
  passo s ev = Some r →
  o ∈ saidasDe r →
  pedidoDe (emissaoDe o) = Some (l, q) →
  o = IoEmit (emissaoDe o)
  ∧ objetos (estadoDe r) !! l = Some q
  ∧ l ∈ pedidos (estadoDe r)
  ∧ ((objetos s !! l = None ∧ emissaoDe o = PedidoCriado l q)
     ∨ ∃ p, objetos s !! l = Some p ∧ l ∈ pedidos s ∧ altera ev p q).
Proof.
  destruct ev as [sock|sock agora|sock agora dados|sock pedidoId
                 |sock agora pedidoId|sock agora pedidoId|sock agora pedidoId
                 |sock agora|timer]; simpl; intros Hp.
  - injection Hp as <-. uma_saida. done.
  - injection Hp as <-. uma_saida. done.
  - injection Hp as <-. unfold pedido_criar.
    destruct (sistemaAtivo s); simpl; [|uma_saida; done].
    destruct dados as [|c i]; [uma_saida|].
    destruct (truthy c), (truthy i); simpl; try (uma_saida; done).
    destruct c, i; simpl; uma_saida; try done.
    intros [= <- <-]. split; [done|]. split; [by apply list_lookup_middle|].
    split; [apply elem_of_app; right; by left|].
    left. split; [|done]. by apply lookup_ge_None.
  - injection Hp as <-. unfold pedido_aceitar.
    abre_handler s pedidoId; uma_saida; try done.
    intros [= <- <-]. autorewrite with registro. simpl. split; [done|].
    split; [apply list_lookup_insert_eq; by eapply lookup_lt_Some|].
    split; [done|]. right. eexists. by repeat split.
  - injection Hp as <-. unfold pedido_finalizar.
    abre_handler s pedidoId; uma_saida; try done.
    intros [= <- <-]. split; [done|].
    split; [apply list_lookup_insert_eq; by eapply lookup_lt_Some|].
    split; [done|]. right. eexists. by repeat split.
  - injection Hp as <-. unfold pedido_cancelar.
    abre_handler s pedidoId; uma_saida; try done.
    intros [= <- <-]. autorewrite with registro. simpl. split; [done|].
    split; [apply list_lookup_insert_eq; by eapply lookup_lt_Some|].
    split; [done|]. right. eexists. by repeat split.
  - injection Hp as <-. unfold pedido_entregar.
    abre_handler s pedidoId; uma_saida; try done.
    intros [= <- <-]. split; [done|].
    split; [apply list_lookup_insert_eq; by eapply lookup_lt_Some|].
    split; [done|]. right. eexists. by repeat split.
  - injection Hp as <-. uma_saida. done.
  - destruct (agendados s !! timer) as [novoPedido|]; [|done].
    injection Hp as <-. unfold timeout_callback. simpl.
    destruct (objetos s !! novoPedido) as [np|]; [|uma_saida].
    abre_handler s (id np); uma_saida; try done.
    intros [= <- <-]. split; [done|].
    split; [apply list_lookup_insert_eq; by eapply lookup_lt_Some|].
    split; [done|]. right. eexists. by repeat split.
Qed.

(** X5: every order event the server emits is a broadcast, and the order
    it carries is, field by field, the order the server now stores under
    that reference, which is in the collection. *)
Theorem X5_broadcast_is_stored_order s ev r o l q :
  passo s ev = Some r →
  o ∈ saidasDe r →
  pedidoDe (emissaoDe o) = Some (l, q) →
  o = IoEmit (emissaoDe o)
  ∧ objetos (estadoDe r) !! l = Some q
  ∧ l ∈ pedidos (estadoDe r)
  ∧ q ∈ pedidosDe (estadoDe r).
Proof.
  intros Hp Ho He.
  destruct (passo_broadcast _ _ _ _ _ _ Hp Ho He) as (H1 & H2 & H3 & _).
  repeat split; try done. apply list_elem_of_omap. eauto.
Qed.

Lemma X5_broadcast_is_stored_order_witness :
  IoEmit (PedidoCancelado 0 (pedidoAna Cancelado (Some (js "10:01:00"))))
  = IoEmit (emissaoDe
      (IoEmit (PedidoCancelado 0 (pedidoAna Cancelado (Some (js "10:01:00"))))))
  ∧ objetos (estadoDe (resultadoDe estadoPendente cancelar1)) !! 0%nat
    = Some (pedidoAna Cancelado (Some (js "10:01:00")))
  ∧ 0%nat ∈ pedidos (estadoDe (resultadoDe estadoPendente cancelar1))
  ∧ pedidoAna Cancelado (Some (js "10:01:00"))
    ∈ pedidosDe (estadoDe (resultadoDe estadoPendente cancelar1)).
Proof.
  apply (X5_broadcast_is_stored_order estadoPendente cancelar1
           (resultadoDe estadoPendente cancelar1)
           (IoEmit (PedidoCancelado 0 (pedidoAna Cancelado (Some (js "10:01:00")))))).
  - vm_compute; reflexivity.
  - vm_compute. left.
  - reflexivity.
Defined.

(** ** Looking an order up *)

Lemma find_None objs pedidoId (ps : list loc) :
  find objs pedidoId ps = None
  ↔ pedidoId ∉ id <$> omap (λ l, objs !! l) ps.
Proof.
  induction ps as [|l0 ps IH]; csimpl.
  - split; [intros _ ?%elem_of_nil; done | done].
  - destruct (objs !! l0) as [q|]; csimpl; [|done].
    destruct (Z.eqb_spec (id q) pedidoId) as [E|E].
    + split; [done|]. intros H. destruct H. rewrite E. left.
    + rewrite IH, not_elem_of_cons.
      split; [intros H; split; [congruence | done] | by intros [_ ?]].
Qed.

(** The handler answers that the order was not found exactly when [find]
    finds none. *)
Lemma nao_encontrado_sse s ev r sock pedidoId :
  passo s ev = Some r →
  pedidoIdDe ev = Some pedidoId →
  socketDe ev = Some sock →
  find (objetos s) pedidoId (pedidos s) = None
  ↔ r = Retorna s [SocketEmit sock (ErroOperacao PedidoNaoEncontrado)].
Proof.
  destruct ev as [?|??|???|sock0 pid|sock0 agora pid|sock0 agora pid
                 |sock0 agora pid|??|?]; simpl; intros Hp Hid Hsock;
    try discriminate Hid; injection Hid as ->; injection Hsock as ->;
    injection Hp as <-.
  - unfold pedido_aceitar.
    destruct (find (objetos s) pedidoId (pedidos s)) as [[l p]|]; [|done].
    split; [done|]. by destruct (negb _).
  - unfold pedido_finalizar.
    destruct (find (objetos s) pedidoId (pedidos s)) as [[l p]|]; [|done].
    split; [done|]. by destruct (negb _).
  - unfold pedido_cancelar.
    destruct (find (objetos s) pedidoId (pedidos s)) as [[l p]|]; [|done].
    split; [done|]. by destruct (_ || _).
  - unfold pedido_entregar.
    destruct (find (objetos s) pedidoId (pedidos s)) as [[l p]|]; [|done].
    split; [done|]. by destruct (negb _).
Qed.

(** X6: accept, finalize, cancel and deliver answer 'Pedido não
    encontrado!' exactly when no order of the collection has the id they
    were given; the answer then goes to the caller and the state is
    unchanged. *)
Theorem X6_not_found_iff_absent s ev r sock pedidoId :
  passo s ev = Some r →
  pedidoIdDe ev = Some pedidoId →
  socketDe ev = Some sock →
  pedidoId ∉ id <$> pedidosDe s
  ↔ r = Retorna s [SocketEmit sock (ErroOperacao PedidoNaoEncontrado)].
Proof.
  intros Hp Hid Hsock. unfold pedidosDe. rewrite <- find_None.
  exact (nao_encontrado_sse s ev r sock pedidoId Hp Hid Hsock).
Qed.

Lemma X6_not_found_iff_absent_witness :
  2%Z ∉ id <$> pedidosDe estadoPendente
  ↔ resultadoDe estadoPendente (PedidoEntregar sockA (js "10:00:30") 2)
    = Retorna estadoPendente [SocketEmit sockA (ErroOperacao PedidoNaoEncontrado)].
Proof.
  apply (X6_not_found_iff_absent estadoPendente
           (PedidoEntregar sockA (js "10:00:30") 2)
           (resultadoDe estadoPendente (PedidoEntregar sockA (js "10:00:30") 2))
           sockA 2%Z).
  - vm_compute; reflexivity.
  - reflexivity.
  - reflexivity.
Defined.

(** X7: in a reachable state an id below 1, or not yet given out by the
    counter, is the id of no order: accept, finalize, cancel and deliver
    on it answer 'Pedido não encontrado!' and change nothing. *)
Theorem X7_unassigned_id_not_found s ev r sock pedidoId :
  alcancavel s →
  passo s ev = Some r →
  pedidoIdDe ev = Some pedidoId →
  socketDe ev = Some sock →
  (pedidoId < 1 ∨ proximoId s ≤ pedidoId)%Z →
  r = Retorna s [SocketEmit sock (ErroOperacao PedidoNaoEncontrado)].
Proof.
  intros [(_ & _ & _ & H4) _]%alcancavel_inv Hp Hid Hsock Hrange.
  apply (nao_encontrado_sse _ _ _ _ _ Hp Hid Hsock). apply find_None.
  intros (q & -> & Hq)%list_elem_of_fmap.
  rewrite Forall_forall in H4. specialize (H4 _ Hq). lia.
Qed.

Lemma X7_unassigned_id_not_found_witness :
  resultadoDe estadoPendente (PedidoAceitar sockA 0)
  = Retorna estadoPendente [SocketEmit sockA (ErroOperacao PedidoNaoEncontrado)].
Proof.
  apply (X7_unassigned_id_not_found estadoPendente (PedidoAceitar sockA 0)
           (resultadoDe estadoPendente (PedidoAceitar sockA 0)) sockA 0%Z).
  - apply alcancavel_estadoDepois.
  - vm_compute; reflexivity.
  - reflexivity.
  - reflexivity.
  - left. lia.
Defined.

(** ** Delivered and canceled orders *)

Lemma altera_nao_terminal ev p q : altera ev p q → ¬ terminal (status p).
Proof.
  destruct ev; simpl; try done; intros H [Ht|Ht]; decompose [and] H;
    congruence.
Qed.

(** X8: on an order that is delivered or canceled, each of accept,
    finalize, cancel and deliver fails with InvalidTransition: the error
    goes to the caller only and the state is unchanged. *)
Theorem X8_terminal_orders_reject_actions s pedidoId l p sock agora :
  find (objetos s) pedidoId (pedidos s) = Some (l, p) →
  terminal (status p) →
  passo s (PedidoAceitar sock pedidoId)
    = Some (Retorna s [SocketEmit sock (ErroOperacao ApenasPendentes)])
  ∧ passo s (PedidoFinalizar sock agora pedidoId)
    = Some (Retorna s [SocketEmit sock (ErroOperacao ApenasEmPreparo)])
  ∧ passo s (PedidoCancelar sock agora pedidoId)
    = Some (Retorna s [SocketEmit sock (ErroOperacao NaoPodeCancelar)])
  ∧ passo s (PedidoEntregar sock agora pedidoId)
    = Some (Retorna s [SocketEmit sock (ErroOperacao ApenasProntos)])
  ∧ classe NaoPodeCancelar = InvalidTransition.
Proof.
  intros Hf Ht. simpl.
  unfold pedido_aceitar, pedido_finalizar, pedido_cancelar, pedido_entregar.
  rewrite Hf. destruct Ht as [-> | ->]; simpl; by repeat split.
Qed.

Lemma X8_terminal_orders_reject_actions_witness :
  passo (estadoDepois eventosEntregue) (PedidoAceitar sockA 1)
    = Some (Retorna (estadoDepois eventosEntregue)
              [SocketEmit sockA (ErroOperacao ApenasPendentes)])
  ∧ passo (estadoDepois eventosEntregue) (PedidoFinalizar sockA (js "10:05:00") 1)
    = Some (Retorna (estadoDepois eventosEntregue)
              [SocketEmit sockA (ErroOperacao ApenasEmPreparo)])
  ∧ passo (estadoDepois eventosEntregue) (PedidoCancelar sockA (js "10:05:00") 1)
    = Some (Retorna (estadoDepois eventosEntregue)
              [SocketEmit sockA (ErroOperacao NaoPodeCancelar)])
  ∧ passo (estadoDepois eventosEntregue) (PedidoEntregar sockA (js "10:05:00") 1)
    = Some (Retorna (estadoDepois eventosEntregue)
              [SocketEmit sockA (ErroOperacao ApenasProntos)])
  ∧ classe NaoPodeCancelar = InvalidTransition.
Proof.
  apply (X8_terminal_orders_reject_actions (estadoDepois eventosEntregue) 1%Z
           0%nat pedidoEntregue sockA (js "10:05:00")).
  - vm_compute; reflexivity.
  - left. reflexivity.
Defined.

(** X9: once an order is delivered or canceled, nothing that happens
    afterwards changes any of its fields, and no order event is emitted
    for it again. *)
Theorem X9_terminal_orders_frozen evs : ∀ s s' out l p,
  objetos s !! l = Some p →
  terminal (status p) →
  executa s evs = Some (s', out) →
  objetos s' !! l = Some p
  ∧ ∀ o q, o ∈ out → pedidoDe (emissaoDe o) ≠ Some (l, q).
Proof.
  induction evs as [|ev evs IH]; simpl; intros s s' out l p Hl Ht Hex.
  - injection Hex as <- <-. split; [done|]. by intros o q ?%elem_of_nil.
  - destruct (passo s ev) as [r|] eqn:Hp; [|done].
    destruct (executa (estadoDe r) evs) as [[s1 out1]|] eqn:He; [|done].
    injection Hex as <- <-.
    destruct (passo_objeto _ _ _ _ _ Hp Hl) as (p' & Hl' & [->|Ha]);
      [|by apply altera_nao_terminal in Ha].
    destruct (IH _ _ _ _ _ Hl' Ht He) as [Hfim Hout]. split; [done|].
    intros o q [Ho|Ho]%elem_of_app E; [|by eapply Hout].
    destruct (passo_broadcast _ _ _ _ _ _ Hp Ho E)
      as (_ & _ & _ & [[Hn _]|(p0 & Hp0 & _ & Ha)]); [congruence|].
    rewrite Hl in Hp0. injection Hp0 as <-. by apply altera_nao_terminal in Ha.
Qed.

Lemma X9_terminal_orders_frozen_witness :
  objetos (estadoDepois (eventosEntregue ++ eventosAposEntrega)) !! 0%nat
    = Some pedidoEntregue
  ∧ ∀ o q,
      o ∈ match executa (estadoDepois eventosEntregue) eventosAposEntrega with
          | Some (_, out) => out
          | None => []
          end →
      pedidoDe (emissaoDe o) ≠ Some (0%nat, q).
Proof.
  apply (X9_terminal_orders_frozen eventosAposEntrega
           (estadoDepois eventosEntregue)
           (estadoDepois (eventosEntregue ++ eventosAposEntrega))
           (match executa (estadoDepois eventosEntregue) eventosAposEntrega with
            | Some (_, out) => out
            | None => []
            end) 0%nat pedidoEntregue).
  - vm_compute; reflexivity.
  - left. reflexivity.
  - vm_compute; reflexivity.
Defined.

(** ** Timers and pending orders *)

Lemma ids_unicos_lista (objs : list Pedido) (ps : list loc) l1 l2 q1 q2 :
  NoDup (id <$> omap (λ l, objs !! l) ps) →
  l1 ∈ ps → l2 ∈ ps →
  objs !! l1 = Some q1 → objs !! l2 = Some q2 → id q1 = id q2 → l1 = l2.
Proof.
  intros Hnd H1 H2 Hq1 Hq2 Hid.
  induction ps as [|l0 ps IH]; [by apply elem_of_nil in H1|].
  csimpl in Hnd.
  assert (∀ l q, l ∈ ps → objs !! l = Some q →
                 id q ∈ id <$> omap (λ l, objs !! l) ps) as Hin.
  { intros l q Hl Hq. apply list_elem_of_fmap. exists q. split; [done|].
    apply list_elem_of_omap. eauto. }
  apply elem_of_cons in H1 as [->|H1], H2 as [->|H2]; [done| | |].
  - rewrite Hq1 in Hnd. csimpl in Hnd. apply NoDup_cons in Hnd as [Hn _].
    destruct Hn. rewrite Hid. by eapply Hin.
  - rewrite Hq2 in Hnd. csimpl in Hnd. apply NoDup_cons in Hnd as [Hn _].
    destruct Hn. rewrite <- Hid. by eapply Hin.
  - apply IH; try done. destruct (objs !! l0); csimpl in Hnd; [|done].
    by apply NoDup_cons in Hnd as [_ ?].
Qed.

(** In a state that satisfies the invariants two orders of the collection
    with the same id are the same order. *)
Lemma ids_unicos s l1 l2 q1 q2 :
  invIds s → l1 ∈ pedidos s → l2 ∈ pedidos s →
  objetos s !! l1 = Some q1 → objetos s !! l2 = Some q2 →
  id q1 = id q2 → l1 = l2.
Proof.
  intros (_ & _ & H3 & _). apply ids_unicos_lista.
  by apply StronglySorted_lt_NoDup.
Qed.

(** There, [find] on the id of an order of the collection returns that
    order. *)
Lemma find_unico s l p :
  invIds s → l ∈ pedidos s → objetos s !! l = Some p →
  find (objetos s) (id p) (pedidos s) = Some (l, p).
Proof.
  intros HI Hl Hp.
  destruct (find (objetos s) (id p) (pedidos s)) as [[l1 q]|] eqn:Ef.
  - apply find_Some in Ef as (Hl1 & Hq & Hid).
    assert (l1 = l) as -> by (by eapply ids_unicos).
    rewrite Hp in Hq. by injection Hq as <-.
  - apply find_None in Ef. destruct Ef. apply list_elem_of_fmap.
    exists p. split; [done|]. apply list_elem_of_omap. eauto.
Qed.

(** An order of the collection leaves pending and its timer is cleared. *)
Lemma invPendentes_sai s l p p' :
  inv s → invPendentes s →
  l ∈ pedidos s → objetos s !! l = Some p →
  id p' = id p → status p' ≠ Pendente →
  invPendentes (limparTimer (id p) (com_objetos (<[l := p']> (objetos s)) s)).
Proof.
  intros [HI _] (J1 & J2 & J3) Hl Hp Hid Hst.
  assert (∀ l1 q1, l1 ∈ pedidos s → objetos s !! l1 = Some q1 → l1 ≠ l →
                   id q1 ≠ id p) as Hdif.
  { intros l1 q1 Hl1 Hq1 Hne E. apply Hne. by eapply ids_unicos. }
  assert (∀ l1 q1, <[l := p']> (objetos s) !! l1 = Some q1 →
                   status q1 = Pendente → l1 ≠ l ∧ objetos s !! l1 = Some q1)
    as Hpend.
  { intros l1 q1 Hq1 Hst1. destruct (decide (l1 = l)) as [->|Hne].
    - rewrite list_lookup_insert_eq in Hq1 by (by eapply lookup_lt_Some).
      injection Hq1 as <-. done.
    - by rewrite list_lookup_insert_ne in Hq1. }
  unfold limparTimer. simpl.
  destruct (timersExpiracao s !! id p) as [h|] eqn:Ht; simpl.
  - destruct (J2 _ _ Ht) as (l0 & q0 & Hh & Hq0 & Hid0).
    destruct (J1 _ _ Hh) as (_ & Hl0 & _).
    assert (l0 = l) as -> by (by eapply ids_unicos).
    split; [|split]; simpl.
    + intros h' l' [Hne Hh']%lookup_delete_Some.
      destruct (J1 _ _ Hh') as (? & Hl' & q & Hq & Hstq & Htq).
      assert (l' ≠ l) as Hnel.
      { intros ->. rewrite Hp in Hq. injection Hq as <-. congruence. }
      split; [done|]. split; [done|]. exists q.
      rewrite list_lookup_insert_ne by done. split; [done|]. split; [done|].
      rewrite lookup_delete_ne; [done|]. intros E. by eapply Hdif.
    + intros k hk [Hnek Hk]%lookup_delete_Some.
      destruct (J2 _ _ Hk) as (lk & qk & Hhk & Hqk & Hidk).
      assert (lk ≠ l) as Hnel.
      { intros ->. rewrite Hp in Hqk. injection Hqk as <-. congruence. }
      exists lk, qk. rewrite list_lookup_insert_ne by done.
      split; [|done]. rewrite lookup_delete_ne; [done|].
      intros <-. congruence.
    + intros l1 q1 Hl1 Hq1 Hst1. destruct (Hpend _ _ Hq1 Hst1) as [Hne Hq1'].
      rewrite lookup_delete_ne; [by eapply J3|]. intros E. by eapply Hdif.
  - split; [|split]; simpl.
    + intros h' l' Hh'.
      destruct (J1 _ _ Hh') as (? & Hl' & q & Hq & Hstq & Htq).
      assert (l' ≠ l) as Hnel.
      { intros ->. rewrite Hp in Hq. injection Hq as <-. congruence. }
      split; [done|]. split; [done|]. exists q.
      by rewrite list_lookup_insert_ne.
    + intros k hk Hk.
      destruct (J2 _ _ Hk) as (lk & qk & Hhk & Hqk & Hidk).
      assert (lk ≠ l) as Hnel.
      { intros ->. rewrite Hp in Hqk. injection Hqk as <-. congruence. }
      exists lk, qk. by rewrite list_lookup_insert_ne.
    + intros l1 q1 Hl1 Hq1 Hst1. destruct (Hpend _ _ Hq1 Hst1) as [Hne Hq1'].
      by eapply J3.
Qed.

(** An order that is not pending is rewritten and stays not pending. *)
Lemma invPendentes_insert s l p p' :
  invPendentes s → objetos s !! l = Some p →
  id p' = id p → status p ≠ Pendente → status p' ≠ Pendente →
  invPendentes (com_objetos (<[l := p']> (objetos s)) s).
Proof.
  intros (J1 & J2 & J3) Hp Hid Hst Hst'. split; [|split]; simpl.
  - intros h' l' Hh'.
    destruct (J1 _ _ Hh') as (? & Hl' & q & Hq & Hstq & Htq).
    assert (l' ≠ l) as Hnel.
    { intros ->. rewrite Hp in Hq. injection Hq as <-. congruence. }
    split; [done|]. split; [done|]. exists q.
    by rewrite list_lookup_insert_ne.
  - intros k hk Hk.
    destruct (J2 _ _ Hk) as (lk & qk & Hhk & Hqk & Hidk).
    destruct (J1 _ _ Hhk) as (_ & _ & q & Hq & Hstq & _).
    assert (lk ≠ l) as Hnel.
    { intros ->. rewrite Hp in Hq. injection Hq as <-. congruence. }
    exists lk, qk. by rewrite list_lookup_insert_ne.
  - intros l1 q1 Hl1 Hq1 Hst1. destruct (decide (l1 = l)) as [->|Hne].
    + rewrite list_lookup_insert_eq in Hq1 by (by eapply lookup_lt_Some).
      injection Hq1 as <-. done.
    + rewrite list_lookup_insert_ne in Hq1 by done. by eapply J3.
Qed.

(** A successful ['pedido.criar']. *)
Lemma invPendentes_novoPedido s np :
  inv s → invPendentes s → id np = proximoId s → status np = Pendente →
  invPendentes
    {| sistemaAtivo := sistemaAtivo s;
       pedidos := pedidos s ++ [length (objetos s)];
       proximoId := proximoId s + 1;
       timersExpiracao := <[proximoId s := proximoTimer s]> (timersExpiracao s);
       objetos := objetos s ++ [np];
       agendados := <[proximoTimer s := length (objetos s)]> (agendados s);
       proximoTimer := S (proximoTimer s) |}.
Proof.
  intros [(_ & H2 & _ & _) (H5 & _)] (J1 & J2 & J3) Hid Hst.
  split; [|split]; simpl.
  - intros h l [[<- <-]|[Hne Hh]]%lookup_insert_Some.
    + split; [lia|]. split; [apply elem_of_app; right; by left|].
      exists np. split; [by apply list_lookup_middle|]. split; [done|].
      rewrite Hid. apply lookup_insert_eq.
    + destruct (J1 _ _ Hh) as (? & Hl & q & Hq & Hstq & Htq).
      split; [lia|]. split; [apply elem_of_app; by left|].
      exists q. split; [by apply lookup_app_l_Some|]. split; [done|].
      rewrite lookup_insert_ne; [done|]. specialize (H5 _ _ Htq). lia.
  - intros k h [[<- <-]|[Hne Hk]]%lookup_insert_Some.
    + exists (length (objetos s)), np.
      split; [apply lookup_insert_eq|]. split; [by apply list_lookup_middle|done].
    + destruct (J2 _ _ Hk) as (lk & qk & Hhk & Hqk & Hidk).
      destruct (J1 _ _ Hhk) as (? & _).
      exists lk, qk. split; [rewrite lookup_insert_ne; [done|lia]|].
      split; [by apply lookup_app_l_Some|done].
  - intros l q [Hl|Hl]%elem_of_app Hq Hstq;
      [|apply list_elem_of_singleton in Hl as ->].
    + rewrite Forall_forall in H2. destruct (H2 _ Hl) as [q0 Hq0].
      rewrite (lookup_app_l_Some _ _ _ _ Hq0) in Hq. injection Hq as <-.
      destruct (J3 _ _ Hl Hq0 Hstq) as [h Hh].
      destruct (decide (proximoId s = id q0)) as [E|E].
      * rewrite E. rewrite lookup_insert_eq. done.
      * rewrite lookup_insert_ne by done. eauto.
    + rewrite list_lookup_middle in Hq by done. injection Hq as <-.
      rewrite Hid, lookup_insert_eq. done.
Qed.

Lemma invPendentes_inicial : invPendentes inicial.
Proof.
  split; [|split]; simpl.
  - intros h l. by rewrite lookup_empty.
  - intros k h. by rewrite lookup_empty.
  - by intros l p ?%elem_of_nil.
Qed.

(** In a state that satisfies the invariants a timeout that fires finds its
    order pending: the callback sets it to expired, broadcasts it and
    deletes the entry of the map. *)
Lemma passo_timeout_expira s h l :
  inv s → invPendentes s → agendados s !! h = Some l →
  ∃ p, objetos s !! l = Some p ∧ status p = Pendente ∧ l ∈ pedidos s
       ∧ passo s (Timeout h)
         = Some (Retorna
                   (limparTimer (id p)
                      (com_objetos (<[l := com_status Expirado p]> (objetos s)) s))
                   [IoEmit (PedidoExpirado l (com_status Expirado p))]).
Proof.
  intros [HI _] (J1 & _ & _) Hh.
  destruct (J1 _ _ Hh) as (_ & Hl & p & Hp & Hst & Ht).
  exists p. split; [done|]. split; [done|]. split; [done|].
  simpl. rewrite Hh. unfold timeout_callback. simpl. rewrite Hp.
  rewrite (find_unico s l p HI Hl Hp).
  rewrite bool_decide_eq_true_2 by done.
  unfold limparTimer. simpl. by rewrite Ht.
Qed.

(** The invariant is kept by every turn of the event loop. *)
Lemma invPendentes_passo s ev r :
  inv s → invPendentes s → passo s ev = Some r → invPendentes (estadoDe r).
Proof.
  intros Hinv HJ.
  destruct ev as [sock|sock agora|sock agora dados|sock pedidoId
                 |sock agora pedidoId|sock agora pedidoId|sock agora pedidoId
                 |sock agora|timer]; simpl.
  - by intros [= <-].
  - by intros [= <-].
  - intros [= <-]. unfold pedido_criar.
    destruct (sistemaAtivo s); simpl; [|done].
    destruct dados as [|c i]; [done|].
    destruct (truthy c), (truthy i); simpl; try done.
    destruct c, i; simpl; try done.
    by apply invPendentes_novoPedido.
  - intros [= <-]. unfold pedido_aceitar.
    abre_handler s pedidoId; try done. subst pedidoId.
    by eapply invPendentes_sai.
  - intros [= <-]. unfold pedido_finalizar.
    abre_handler s pedidoId; try done.
    eapply invPendentes_insert; try done. congruence.
  - intros [= <-]. unfold pedido_cancelar.
    abre_handler s pedidoId; try done. subst pedidoId.
    by eapply invPendentes_sai.
  - intros [= <-]. unfold pedido_entregar.
    abre_handler s pedidoId; try done.
    eapply invPendentes_insert; try done. congruence.
  - intros [= <-]. destruct Hinv as [_ (_ & H6)]. split; [|split]; simpl.
    + intros h l [Hh Hm]%forEach_clearTimeout.
      destruct (H6 _ _ Hh) as (q & _ & Ht). by destruct (Hm (id q)).
    + intros k h. by rewrite lookup_empty.
    + by intros l p ?%elem_of_nil.
  - destruct (agendados s !! timer) as [l|] eqn:Hh; [|done].
    destruct (passo_timeout_expira _ _ _ Hinv HJ Hh)
      as (p & Hp & Hst & Hl & Hpasso).
    simpl in Hpasso. rewrite Hh in Hpasso. rewrite Hpasso.
    intros [= <-]. simpl. by eapply invPendentes_sai.
Qed.

Lemma alcancavel_invPendentes s : alcancavel s → invPendentes s.
Proof.
  induction 1 as [|s ev r Hs IH Hp]; [apply invPendentes_inicial|].
  eapply invPendentes_passo; [|exact IH|exact Hp]. by apply alcancavel_inv.
Qed.

(** X10: in every reachable state an order of the collection is pending
    exactly when a timeout is scheduled for it, and that timeout is the one
    the map stores under its id; every scheduled timeout is for an order of
    the collection; and every timeout stored in the map is still
    scheduled. *)
Theorem X10_scheduled_iff_pending s :
  alcancavel s →
  (∀ l p, l ∈ pedidos s → objetos s !! l = Some p →
     (status p = Pendente
      ↔ ∃ h, agendados s !! h = Some l ∧ timersExpiracao s !! id p = Some h))
  ∧ (∀ h l, agendados s !! h = Some l → l ∈ pedidos s)
  ∧ (∀ k h, timersExpiracao s !! k = Some h → is_Some (agendados s !! h)).
Proof.
  intros Hs. pose proof (alcancavel_inv _ Hs) as [HI _].
  pose proof (alcancavel_invPendentes _ Hs) as (J1 & J2 & J3).
  split; [|split].
  - intros l p Hl Hp. split.
    + intros Hst. destruct (J3 _ _ Hl Hp Hst) as [h Ht]. exists h.
      split; [|done].
      destruct (J2 _ _ Ht) as (l0 & q0 & Hh & Hq0 & Hid0).
      destruct (J1 _ _ Hh) as (_ & Hl0 & _).
      by rewrite <- (ids_unicos s l0 l q0 p HI Hl0 Hl Hq0 Hp Hid0).
    + intros (h & Hh & _). destruct (J1 _ _ Hh) as (_ & _ & q & Hq & Hst & _).
      rewrite Hp in Hq. by injection Hq as <-.
  - intros h l Hh. by destruct (J1 _ _ Hh) as (_ & ? & _).
  - intros k h Ht. destruct (J2 _ _ Ht) as (l & _ & Hh & _). eauto.
Qed.

Lemma X10_scheduled_iff_pending_witness :
  (∀ l p, l ∈ pedidos (estadoDepois eventosUmPendente) →
     objetos (estadoDepois eventosUmPendente) !! l = Some p →
     (status p = Pendente
      ↔ ∃ h, agendados (estadoDepois eventosUmPendente) !! h = Some l
             ∧ timersExpiracao (estadoDepois eventosUmPendente) !! id p = Some h))
  ∧ (∀ h l, agendados (estadoDepois eventosUmPendente) !! h = Some l →
            l ∈ pedidos (estadoDepois eventosUmPendente))
  ∧ (∀ k h, timersExpiracao (estadoDepois eventosUmPendente) !! k = Some h →
            is_Some (agendados (estadoDepois eventosUmPendente) !! h)).
Proof.
  apply (X10_scheduled_iff_pending (estadoDepois eventosUmPendente)).
  apply alcancavel_estadoDepois.
Defined.

(** X11: in every reachable state at most one timeout is scheduled for an
    order, and the map stores a timeout under at most one id. *)
Theorem X11_one_timer_per_order s :
  alcancavel s →
  (∀ h1 h2 l, agendados s !! h1 = Some l → agendados s !! h2 = Some l → h1 = h2)
  ∧ (∀ k1 k2 h, timersExpiracao s !! k1 = Some h →
                timersExpiracao s !! k2 = Some h → k1 = k2).
Proof.
  intros (J1 & J2 & _)%alcancavel_invPendentes. split.
  - intros h1 h2 l Hh1 Hh2.
    destruct (J1 _ _ Hh1) as (_ & _ & q1 & Hq1 & _ & Ht1).
    destruct (J1 _ _ Hh2) as (_ & _ & q2 & Hq2 & _ & Ht2).
    rewrite Hq1 in Hq2. injection Hq2 as <-. congruence.
  - intros k1 k2 h Hk1 Hk2.
    destruct (J2 _ _ Hk1) as (l1 & q1 & Hh1 & Hq1 & <-).
    destruct (J2 _ _ Hk2) as (l2 & q2 & Hh2 & Hq2 & <-).
    rewrite Hh1 in Hh2. injection Hh2 as <-. congruence.
Qed.

Lemma X11_one_timer_per_order_witness :
  (∀ h1 h2 l, agendados (estadoDepois eventosUmPendente) !! h1 = Some l →
              agendados (estadoDepois eventosUmPendente) !! h2 = Some l → h1 = h2)
  ∧ (∀ k1 k2 h, timersExpiracao (estadoDepois eventosUmPendente) !! k1 = Some h →
                timersExpiracao (estadoDepois eventosUmPendente) !! k2 = Some h →
                k1 = k2).
Proof.
  apply (X11_one_timer_per_order (estadoDepois eventosUmPendente)).
  apply alcancavel_estadoDepois.
Defined.

(** X12: in a reachable state the test of the timeout callback never
    fails: whenever a scheduled timeout fires, its order is in the
    collection and pending, and the callback sets it to expired, broadcasts
    it, deletes the entry of the map and leaves the collection, the counter
    and the flag as they were. *)
Theorem X12_timeout_always_expires s h l :
  alcancavel s →
  agendados s !! h = Some l →
  ∃ p s',
    objetos s !! l = Some p ∧ status p = Pendente ∧ l ∈ pedidos s
    ∧ passo s (Timeout h)
      = Some (Retorna s' [IoEmit (PedidoExpirado l (com_status Expirado p))])
    ∧ objetos s' !! l = Some (com_status Expirado p)
    ∧ timersExpiracao s' !! id p = None
    ∧ agendados s' !! h = None
    ∧ mesmasVariaveis s s'.
Proof.
  intros Hs Hh. pose proof (alcancavel_inv _ Hs) as Hinv.
  pose proof (alcancavel_invPendentes _ Hs) as HJ.
  destruct (passo_timeout_expira _ _ _ Hinv HJ Hh) as (p & Hp & Hst & Hl & Hpasso).
  destruct HJ as (J1 & _ & _).
  destruct (J1 _ _ Hh) as (_ & _ & q & Hq & _ & Ht).
  rewrite Hp in Hq. injection Hq as <-.
  eexists p, _. split; [done|]. split; [done|]. split; [done|].
  split; [exact Hpasso|]. autorewrite with registro. simpl.
  split; [apply list_lookup_insert_eq; by eapply lookup_lt_Some|].
  unfold limparTimer. simpl. rewrite Ht. simpl.
  split; [apply lookup_delete_eq|]. split; [apply lookup_delete_eq|].
  unfold mesmasVariaveis. simpl. by rewrite length_insert.
Qed.

Lemma X12_timeout_always_expires_witness :
  ∃ p s',
    objetos (estadoDepois eventosUmPendente) !! 1%nat = Some p
    ∧ status p = Pendente ∧ 1%nat ∈ pedidos (estadoDepois eventosUmPendente)
    ∧ passo (estadoDepois eventosUmPendente) (Timeout 1)
      = Some (Retorna s' [IoEmit (PedidoExpirado 1 (com_status Expirado p))])
    ∧ objetos s' !! 1%nat = Some (com_status Expirado p)
    ∧ timersExpiracao s' !! id p = None
    ∧ agendados s' !! 1%nat = None
    ∧ mesmasVariaveis (estadoDepois eventosUmPendente) s'.
Proof.
  apply (X12_timeout_always_expires (estadoDepois eventosUmPendente) 1%nat 1%nat).
  - apply alcancavel_estadoDepois.
  - vm_compute; reflexivity.
Defined.

(** ** Trimming *)

Lemma rev_reverse {A} (l : list A) : rev l = reverse l.
Proof. apply rev_alt. Qed.

Lemma trimStart_head s c : head (trimStart s) = Some c → espacoJs c = false.
Proof.
  induction s as [|c0 s IH]; simpl; [done|].
  destruct (espacoJs c0) eqn:E; [done|]. simpl. by intros [= <-].
Qed.

Lemma trimStart_fixo s :
  (∀ c, head s = Some c → espacoJs c = false) → trimStart s = s.
Proof. destruct s as [|c s]; simpl; [done|]. intros H. by rewrite (H c). Qed.

Lemma trimStart_decomp s :
  ∃ a, s = a ++ trimStart s ∧ Forall (λ c, espacoJs c = true) a.
Proof.
  induction s as [|c s (a & Ha & Hf)]; simpl; [by exists []|].
  destruct (espacoJs c) eqn:E; [|by exists []].
  exists (c :: a). split; [by rewrite Ha at 1 | by constructor].
Qed.

Lemma trimStart_last s c : last (trimStart s) = Some c → last s = Some c.
Proof.
  destruct (trimStart_decomp s) as (a & Ha & _). intros Hl.
  rewrite Ha, last_app, Hl. done.
Qed.

(** [trim] leaves no whitespace at either end. *)
Lemma trim_aparado s : aparado (trim s).
Proof.
  unfold trim, trimEnd. rewrite !rev_reverse. split; intros c.
  - rewrite head_reverse. intros Hl%trimStart_last.
    rewrite last_reverse in Hl. by apply trimStart_head in Hl.
  - rewrite last_reverse. apply trimStart_head.
Qed.

(** [trim] changes nothing in a string that has no whitespace at its
    ends. *)
Lemma trim_fixo t : aparado t → trim t = t.
Proof.
  intros [Hh Hl]. unfold trim, trimEnd. rewrite (trimStart_fixo t Hh).
  rewrite !rev_reverse, trimStart_fixo; [apply reverse_involutive|].
  intros c. rewrite head_reverse. apply Hl.
Qed.

(** [trim] removes a run of whitespace from each end and nothing else. *)
Lemma trim_decomp s :
  ∃ a b, s = a ++ trim s ++ b
         ∧ Forall (λ c, espacoJs c = true) a
         ∧ Forall (λ c, espacoJs c = true) b.
Proof.
  destruct (trimStart_decomp s) as (a & Ha & Hfa).
  destruct (trimStart_decomp (rev (trimStart s))) as (b & Hb & Hfb).
  exists a, (reverse b). split; [|split; [done | by apply Forall_reverse]].
  unfold trim, trimEnd. rewrite Ha at 1. f_equal.
  apply (f_equal reverse) in Hb.
  rewrite reverse_app, rev_reverse, reverse_involutive in Hb.
  by rewrite !rev_reverse.
Qed.

(** X13: the cliente and the itens that ['pedido.criar'] stores are the
    payload strings with a run of whitespace taken off each end and nothing
    else changed, and no whitespace is left at either end. *)
Theorem X13_stored_text_is_payload_trimmed s sock agora dc di :
  sistemaAtivo s = true → dc ≠ [] → di ≠ [] →
  ∃ s' l np a b a' b',
    passo s (PedidoCriar sock agora (DObj (CStr dc) (CStr di)))
      = Some (Retorna s' [IoEmit (PedidoCriado l np)])
    ∧ objetos s' !! l = Some np
    ∧ dc = a ++ cliente np ++ b ∧ di = a' ++ itens np ++ b'
    ∧ Forall (λ c, espacoJs c = true) (a ++ b ++ a' ++ b')
    ∧ aparado (cliente np) ∧ aparado (itens np).
Proof.
  intros Hat Hc Hi.
  destruct (trim_decomp dc) as (a & b & Ha & Hfa & Hfb).
  destruct (trim_decomp di) as (a' & b' & Ha' & Hfa' & Hfb').
  eexists _, _, _, a, b, a', b'. simpl. unfold pedido_criar. rewrite Hat. simpl.
  rewrite !bool_decide_eq_false_2 by done. simpl.
  split; [reflexivity|]. simpl.
  split; [by apply list_lookup_middle|]. split; [done|]. split; [done|].
  split; [by rewrite !Forall_app|]. split; apply trim_aparado.
Qed.

Lemma X13_stored_text_is_payload_trimmed_witness :
  ∃ s' l np a b a' b',
    passo estadoAtivo (PedidoCriar sockB (js "10:00:05")
                         (DObj (CStr (js "  Ana ")) (CStr (js "Pizza"))))
      = Some (Retorna s' [IoEmit (PedidoCriado l np)])
    ∧ objetos s' !! l = Some np
    ∧ js "  Ana " = a ++ cliente np ++ b ∧ js "Pizza" = a' ++ itens np ++ b'
    ∧ Forall (λ c, espacoJs c = true) (a ++ b ++ a' ++ b')
    ∧ aparado (cliente np) ∧ aparado (itens np).
Proof.
  apply (X13_stored_text_is_payload_trimmed estadoAtivo sockB (js "10:00:05")
           (js "  Ana ") (js "Pizza")).
  - reflexivity.
  - vm_compute; discriminate.
  - vm_compute; discriminate.
Defined.

(** ** What every order object satisfies *)

(** The object a turn of the event loop allocates is the [novoPedido] of
    ['pedido.criar']. *)
Lemma passo_novo s ev r np :
  passo s ev = Some r →
  objetos (estadoDe r) = objetos s ++ [np] →
  ∃ sock agora dc di,
    np = {| id := proximoId s; cliente := trim dc; itens := trim di;
            status := Pendente; criadoEm := agora; socketId := sock;
            prontoEm := None; canceladoEm := None; entregueEm := None |}.
Proof.
  intros Hp Hobjs.
  assert (length (objetos (estadoDe r)) = S (length (objetos s))) as Hlen.
  { rewrite Hobjs, length_app. simpl. lia. }
  destruct (acaoDe ev) as [a|] eqn:Ha.
  { destruct (passo_mesmasVariaveis _ _ _ Hp (mk_is_Some _ _ Ha)) as (_ & _ & _ & E).
    lia. }
  destruct ev as [sock|sock agora|sock agora dados| | | | |sock agora|];
    try discriminate Ha; simpl in Hp; injection Hp as <-; simpl in *; try lia.
  unfold pedido_criar in *.
  destruct (sistemaAtivo s); simpl in *; [|lia].
  destruct dados as [|c i]; simpl in *; [lia|].
  destruct (truthy c), (truthy i); simpl in *; try lia.
  destruct c, i; simpl in *; try lia.
  apply app_inv_head in Hobjs. injection Hobjs as <-. by eexists _, _, _, _.
Qed.

(** A property that holds of every [novoPedido] and that no change a handler
    makes to an order breaks holds of every order object of every reachable
    state. *)
Lemma objetos_invariante (P : Pedido → Prop) :
  (∀ sock agora dc di n,
     P {| id := n; cliente := trim dc; itens := trim di; status := Pendente;
          criadoEm := agora; socketId := sock; prontoEm := None;
          canceladoEm := None; entregueEm := None |}) →
  (∀ ev p p', altera ev p p' → P p → P p') →
  ∀ s, alcancavel s → ∀ l p, objetos s !! l = Some p → P p.
Proof.
  intros Hnovo Haltera s Hs.
  induction Hs as [|s ev r Hs IH Hp];
    [intros l p Hl; simpl in Hl; by rewrite lookup_nil in Hl|].
  intros l p' Hl'.
  destruct (passo_mudanca _ _ _ Hp) as [E|???? _ E|l0 p0 p0' H0 Ha E].
  - rewrite E in Hl'. by eapply IH.
  - destruct (passo_novo _ _ _ _ Hp E) as (sock0 & agora0 & dc & di & ->).
    rewrite E in Hl'. apply lookup_app_Some in Hl' as [Hl'|[_ Hl']].
    + by eapply IH.
    + apply list_lookup_singleton_Some in Hl' as [_ <-]. apply Hnovo.
  - rewrite E in Hl'. destruct (decide (l0 = l)) as [->|Hne].
    + rewrite list_lookup_insert_eq in Hl' by (by eapply lookup_lt_Some).
      injection Hl' as <-. eapply Haltera; [exact Ha|]. by eapply IH.
    + rewrite list_lookup_insert_ne in Hl' by done. by eapply IH.
Qed.

(** X14: in every reachable state the cliente and the itens of every order
    ever created have no whitespace at either end, so that trimming them
    again changes nothing. *)
Theorem X14_stored_text_trimmed s l p :
  alcancavel s →
  objetos s !! l = Some p →
  aparado (cliente p) ∧ aparado (itens p)
  ∧ trim (cliente p) = cliente p ∧ trim (itens p) = itens p.
Proof.
  intros Hs Hl.
  assert (aparado (cliente p) ∧ aparado (itens p)) as [Hc Hi].
  { revert s Hs l p Hl.
    apply (objetos_invariante (λ p, aparado (cliente p) ∧ aparado (itens p))).
    - intros. simpl. split; apply trim_aparado.
    - intros ev p p' (_ & -> & -> & _)%altera_mesmosCampos. done. }
  repeat split; try apply Hc; try apply Hi; by apply trim_fixo.
Qed.

Lemma X14_stored_text_trimmed_witness :
  aparado (cliente (pedidoAna Expirado None))
  ∧ aparado (itens (pedidoAna Expirado None))
  ∧ trim (cliente (pedidoAna Expirado None)) = cliente (pedidoAna Expirado None)
  ∧ trim (itens (pedidoAna Expirado None)) = itens (pedidoAna Expirado None).
Proof.
  apply (X14_stored_text_trimmed estadoExpirado 0%nat (pedidoAna Expirado None)).
  - apply alcancavel_estadoDepois.
  - vm_compute; reflexivity.
Defined.

Lemma altera_carimbos ev p p' : altera ev p p' → carimbos p → carimbos p'.
Proof.
  unfold carimbos.
  destruct ev; simpl; try done; intros H Hc; decompose [and] H; subst p';
    simpl; destruct (status p); try done; intuition eauto.
Qed.

(** X15: in every reachable state the timestamps of an order tell how far
    it got: a pending, preparing or expired order has none; a ready order
    has prontoEm only; a delivered order has prontoEm and entregueEm and no
    canceladoEm; a canceled order has canceladoEm and no entregueEm. *)
Theorem X15_timestamps_follow_status s l p :
  alcancavel s →
  objetos s !! l = Some p →
  carimbos p.
Proof.
  intros Hs Hl. revert s Hs l p Hl. apply (objetos_invariante carimbos).
  - intros. by repeat split.
  - apply altera_carimbos.
Qed.

Lemma X15_timestamps_follow_status_witness : carimbos pedidoEntregue.
Proof.
  apply (X15_timestamps_follow_status (estadoDepois eventosEntregue) 0%nat
           pedidoEntregue).
  - apply alcancavel_estadoDepois.
  - vm_compute; reflexivity.
Defined.

(** ** How the operations compose *)

(** Rewriting the found order without touching its id does not change
    which order [find] returns. *)
Lemma find_insert_Some objs pedidoId (ps : list loc) l p p' :
  find objs pedidoId ps = Some (l, p) → id p' = id p →
  find (<[l := p']> objs) pedidoId ps = Some (l, p').
Proof.
  intros Hf Hid. pose proof (find_Some _ _ _ _ _ Hf) as (_ & Hl & Hpid).
  induction ps as [|l0 ps IH]; simpl in *; [done|].
  destruct (decide (l0 = l)) as [->|Hne].
  - rewrite list_lookup_insert_eq by (by eapply lookup_lt_Some).
    rewrite Hid, Hpid, Z.eqb_refl. done.
  - rewrite list_lookup_insert_ne by done.
    destruct (objs !! l0) as [q0|]; [|by apply IH].
    destruct (id q0 =? pedidoId)%Z; [|by apply IH].
    injection Hf as -> _. done.
Qed.

Lemma find_limparTimer pedidoId k s :
  find (objetos (limparTimer k s)) pedidoId (pedidos (limparTimer k s))
  = find (objetos s) pedidoId (pedidos s).
Proof. by autorewrite with registro. Qed.

(** The state and the order after a successful ['pedido.criar']. *)
Lemma pedido_criar_ok s sock agora dc di :
  inv s → sistemaAtivo s = true → dc ≠ [] → di ≠ [] →
  ∃ s', passo s (PedidoCriar sock agora (DObj (CStr dc) (CStr di)))
        = Some (Retorna s'
                  [IoEmit (PedidoCriado (length (objetos s))
                     (pedidoCom (proximoId s) dc di sock agora Pendente None None))])
        ∧ inv s'
        ∧ pedidos s' = pedidos s ++ [length (objetos s)]
        ∧ objetos s' = objetos s
                       ++ [pedidoCom (proximoId s) dc di sock agora Pendente None None]
        ∧ proximoId s' = (proximoId s + 1)%Z
        ∧ find (objetos s') (proximoId s) (pedidos s')
          = Some (length (objetos s),
                  pedidoCom (proximoId s) dc di sock agora Pendente None None).
Proof.
  intros Hinv Hat Hc Hi. eexists. simpl. unfold pedido_criar. rewrite Hat. simpl.
  rewrite !bool_decide_eq_false_2 by done. simpl.
  split; [reflexivity|].
  pose proof (inv_novoPedido s
    (pedidoCom (proximoId s) dc di sock agora Pendente None None) Hinv eq_refl)
    as Hinv'.
  split; [exact Hinv'|]. simpl. repeat split.
  destruct Hinv' as [HI' _].
  apply (find_unico _ (length (objetos s))
           (pedidoCom (proximoId s) dc di sock agora Pendente None None) HI').
  - simpl. apply elem_of_app. right. by left.
  - simpl. by apply list_lookup_middle.
Qed.

(** X16: an order just created is found under its id: from a reachable
    state with the system active, create (two non-empty strings), accept,
    finalize and deliver on the id the order was given all succeed, one
    after the other; four broadcasts carry the order as it moves from
    pending to delivered, and the delivered order holds both timestamps. *)
Theorem X16_create_accept_finalize_deliver s sock agora dc di sock' t2 t3 :
  alcancavel s → sistemaAtivo s = true → dc ≠ [] → di ≠ [] →
  ∃ s',
    executa s [PedidoCriar sock agora (DObj (CStr dc) (CStr di));
               PedidoAceitar sock' (proximoId s);
               PedidoFinalizar sock' t2 (proximoId s);
               PedidoEntregar sock' t3 (proximoId s)]
    = Some (s',
        [IoEmit (PedidoCriado (length (objetos s))
           (pedidoCom (proximoId s) dc di sock agora Pendente None None));
         IoEmit (PedidoAceito (length (objetos s))
           (pedidoCom (proximoId s) dc di sock agora Preparando None None));
         IoEmit (PedidoFinalizado (length (objetos s))
           (pedidoCom (proximoId s) dc di sock agora Pronto (Some t2) None));
         IoEmit (PedidoEntregue (length (objetos s))
           (pedidoCom (proximoId s) dc di sock agora Entregue (Some t2) (Some t3)))])
    ∧ objetos s' !! length (objetos s)
      = Some (pedidoCom (proximoId s) dc di sock agora Entregue (Some t2) (Some t3))
    ∧ pedidos s' = pedidos s ++ [length (objetos s)].
Proof.
  intros Hs%alcancavel_inv Hat Hc Hi.
  destruct (pedido_criar_ok s sock agora dc di Hs Hat Hc Hi)
    as (s1 & Hp1 & _ & Hps1 & Hobjs1 & _ & Hf1).
  set (l := length (objetos s)) in *. set (n := proximoId s) in *.
  assert (l < length (objetos s1)) as Hlen.
  { rewrite Hobjs1, length_app. simpl. lia. }
  (* accept *)
  set (p2 := pedidoCom n dc di sock agora Preparando None None).
  set (s2 := limparTimer n (com_objetos (<[l := p2]> (objetos s1)) s1)).
  assert (passo s1 (PedidoAceitar sock' n)
          = Some (Retorna s2 [IoEmit (PedidoAceito l p2)])) as Hp2.
  { simpl. unfold pedido_aceitar. by rewrite Hf1. }
  assert (find (objetos s2) n (pedidos s2) = Some (l, p2)) as Hf2.
  { unfold s2. rewrite find_limparTimer. simpl.
    by apply (find_insert_Some _ _ _ _ _ p2 Hf1). }
  (* finalize *)
  set (p3 := pedidoCom n dc di sock agora Pronto (Some t2) None).
  set (s3 := com_objetos (<[l := p3]> (objetos s2)) s2).
  assert (passo s2 (PedidoFinalizar sock' t2 n)
          = Some (Retorna s3 [IoEmit (PedidoFinalizado l p3)])) as Hp3.
  { simpl. unfold pedido_finalizar. by rewrite Hf2. }
  assert (find (objetos s3) n (pedidos s3) = Some (l, p3)) as Hf3.
  { unfold s3. simpl. by apply (find_insert_Some _ _ _ _ _ p3 Hf2). }
  (* deliver *)
  set (p4 := pedidoCom n dc di sock agora Entregue (Some t2) (Some t3)).
  set (s4 := com_objetos (<[l := p4]> (objetos s3)) s3).
  assert (passo s3 (PedidoEntregar sock' t3 n)
          = Some (Retorna s4 [IoEmit (PedidoEntregue l p4)])) as Hp4.
  { simpl. unfold pedido_entregar. by rewrite Hf3. }
  exists s4. split; [|split].
  - cbn [executa]. rewrite Hp1. cbn [executa estadoDe]. rewrite Hp2.
    cbn [executa estadoDe]. rewrite Hp3. cbn [executa estadoDe]. rewrite Hp4.
    reflexivity.
  - unfold s4, s3, s2. simpl. autorewrite with registro. simpl.
    apply list_lookup_insert_eq. by rewrite !length_insert.
  - unfold s4, s3, s2. simpl. by autorewrite with registro.
Qed.

Lemma X16_create_accept_finalize_deliver_witness :
  ∃ s',
    executa estadoAtivo
      [PedidoCriar sockB (js "10:00:05") (DObj (CStr (js "  Ana ")) (CStr (js "Pizza")));
       PedidoAceitar sockA (proximoId estadoAtivo);
       PedidoFinalizar sockA (js "10:03:00") (proximoId estadoAtivo);
       PedidoEntregar sockA (js "10:04:00") (proximoId estadoAtivo)]
    = Some (s',
        [IoEmit (PedidoCriado (length (objetos estadoAtivo))
           (pedidoCom (proximoId estadoAtivo) (js "  Ana ") (js "Pizza") sockB
              (js "10:00:05") Pendente None None));
         IoEmit (PedidoAceito (length (objetos estadoAtivo))
           (pedidoCom (proximoId estadoAtivo) (js "  Ana ") (js "Pizza") sockB
              (js "10:00:05") Preparando None None));
         IoEmit (PedidoFinalizado (length (objetos estadoAtivo))
           (pedidoCom (proximoId estadoAtivo) (js "  Ana ") (js "Pizza") sockB
              (js "10:00:05") Pronto (Some (js "10:03:00")) None));
         IoEmit (PedidoEntregue (length (objetos estadoAtivo))
           (pedidoCom (proximoId estadoAtivo) (js "  Ana ") (js "Pizza") sockB
              (js "10:00:05") Entregue (Some (js "10:03:00"))
              (Some (js "10:04:00"))))])
    ∧ objetos s' !! length (objetos estadoAtivo)
      = Some (pedidoCom (proximoId estadoAtivo) (js "  Ana ") (js "Pizza") sockB
                (js "10:00:05") Entregue (Some (js "10:03:00"))
                (Some (js "10:04:00")))
    ∧ pedidos s' = pedidos estadoAtivo ++ [length (objetos estadoAtivo)].
Proof.
  apply (X16_create_accept_finalize_deliver estadoAtivo sockB (js "10:00:05")
           (js "  Ana ") (js "Pizza") sockA (js "10:03:00") (js "10:04:00")).
  - apply alcancavel_estadoDepois.
  - reflexivity.
  - vm_compute; discriminate.
  - vm_compute; discriminate.
Defined.

(** X17: when a handler throws.  The only throw is the TypeError of
    ['pedido.criar'], and it happens exactly when the system is active and
    either the payload is [undefined] or [null], or cliente and itens are
    both truthy and one of them is not a string.  At the throw nothing has
    been emitted, stored or scheduled; in the second case [proximoId++] has
    already been evaluated, so the counter is one more than it was, and in
    the first it is as it was. *)
Theorem X17_when_create_throws s ev r :
  passo s ev = Some r →
  ((∃ s1 out, r = Lanca s1 out)
   ↔ ∃ sock agora dados,
       ev = PedidoCriar sock agora dados ∧ sistemaAtivo s = true
       ∧ (dados = DNulo
          ∨ ∃ c i, dados = DObj c i ∧ truthy c = true ∧ truthy i = true
                   ∧ ehString c && ehString i = false))
  ∧ (∀ s1 out, r = Lanca s1 out →
       out = []
       ∧ sistemaAtivo s1 = sistemaAtivo s ∧ pedidos s1 = pedidos s
       ∧ objetos s1 = objetos s ∧ timersExpiracao s1 = timersExpiracao s
       ∧ agendados s1 = agendados s ∧ proximoTimer s1 = proximoTimer s
       ∧ proximoId s1 = match ev with
                        | PedidoCriar _ _ (DObj _ _) => (proximoId s + 1)%Z
                        | _ => proximoId s
                        end).
Proof.
  intros Hp. split; [split|].
  - intros (s1 & out & ->).
    destruct ev as [sock|sock agora|sock agora dados|sock pedidoId
                   |sock agora pedidoId|sock agora pedidoId|sock agora pedidoId
                   |sock agora|timer]; simpl in Hp.
    + by injection Hp.
    + by injection Hp.
    + injection Hp as Hp. unfold pedido_criar in Hp.
      exists sock, agora, dados. split; [done|].
      destruct (sistemaAtivo s); [|discriminate Hp]. split; [done|].
      destruct dados as [|c i]; [by left|right]. exists c, i. simpl in Hp.
      destruct (truthy c); [|discriminate Hp].
      destruct (truthy i); [|discriminate Hp].
      repeat split. by destruct c, i.
    + injection Hp as Hp. unfold pedido_aceitar in Hp.
      destruct (find _ _ _) as [[l p]|]; [|done]. by destruct (negb _).
    + injection Hp as Hp. unfold pedido_finalizar in Hp.
      destruct (find _ _ _) as [[l p]|]; [|done]. by destruct (negb _).
    + injection Hp as Hp. unfold pedido_cancelar in Hp.
      destruct (find _ _ _) as [[l p]|]; [|done]. by destruct (_ || _).
    + injection Hp as Hp. unfold pedido_entregar in Hp.
      destruct (find _ _ _) as [[l p]|]; [|done]. by destruct (negb _).
    + by injection Hp.
    + destruct (agendados s !! timer) as [np|]; [|done]. injection Hp as Hp.
      unfold timeout_callback in Hp.
      destruct (objetos _ !! np) as [q|]; [|done].
      destruct (find _ _ _) as [[l p]|]; [|done]. by destruct (bool_decide _).
  - intros (sock & agora & dados & -> & Hat & Hd). simpl in Hp.
    injection Hp as <-. unfold pedido_criar. rewrite Hat. simpl.
    destruct Hd as [->|(c & i & -> & Hc & Hi & Hstr)]; [by eexists _, _|].
    rewrite Hc, Hi. simpl. destruct c, i; try discriminate Hstr; by eexists _, _.
  - intros s1 out ->.
    destruct ev as [sock|sock agora|sock agora dados|sock pedidoId
                   |sock agora pedidoId|sock agora pedidoId|sock agora pedidoId
                   |sock agora|timer]; simpl in Hp.
    + by injection Hp.
    + by injection Hp.
    + injection Hp as Hp. unfold pedido_criar in Hp.
      destruct (sistemaAtivo s) eqn:Hat; [|discriminate Hp].
      destruct dados as [|c i]; simpl in Hp; [by injection Hp as <- <-|].
      destruct (truthy c); [|discriminate Hp].
      destruct (truthy i); [|discriminate Hp].
      simpl in Hp. by destruct c, i; try discriminate Hp; injection Hp as <- <-.
    + injection Hp as Hp. unfold pedido_aceitar in Hp.
      destruct (find _ _ _) as [[l p]|]; [|done]. by destruct (negb _).
    + injection Hp as Hp. unfold pedido_finalizar in Hp.
      destruct (find _ _ _) as [[l p]|]; [|done]. by destruct (negb _).
    + injection Hp as Hp. unfold pedido_cancelar in Hp.
      destruct (find _ _ _) as [[l p]|]; [|done]. by destruct (_ || _).
    + injection Hp as Hp. unfold pedido_entregar in Hp.
      destruct (find _ _ _) as [[l p]|]; [|done]. by destruct (negb _).
    + by injection Hp.
    + destruct (agendados s !! timer) as [np|]; [|done]. injection Hp as Hp.
      unfold timeout_callback in Hp.
      destruct (objetos _ !! np) as [q|]; [|done].
      destruct (find _ _ _) as [[l p]|]; [|done]. by destruct (bool_decide _).
Qed.

Lemma X17_when_create_throws_witness :
  (∃ s1 out,
     resultadoDe estadoPendente
       (PedidoCriar sockB (js "10:01:00") (DObj (CNum 7) (CStr (js "Pizza"))))
     = Lanca s1 out)
  ∧ (∀ s1 out,
       resultadoDe estadoPendente
         (PedidoCriar sockB (js "10:01:00") (DObj (CNum 7) (CStr (js "Pizza"))))
       = Lanca s1 out →
       out = []
       ∧ sistemaAtivo s1 = sistemaAtivo estadoPendente
       ∧ pedidos s1 = pedidos estadoPendente
       ∧ objetos s1 = objetos estadoPendente
       ∧ timersExpiracao s1 = timersExpiracao estadoPendente
       ∧ agendados s1 = agendados estadoPendente
       ∧ proximoTimer s1 = proximoTimer estadoPendente
       ∧ proximoId s1 = (proximoId estadoPendente + 1)%Z).
Proof.
  destruct (X17_when_create_throws estadoPendente
              (PedidoCriar sockB (js "10:01:00") (DObj (CNum 7) (CStr (js "Pizza"))))
              (resultadoDe estadoPendente
                 (PedidoCriar sockB (js "10:01:00")
                    (DObj (CNum 7) (CStr (js "Pizza"))))))
    as [[_ H1] H2].
  - vm_compute; reflexivity.
  - split; [|exact H2]. apply H1.
    exists sockB, (js "10:01:00"), (DObj (CNum 7) (CStr (js "Pizza"))).
    split; [reflexivity|]. split; [reflexivity|]. right.
    exists (CNum 7), (CStr (js "Pizza")). by repeat split.
Defined.

(** X18: after a reset the server counts from 1 again: from any reachable
    state with the system active, a reset followed by a create (two
    non-empty strings) leaves a collection made of that one order, whose id
    is 1. *)
Theorem X18_reset_then_create s sock agora sock2 agora2 dc di :
  alcancavel s → sistemaAtivo s = true → dc ≠ [] → di ≠ [] →
  ∃ s',
    executa s [SistemaReset sock agora;
               PedidoCriar sock2 agora2 (DObj (CStr dc) (CStr di))]
    = Some (s',
        [IoEmit (SistemaResetado agora);
         IoEmit (PedidoCriado (length (objetos s))
           (pedidoCom 1 dc di sock2 agora2 Pendente None None))])
    ∧ pedidosDe s' = [pedidoCom 1 dc di sock2 agora2 Pendente None None]
    ∧ proximoId s' = 2%Z.
Proof.
  intros Hs%alcancavel_inv Hat Hc Hi.
  pose proof (inv_sistema_reset agora s Hs) as Hinv1.
  destruct (pedido_criar_ok (estadoDe (sistema_reset agora s))
              sock2 agora2 dc di Hinv1 Hat Hc Hi)
    as (s' & Hp2 & _ & Hps & Hobjs & Hn & _).
  exists s'. split; [|split].
  - cbn [executa].
    change (passo s (SistemaReset sock agora)) with (Some (sistema_reset agora s)).
    cbn [executa]. rewrite Hp2. reflexivity.
  - unfold pedidosDe. rewrite Hps, Hobjs. simpl.
    by rewrite list_lookup_middle.
  - by rewrite Hn.
Qed.

Lemma X18_reset_then_create_witness :
  ∃ s',
    executa estadoAceito
      [SistemaReset sockA (js "10:00:10");
       PedidoCriar sockB (js "10:00:15") (DObj (CStr (js "Bia")) (CStr (js "Suco")))]
    = Some (s',
        [IoEmit (SistemaResetado (js "10:00:10"));
         IoEmit (PedidoCriado (length (objetos estadoAceito))
           (pedidoCom 1 (js "Bia") (js "Suco") sockB (js "10:00:15")
              Pendente None None))])
    ∧ pedidosDe s'
      = [pedidoCom 1 (js "Bia") (js "Suco") sockB (js "10:00:15") Pendente None None]
    ∧ proximoId s' = 2%Z.
Proof.
  apply (X18_reset_then_create estadoAceito sockA (js "10:00:10") sockB
           (js "10:00:15") (js "Bia") (js "Suco")).
  - apply alcancavel_estadoDepois.
  - reflexivity.
  - vm_compute; discriminate.
  - vm_compute; discriminate.
Defined.

(** ** What the broadcasts tell a viewer *)

Lemma omap_insert_substitui (objs : list Pedido) (ps : list loc) l p p' :
  objs !! l = Some p → id p' = id p →
  (∀ l0 q0, l0 ∈ ps → objs !! l0 = Some q0 → id q0 = id p → l0 = l) →
  omap (λ l0, <[l := p']> objs !! l0) ps
  = substitui p' (omap (λ l0, objs !! l0) ps).
Proof.
  intros Hl Hid. unfold substitui.
  induction ps as [|l0 ps IH]; intros Hun; csimpl; [done|].
  assert (∀ l1 q1, l1 ∈ ps → objs !! l1 = Some q1 → id q1 = id p → l1 = l)
    as Hun' by (intros l1 q1 ?; apply Hun; by right).
  destruct (decide (l0 = l)) as [->|Hne].
  - rewrite list_lookup_insert_eq by (by eapply lookup_lt_Some).
    rewrite Hl. csimpl.
    assert ((id p =? id p')%Z = true) as -> by (by apply Z.eqb_eq).
    f_equal. by apply IH.
  - rewrite list_lookup_insert_ne by done.
    destruct (objs !! l0) as [q0|] eqn:Hq0; csimpl; [|by apply IH].
    destruct (Z.eqb_spec (id q0) (id p')) as [E|E].
    + destruct Hne. apply (Hun l0 q0); [by left | done | congruence].
    + f_equal. by apply IH.
Qed.

Lemma pedidosDe_altera s l p p' :
  invIds s → l ∈ pedidos s → objetos s !! l = Some p → id p' = id p →
  pedidosDe (com_objetos (<[l := p']> (objetos s)) s) = substitui p' (pedidosDe s).
Proof.
  intros HI Hl Hp Hid. unfold pedidosDe. simpl.
  apply (omap_insert_substitui _ _ _ p); try done.
  intros l0 q0 Hl0 Hq0 E. by eapply ids_unicos.
Qed.

Lemma pedidosDe_limparTimer k s : pedidosDe (limparTimer k s) = pedidosDe s.
Proof. unfold pedidosDe. by autorewrite with registro. Qed.

(** One turn: the collection after it is the collection before it, followed
    through what the turn emitted. *)
Lemma passo_acompanha s ev r :
  inv s → passo s ev = Some r →
  pedidosDe (estadoDe r) = foldl acompanha (pedidosDe s) (saidasDe r).
Proof.
  intros [HI _].
  destruct ev as [sock|sock agora|sock agora dados|sock pedidoId
                 |sock agora pedidoId|sock agora pedidoId|sock agora pedidoId
                 |sock agora|timer]; simpl.
  - by intros [= <-].
  - by intros [= <-].
  - intros [= <-]. unfold pedido_criar.
    destruct (sistemaAtivo s); simpl; [|done].
    destruct dados as [|c i]; [done|].
    destruct (truthy c), (truthy i); simpl; try done.
    destruct c, i; simpl; try done.
    unfold pedidosDe. simpl. apply pedidosDe_snoc. by destruct HI as (_ & ? & _).
  - intros [= <-]. unfold pedido_aceitar.
    abre_handler s pedidoId; try done.
    rewrite pedidosDe_limparTimer. by eapply pedidosDe_altera.
  - intros [= <-]. unfold pedido_finalizar.
    abre_handler s pedidoId; try done. by eapply pedidosDe_altera.
  - intros [= <-]. unfold pedido_cancelar.
    abre_handler s pedidoId; try done.
    rewrite pedidosDe_limparTimer. by eapply pedidosDe_altera.
  - intros [= <-]. unfold pedido_entregar.
    abre_handler s pedidoId; try done. by eapply pedidosDe_altera.
  - by intros [= <-].
  - destruct (agendados s !! timer) as [novoPedido|]; [|done].
    intros [= <-]. unfold timeout_callback. simpl.
    destruct (objetos s !! novoPedido) as [np|]; [|done].
    abre_handler s (id np); try done.
    match goal with
    | Hq : objetos s !! ?l = Some ?q |- _ =>
        apply (pedidosDe_altera
                 (com_timers (timersExpiracao s) (delete timer (agendados s)) s)
                 l q (com_status Expirado q)); done
    end.
Qed.

(** X19: the broadcasts are enough to keep a copy of the collection.
    Over any run from a reachable state, a viewer that starts from the
    collection as it was and, for each message in turn, appends the order
    of ['pedido.criado'], replaces by id the order of every other order
    event and empties its list on ['sistema.resetado'], ends with the
    collection as the server holds it. *)
Theorem X19_broadcasts_rebuild_collection evs : ∀ s s' out,
  alcancavel s →
  executa s evs = Some (s', out) →
  pedidosDe s' = foldl acompanha (pedidosDe s) out.
Proof.
  induction evs as [|ev evs IH]; simpl; intros s s' out Hs Hex.
  - by injection Hex as <- <-.
  - destruct (passo s ev) as [r|] eqn:Hp; [|done].
    destruct (executa (estadoDe r) evs) as [[s1 out1]|] eqn:He; [|done].
    injection Hex as <- <-. rewrite foldl_app.
    rewrite <- (passo_acompanha _ _ _ (alcancavel_inv _ Hs) Hp).
    apply IH; [|done]. by eapply alc_passo.
Qed.

Lemma X19_broadcasts_rebuild_collection_witness :
  pedidosDe (estadoDepois (eventosEntregue ++ eventosAposEntrega))
  = foldl acompanha (pedidosDe (estadoDepois eventosEntregue))
      (match executa (estadoDepois eventosEntregue) eventosAposEntrega with
       | Some (_, out) => out
       | None => []
       end).
Proof.
  apply (X19_broadcasts_rebuild_collection eventosAposEntrega
           (estadoDepois eventosEntregue)
           (estadoDepois (eventosEntregue ++ eventosAposEntrega))).
  - apply alcancavel_estadoDepois.
  - vm_compute; reflexivity.
Defined.

(** * Properties of the earlier variant, [src/sistema-pedidos/server.js] *)

Module SistemaPedidosProps.
Import SistemaPedidos.

Lemma sp_find_Some objs pedidoId ps l p :
  find objs pedidoId ps = Some (l, p) →
  l ∈ ps ∧ objs !! l = Some p ∧ id p = pedidoId.
Proof.
  induction ps as [|l0 r IH]; simpl; [done|].
  destruct (objs !! l0) as [p0|] eqn:E.
  - destruct (Z.eqb_spec (id p0) pedidoId) as [Hid|Hid].
    + intros [= <- <-]. split; [left | done].
    + intros H. destruct (IH H) as (? & ? & ?). split; [by right | done].
  - intros H. destruct (IH H) as (? & ? & ?). split; [by right | done].
Qed.

Ltac abre s pedidoId :=
  let E := fresh "Efind" in
  destruct (find (objetos s) pedidoId (pedidos s)) as [[? ?]|] eqn:E;
  [ apply sp_find_Some in E as (? & ? & ?) | ];
  simpl; repeat case_bool_decide; simpl.

Lemma sp_sem_pedido (out : list Saida) :
  Forall (λ o, pedidoDe (emissaoDe o) = None) out →
  ∀ o, o ∈ out → pedidoDe (emissaoDe o) = None.
Proof. intros H o Ho. rewrite Forall_forall in H. by apply H. Qed.

(** Every turn of the event loop has one of the three forms. *)
Ltac nada :=
  apply forma_nada; simpl;
  first [done | lia | (apply sp_sem_pedido; by repeat constructor)].

Lemma sp_passo_forma s ev r : passo s ev = Some r → forma s ev r.
Proof.
  destruct ev as [sock|sock agora|sock agora dados|sock pedidoId
                 |sock pedidoId|sock pedidoId|sock pedidoId|timer]; simpl.
  - intros [= <-]. nada.
  - intros [= <-]. nada.
  - intros [= <-]. unfold pedido_criar.
    destruct (sistemaAtivo s) eqn:Hat; simpl.
    + destruct dados as [|c i].
      * nada.
      * by eapply forma_novo.
    + nada.
  - intros [= <-]. unfold pedido_aceitar. abre s pedidoId.
    + eapply forma_altera; try done.
    + nada.
    + nada.
  - intros [= <-]. unfold pedido_finalizar. abre s pedidoId.
    + eapply forma_altera; try done.
    + nada.
    + nada.
  - intros [= <-]. unfold pedido_cancelar. abre s pedidoId.
    + nada.
    + eapply forma_altera; try done.
    + nada.
  - intros [= <-]. unfold pedido_entregar. abre s pedidoId.
    + eapply forma_altera; try done.
    + nada.
    + nada.
  - destruct (agendados s !! timer) as [novoPedido|]; [|done].
    intros [= <-]. unfold timeout_callback. simpl.
    destruct (objetos s !! novoPedido) as [np|];
      [|nada].
    abre s (id np).
    + eapply forma_altera; try done; simpl; eauto.
    + nada.
    + nada.
Qed.


Lemma sp_altera_id ev p p' : altera ev p p' → id p' = id p.
Proof.
  destruct ev; simpl; try done; intros H; decompose [and] H; by subst p'.
Qed.

Lemma sp_ids_insert (objs : list Pedido) l p p' (ps : list loc) :
  objs !! l = Some p → id p' = id p →
  id <$> omap (λ l0, <[l := p']> objs !! l0) ps
  = id <$> omap (λ l0, objs !! l0) ps.
Proof.
  intros Hl Hid. induction ps as [|l0 ps IH]; csimpl; [done|].
  destruct (decide (l0 = l)) as [->|Hne].
  - rewrite list_lookup_insert_eq by (by eapply lookup_lt_Some).
    rewrite Hl. csimpl. by rewrite IH, Hid.
  - rewrite list_lookup_insert_ne by done.
    destruct (objs !! l0); csimpl; by rewrite IH.
Qed.

Lemma sp_pedidosDe_snoc (objs : list Pedido) (ps : list loc) np :
  Forall (λ l, is_Some (objs !! l)) ps →
  omap (λ l, (objs ++ [np]) !! l) (ps ++ [length objs])
  = omap (λ l, objs !! l) ps ++ [np].
Proof.
  intros Hps. rewrite omap_app. f_equal.
  - induction Hps as [|l ps [q Hq] _ IH]; csimpl; [done|].
    by rewrite (lookup_app_l_Some _ _ _ _ Hq), Hq, IH.
  - csimpl. by rewrite list_lookup_middle.
Qed.

Lemma sp_idsCriados_sem_pedido (out : list Saida) :
  (∀ o, o ∈ out → pedidoDe (emissaoDe o) = None) → idsCriados out = [].
Proof.
  unfold idsCriados. induction out as [|o out IH]; intros H; csimpl; [done|].
  rewrite IH by (intros o' ?; apply H; by right).
  pose proof (H o (list_elem_of_here _ _)) as Ho.
  by destruct (emissaoDe o).
Qed.

(** One turn keeps the invariant and adds to the ids of the collection
    exactly the ids it gave out. *)
Lemma sp_passo_invIds s ev r :
  invIds s → passo s ev = Some r →
  invIds (estadoDe r)
  ∧ id <$> pedidosDe (estadoDe r)
    = (id <$> pedidosDe s) ++ idsCriados (saidasDe r).
Proof.
  intros (H1 & H2 & H3 & H4) Hp. unfold invIds, pedidosDe in *.
  destruct (sp_passo_forma _ _ _ Hp)
    as [Eo Ep Hn Hout|sock agora c i _ _ Er Eo Ep En
       |l p p' e Hl Hlp Ha Eo Ep En Eout He Hk].
  - rewrite Eo, Ep, (sp_idsCriados_sem_pedido _ Hout), app_nil_r.
    repeat split; try done; [lia|].
    eapply Forall_impl; [exact H4|]. simpl. lia.
  - rewrite Eo, Ep, En, Er. simpl.
    rewrite sp_pedidosDe_snoc, fmap_app by done. simpl.
    split; [|done]. split; [lia|]. split; [|split].
    + apply Forall_app. split.
      * eapply Forall_impl; [exact H2|]. intros l0 [q Hq].
        exists q. by apply lookup_app_l_Some.
      * apply Forall_singleton. eexists. by apply list_lookup_middle.
    + apply StronglySorted_app_2; [|done|repeat constructor].
      intros x1 x2 (q & -> & Hq)%list_elem_of_fmap Hx2.
      apply list_elem_of_singleton in Hx2 as ->.
      rewrite Forall_forall in H4. specialize (H4 _ Hq). lia.
    + apply Forall_app. split.
      * eapply Forall_impl; [exact H4|]. simpl. lia.
      * apply Forall_singleton. simpl. lia.
  - pose proof (sp_altera_id _ _ _ Ha) as Hid.
    rewrite Eo, Ep, En, Eout, (sp_ids_insert _ _ _ _ _ Hlp Hid).
    assert (idsCriados [IoEmit e] = []) as ->.
    { unfold idsCriados. csimpl. by destruct e. }
    rewrite app_nil_r. split; [|done]. split; [done|]. split; [|split; [done|]].
    + eapply Forall_impl; [exact H2|]. intros l0.
      by rewrite !lookup_lt_is_Some, length_insert.
    + apply Forall_forall. intros q' (l0 & Hl0 & Hq')%list_elem_of_omap.
      rewrite Forall_forall in H4.
      destruct (decide (l0 = l)) as [->|Hne].
      * rewrite list_lookup_insert_eq in Hq' by (by eapply lookup_lt_Some).
        injection Hq' as <-. rewrite Hid. apply H4, list_elem_of_omap. eauto.
      * rewrite list_lookup_insert_ne in Hq' by done.
        apply H4, list_elem_of_omap. eauto.
Qed.

Lemma sp_idsCriados_app out1 out2 :
  idsCriados (out1 ++ out2) = idsCriados out1 ++ idsCriados out2.
Proof. apply omap_app. Qed.

Lemma sp_executa_invIds evs : ∀ s s' out,
  invIds s → executa s evs = Some (s', out) →
  invIds s' ∧ id <$> pedidosDe s' = (id <$> pedidosDe s) ++ idsCriados out.
Proof.
  induction evs as [|ev evs IH]; simpl; intros s s' out HI Hex.
  - injection Hex as <- <-. by rewrite app_nil_r.
  - destruct (passo s ev) as [r|] eqn:Hp; [|done].
    destruct (executa (estadoDe r) evs) as [[s1 out1]|] eqn:He; [|done].
    injection Hex as <- <-.
    destruct (sp_passo_invIds _ _ _ HI Hp) as [HI1 E1].
    destruct (IH _ _ _ HI1 He) as [HI2 E2].
    split; [done|]. by rewrite E2, E1, sp_idsCriados_app, app_assoc.
Qed.

Lemma sp_invIds_inicial : invIds inicial.
Proof. repeat split; unfold pedidosDe; simpl; try constructor; lia. Qed.

(** X20: the variant has no reset, and in it an id is never given twice:
    over every run of the server the ids of the orders created are positive
    and strictly increasing, and they are exactly the ids of the orders of
    the collection, in order, from which no order is ever removed. *)
Theorem X20_variant_ids_never_reused evs s' out :
  executa inicial evs = Some (s', out) →
  id <$> pedidosDe s' = idsCriados out
  ∧ StronglySorted Z.lt (idsCriados out)
  ∧ NoDup (idsCriados out)
  ∧ Forall (λ n, (1 ≤ n)%Z) (idsCriados out)
  ∧ length (pedidosDe s') = length (pedidos s').
Proof.
  intros Hex.
  destruct (sp_executa_invIds _ _ _ _ sp_invIds_inicial Hex) as [(_ & H2 & H3 & H4) E].
  simpl in E. rewrite <- E. repeat split; try done.
  - by apply StronglySorted_lt_NoDup.
  - apply Forall_fmap. eapply Forall_impl; [exact H4|]. simpl. lia.
  - clear -H2. unfold pedidosDe.
    induction H2 as [|l ps [q Hq] _ IH]; csimpl; [done|].
    rewrite Hq. simpl. by rewrite IH.
Qed.

Lemma X20_variant_ids_never_reused_witness :
  id <$> pedidosDe (estadoDepois eventosExemplo) = idsCriados (saidasDepois eventosExemplo)
  ∧ StronglySorted Z.lt (idsCriados (saidasDepois eventosExemplo))
  ∧ NoDup (idsCriados (saidasDepois eventosExemplo))
  ∧ Forall (λ n, (1 ≤ n)%Z) (idsCriados (saidasDepois eventosExemplo))
  ∧ length (pedidosDe (estadoDepois eventosExemplo))
    = length (pedidos (estadoDepois eventosExemplo)).
Proof.
  apply (X20_variant_ids_never_reused eventosExemplo).
  vm_compute; reflexivity.
Defined.


(** X21: the variant validates nothing: with the system active, every
    payload object gives an order that stores cliente and itens exactly as
    they came (absent, empty, untrimmed or not a string), appended to the
    collection and broadcast, with a timeout scheduled for it. *)
Theorem X21_variant_no_validation s sock agora c i :
  sistemaAtivo s = true →
  ∃ s' np,
    passo s (PedidoCriar sock agora (DObj c i))
      = Some (Retorna s' [IoEmit (PedidoCriado (length (objetos s)) np)])
    ∧ cliente np = c ∧ itens np = i
    ∧ status np = Pendente ∧ id np = proximoId s
    ∧ pedidos s' = pedidos s ++ [length (objetos s)]
    ∧ objetos s' !! length (objetos s) = Some np
    ∧ agendados s' !! proximoTimer s = Some (length (objetos s)).
Proof.
  intros Hat. eexists _, _. simpl. unfold pedido_criar. rewrite Hat. simpl.
  split; [reflexivity|]. simpl. repeat split.
  - by apply list_lookup_middle.
  - apply lookup_insert_eq.
Qed.

Lemma X21_variant_no_validation_witness :
  ∃ s' np,
    passo (estadoDepois [SistemaIniciar sockA (js "10:00:00")])
          (PedidoCriar sockB (js "10:00:05") (DObj CUndefined (CStr (js "   "))))
      = Some (Retorna s'
                [IoEmit (PedidoCriado
                   (length (objetos (estadoDepois [SistemaIniciar sockA (js "10:00:00")])))
                   np)])
    ∧ cliente np = CUndefined ∧ itens np = CStr (js "   ")
    ∧ status np = Pendente
    ∧ id np = proximoId (estadoDepois [SistemaIniciar sockA (js "10:00:00")])
    ∧ pedidos s'
      = pedidos (estadoDepois [SistemaIniciar sockA (js "10:00:00")])
        ++ [length (objetos (estadoDepois [SistemaIniciar sockA (js "10:00:00")]))]
    ∧ objetos s'
        !! length (objetos (estadoDepois [SistemaIniciar sockA (js "10:00:00")]))
      = Some np
    ∧ agendados s' !! proximoTimer (estadoDepois [SistemaIniciar sockA (js "10:00:00")])
      = Some (length (objetos (estadoDepois [SistemaIniciar sockA (js "10:00:00")]))).
Proof.
  apply (X21_variant_no_validation
           (estadoDepois [SistemaIniciar sockA (js "10:00:00")])
           sockB (js "10:00:05") CUndefined (CStr (js "   "))).
  reflexivity.
Defined.

(** X22: the only error the variant ever sends is the one for creating
    while the system is not active; it goes to the caller and the state is
    unchanged. *)
Theorem X22_variant_only_error s ev r o m :
  passo s ev = Some r →
  o ∈ saidasDe r →
  emissaoDe o = ErroOperacao m →
  m = SistemaNaoAtivo ∧ sistemaAtivo s = false
  ∧ ∃ sock agora dados,
      ev = PedidoCriar sock agora dados
      ∧ r = Retorna s [SocketEmit sock (ErroOperacao SistemaNaoAtivo)].
Proof.
  intros Hp Ho He.
  destruct (sp_passo_forma _ _ _ Hp)
    as [_ _ _ Hout|sock agora c i _ _ Er _ _ _|l p p' e _ _ _ _ _ _ Eout Hpe _].
  - clear Hout. destruct ev as [sock|sock agora|sock agora dados|sock pedidoId
                 |sock pedidoId|sock pedidoId|sock pedidoId|timer]; simpl in Hp.
    + injection Hp as <-. apply list_elem_of_singleton in Ho as ->. done.
    + injection Hp as <-. apply list_elem_of_singleton in Ho as ->. done.
    + injection Hp as <-. unfold pedido_criar in *.
      destruct (sistemaAtivo s) eqn:Hat; simpl in *.
      * destruct dados as [|c i]; simpl in Ho.
        -- by apply elem_of_nil in Ho.
        -- apply list_elem_of_singleton in Ho as ->. done.
      * apply list_elem_of_singleton in Ho as ->. injection He as <-.
        repeat split. eauto.
    + injection Hp as <-. unfold pedido_aceitar in Ho. revert Ho.
      abre s pedidoId; intros Ho;
        first [by apply elem_of_nil in Ho
              | apply list_elem_of_singleton in Ho as ->; done].
    + injection Hp as <-. unfold pedido_finalizar in Ho. revert Ho.
      abre s pedidoId; intros Ho;
        first [by apply elem_of_nil in Ho
              | apply list_elem_of_singleton in Ho as ->; done].
    + injection Hp as <-. unfold pedido_cancelar in Ho. revert Ho.
      abre s pedidoId; intros Ho;
        first [by apply elem_of_nil in Ho
              | apply list_elem_of_singleton in Ho as ->; done].
    + injection Hp as <-. unfold pedido_entregar in Ho. revert Ho.
      abre s pedidoId; intros Ho;
        first [by apply elem_of_nil in Ho
              | apply list_elem_of_singleton in Ho as ->; done].
    + destruct (agendados s !! timer) as [novoPedido|]; [|done].
      injection Hp as <-. unfold timeout_callback in Ho. simpl in Ho.
      destruct (objetos s !! novoPedido) as [np|];
        [|by apply elem_of_nil in Ho].
      revert Ho. abre s (id np); intros Ho;
        first [by apply elem_of_nil in Ho
              | apply list_elem_of_singleton in Ho as ->; done].
  - rewrite Er in Ho. apply list_elem_of_singleton in Ho as ->. done.
  - rewrite Eout in Ho. apply list_elem_of_singleton in Ho as ->.
    simpl in He. rewrite He in Hpe. done.
Qed.

Lemma X22_variant_only_error_witness :
  SistemaNaoAtivo = SistemaNaoAtivo ∧ sistemaAtivo inicial = false
  ∧ ∃ sock agora dados,
      PedidoCriar sockB (js "10:00:05") semCliente = PedidoCriar sock agora dados
      ∧ Retorna inicial [SocketEmit sockB (ErroOperacao SistemaNaoAtivo)]
        = Retorna inicial [SocketEmit sock (ErroOperacao SistemaNaoAtivo)].
Proof.
  apply (X22_variant_only_error inicial
           (PedidoCriar sockB (js "10:00:05") semCliente)
           (Retorna inicial [SocketEmit sockB (ErroOperacao SistemaNaoAtivo)])
           (SocketEmit sockB (ErroOperacao SistemaNaoAtivo)) SistemaNaoAtivo).
  - reflexivity.
  - left.
  - reflexivity.
Defined.

(** X23: in the variant an accept, finalize, cancel or deliver that does
    not apply is dropped in silence: either the event changes one order of
    the collection as its handler says and broadcasts it, or it returns the
    state as it was and emits nothing at all. *)
Theorem X23_variant_silent_rejection s ev r a :
  passo s ev = Some r →
  acaoDe ev = Some a → a ≠ TimerElapses →
  r = Retorna s []
  ∨ ∃ l p p' e,
      l ∈ pedidos s ∧ objetos s !! l = Some p ∧ altera ev p p'
      ∧ r = Retorna (com_objetos (<[l := p']> (objetos s)) s) [IoEmit e]
      ∧ pedidoDe e = Some (l, p').
Proof.
  destruct ev as [sock|sock agora|sock agora dados|sock pedidoId
                 |sock pedidoId|sock pedidoId|sock pedidoId|timer];
    simpl; intros Hp Ha Hne; try discriminate Ha;
    try (injection Ha as <-; done); injection Hp as <-.
  - unfold pedido_aceitar. abre s pedidoId; try by left.
    right. eexists _, _, _, _. by repeat split.
  - unfold pedido_finalizar. abre s pedidoId; try by left.
    right. eexists _, _, _, _. by repeat split.
  - unfold pedido_cancelar. abre s pedidoId; try by left.
    right. eexists _, _, _, _. by repeat split.
  - unfold pedido_entregar. abre s pedidoId; try by left.
    right. eexists _, _, _, _. by repeat split.
Qed.

Lemma X23_variant_silent_rejection_witness :
  Retorna (estadoDepois eventosExemplo) [] = Retorna (estadoDepois eventosExemplo) []
  ∨ ∃ l p p' e,
      l ∈ pedidos (estadoDepois eventosExemplo)
      ∧ objetos (estadoDepois eventosExemplo) !! l = Some p
      ∧ altera (PedidoEntregar sockA 1) p p'
      ∧ Retorna (estadoDepois eventosExemplo) []
        = Retorna (com_objetos (<[l := p']> (objetos (estadoDepois eventosExemplo)))
                     (estadoDepois eventosExemplo)) [IoEmit e]
      ∧ pedidoDe e = Some (l, p').
Proof.
  apply (X23_variant_silent_rejection (estadoDepois eventosExemplo)
           (PedidoEntregar sockA 1) (Retorna (estadoDepois eventosExemplo) []) Deliver).
  - vm_compute; reflexivity.
  - reflexivity.
  - discriminate.
Defined.


Lemma sp_passo_objeto s ev r l p :
  passo s ev = Some r →
  objetos s !! l = Some p →
  ∃ p', objetos (estadoDe r) !! l = Some p' ∧ (p' = p ∨ altera ev p p').
Proof.
  intros Hp Hl.
  destruct (sp_passo_forma _ _ _ Hp)
    as [Eo _ _ _|sock agora c i _ _ _ Eo _ _|l0 p0 p0' e _ H0 Ha Eo _ _ _ _ _];
    rewrite Eo.
  - exists p. auto.
  - exists p. split; [|by left]. by apply lookup_app_l_Some.
  - destruct (decide (l0 = l)) as [->|Hne].
    + exists p0'. rewrite Hl in H0. injection H0 as <-. split; [|by right].
      apply list_lookup_insert_eq. by eapply lookup_lt_Some.
    + exists p. split; [|by left]. by rewrite list_lookup_insert_ne.
Qed.

Lemma sp_altera_tabela ev p p' :
  altera ev p p' →
  status p' = status p
  ∨ ∃ a, acaoDe ev = Some a
         ∧ (tabela (status p) a (status p') = true
            ∨ (status p = Expirado ∧ a = Cancel ∧ status p' = Cancelado)).
Proof.
  destruct ev; simpl; try done; intros H; decompose [and] H; subst p'; simpl;
    destruct (status p) eqn:E; simpl in *; try done; eauto 10.
Qed.

(** X24: the variant moves an order along the same edges as the newer
    server: every status change, at every event and from every state, is
    made by the action of that event and is a row of the section-4 table or
    the cancellation of an expired order. *)
Theorem X24_variant_status_transitions s ev r l p p' :
  passo s ev = Some r →
  objetos s !! l = Some p →
  objetos (estadoDe r) !! l = Some p' →
  status p' = status p
  ∨ ∃ a, acaoDe ev = Some a
         ∧ (tabela (status p) a (status p') = true
            ∨ (status p = Expirado ∧ a = Cancel ∧ status p' = Cancelado)).
Proof.
  intros Hp Hl Hl'.
  destruct (sp_passo_objeto _ _ _ _ _ Hp Hl) as (q & Hq & [->|Ha]);
    rewrite Hl' in Hq; injection Hq as <-; [by left|].
  by apply sp_altera_tabela.
Qed.

Lemma X24_variant_status_transitions_witness :
  status (com_status Preparando
            {| id := 1; cliente := CUndefined; itens := CStr (js "Pizza");
               status := Pendente; criadoEm := js "10:00:05"; socketId := sockB |})
  = status {| id := 1; cliente := CUndefined; itens := CStr (js "Pizza");
              status := Pendente; criadoEm := js "10:00:05"; socketId := sockB |}
  ∨ ∃ a, acaoDe (PedidoAceitar sockA 1) = Some a
         ∧ (tabela Pendente a Preparando = true
            ∨ (Pendente = Expirado ∧ a = Cancel ∧ Preparando = Cancelado)).
Proof.
  apply (X24_variant_status_transitions
           (estadoDepois [SistemaIniciar sockA (js "10:00:00");
                          PedidoCriar sockB (js "10:00:05") semCliente])
           (PedidoAceitar sockA 1)
           (pedido_aceitar 1
              (estadoDepois [SistemaIniciar sockA (js "10:00:00");
                             PedidoCriar sockB (js "10:00:05") semCliente]))
           0%nat).
  - reflexivity.
  - vm_compute; reflexivity.
  - vm_compute; reflexivity.
Defined.

Lemma sp_find_insert_Some objs pedidoId (ps : list loc) l p p' :
  find objs pedidoId ps = Some (l, p) → id p' = id p →
  find (<[l := p']> objs) pedidoId ps = Some (l, p').
Proof.
  intros Hf Hid. pose proof (sp_find_Some _ _ _ _ _ Hf) as (_ & Hl & Hpid).
  induction ps as [|l0 ps IH]; simpl in *; [done|].
  destruct (decide (l0 = l)) as [->|Hne].
  - rewrite list_lookup_insert_eq by (by eapply lookup_lt_Some).
    rewrite Hid, Hpid, Z.eqb_refl. done.
  - rewrite list_lookup_insert_ne by done.
    destruct (objs !! l0) as [q0|]; [|by apply IH].
    destruct (id q0 =? pedidoId)%Z; [|by apply IH].
    injection Hf as -> _. done.
Qed.

Lemma sp_executa_deixouPendente evs : ∀ s s' out l p,
  objetos s !! l = Some p → deixouPendente p →
  executa s evs = Some (s', out) →
  (∃ p', objetos s' !! l = Some p' ∧ deixouPendente p')
  ∧ (∀ o q, o ∈ out → emissaoDe o ≠ PedidoExpirado l q).
Proof.
  induction evs as [|ev evs IH]; simpl; intros s s' out l p Hl Hd Hex.
  - injection Hex as <- <-. split; [eauto|]. by intros o q ?%elem_of_nil.
  - destruct (passo s ev) as [r|] eqn:Hp; [|done].
    destruct (executa (estadoDe r) evs) as [[s1 out1]|] eqn:He; [|done].
    injection Hex as <- <-.
    assert (∃ p1, objetos (estadoDe r) !! l = Some p1 ∧ deixouPendente p1)
      as (p1 & Hl1 & Hd1).
    { destruct (sp_passo_objeto _ _ _ _ _ Hp Hl) as (p1 & Hl1 & [E1|Ha]);
        exists p1; (split; [done|]); [by rewrite E1|].
      destruct Hd as [Hd1 Hd2].
      destruct ev; simpl in Ha; try done; decompose [and] Ha; subst p1; done. }
    destruct (IH _ _ _ _ _ Hl1 Hd1 He) as [Hfim Hout]. split; [done|].
    intros o q [Ho|Ho]%elem_of_app E; [|by eapply Hout].
    destruct (sp_passo_forma _ _ _ Hp)
      as [_ _ _ Hn|sock agora c i _ _ Er _ _ _
         |l0 p0 p0' e _ H0 Ha _ _ _ Eout Hpe Hk].
    + specialize (Hn _ Ho). by rewrite E in Hn.
    + rewrite Er in Ho. apply list_elem_of_singleton in Ho as ->. done.
    + rewrite Eout in Ho. apply list_elem_of_singleton in Ho as ->.
      simpl in E. subst e. simpl in Hpe, Hk. injection Hpe as <- <-.
      destruct Hk as [timer ->]. simpl in Ha. destruct Ha as [Hst _].
      rewrite Hl in H0. injection H0 as <-. by destruct Hd.
Qed.

(** X25: the variant never clears a timeout.  After a pending order has
    been accepted its timeout is still scheduled; when it fires it is
    unscheduled and does nothing else, and in every continuation of the
    run the order is never expired and no ['pedido.expirado'] is emitted
    for it. *)
Theorem X25_variant_timer_left_running s sock pedidoId l p h :
  find (objetos s) pedidoId (pedidos s) = Some (l, p) →
  status p = Pendente →
  agendados s !! h = Some l →
  ∃ s1 s2,
    passo s (PedidoAceitar sock pedidoId)
      = Some (Retorna s1 [IoEmit (PedidoAceito l (com_status Preparando p))])
    ∧ agendados s1 = agendados s
    ∧ passo s1 (Timeout h) = Some (Retorna s2 [])
    ∧ objetos s2 = objetos s1 ∧ agendados s2 = delete h (agendados s)
    ∧ ∀ evs s' out,
        executa s1 evs = Some (s', out) →
        (∃ p', objetos s' !! l = Some p' ∧ status p' ≠ Expirado)
        ∧ (∀ o q, o ∈ out → emissaoDe o ≠ PedidoExpirado l q).
Proof.
  intros Hf Hst Hh.
  pose proof (sp_find_Some _ _ _ _ _ Hf) as (_ & Hl & Hid).
  set (p1 := com_status Preparando p).
  set (s1 := com_objetos (<[l := p1]> (objetos s)) s).
  assert (objetos s1 !! l = Some p1) as Hl1.
  { simpl. apply list_lookup_insert_eq. by eapply lookup_lt_Some. }
  exists s1. eexists. split; [|split; [|split; [|split; [|split]]]].
  - simpl. unfold pedido_aceitar. by rewrite Hf, Hst.
  - done.
  - simpl. rewrite Hh. unfold timeout_callback. simpl.
    change (<[l := p1]> (objetos s) !! l) with (objetos s1 !! l). rewrite Hl1.
    change (id p1) with (id p). rewrite Hid.
    rewrite (sp_find_insert_Some _ _ _ _ _ p1 Hf eq_refl).
    simpl. reflexivity.
  - done.
  - done.
  - intros evs s' out Hex.
    destruct (sp_executa_deixouPendente evs s1 s' out l p1 Hl1) as
      ((p' & Hp' & [_ Hne]) & Hout); [by split | done | eauto].
Qed.

Lemma X25_variant_timer_left_running_witness :
  ∃ s1 s2,
    passo (estadoDepois [SistemaIniciar sockA (js "10:00:00");
                         PedidoCriar sockB (js "10:00:05") semCliente])
          (PedidoAceitar sockA 1)
      = Some (Retorna s1
                [IoEmit (PedidoAceito 0
                   (com_status Preparando
                      {| id := 1; cliente := CUndefined; itens := CStr (js "Pizza");
                         status := Pendente; criadoEm := js "10:00:05";
                         socketId := sockB |}))])
    ∧ agendados s1
      = agendados (estadoDepois [SistemaIniciar sockA (js "10:00:00");
                                 PedidoCriar sockB (js "10:00:05") semCliente])
    ∧ passo s1 (Timeout 0) = Some (Retorna s2 [])
    ∧ objetos s2 = objetos s1
    ∧ agendados s2
      = delete 0%nat
          (agendados (estadoDepois [SistemaIniciar sockA (js "10:00:00");
                                    PedidoCriar sockB (js "10:00:05") semCliente]))
    ∧ ∀ evs s' out,
        executa s1 evs = Some (s', out) →
        (∃ p', objetos s' !! 0%nat = Some p' ∧ status p' ≠ Expirado)
        ∧ (∀ o q, o ∈ out → emissaoDe o ≠ PedidoExpirado 0 q).
Proof.
  apply (X25_variant_timer_left_running
           (estadoDepois [SistemaIniciar sockA (js "10:00:00");
                          PedidoCriar sockB (js "10:00:05") semCliente])
           sockA 1%Z 0%nat
           {| id := 1; cliente := CUndefined; itens := CStr (js "Pizza");
              status := Pendente; criadoEm := js "10:00:05"; socketId := sockB |}
           0%nat).
  - vm_compute; reflexivity.
  - reflexivity.
  - vm_compute; reflexivity.
Defined.

End SistemaPedidosProps.

(** * The two servers side by side *)

Lemma find_projeta objs pedidoId (ps : list loc) :
  SistemaPedidos.find (projeta <$> objs) pedidoId ps
  = prod_map (λ l, l) projeta <$> find objs pedidoId ps.
Proof.
  induction ps as [|l ps IH]; simpl; [done|].
  rewrite list_lookup_fmap. destruct (objs !! l) as [p|]; simpl; [|done].
  by destruct (id p =? pedidoId)%Z.
Qed.

Lemma corresponde_limparTimer k s v :
  corresponde s v → corresponde (limparTimer k s) v.
Proof.
  intros (H1 & H2 & H3 & H4 & H5 & H6). unfold corresponde.
  autorewrite with registro. repeat split; try done.
  intros h l Hh%agendados_limparTimer. by apply H6.
Qed.

Lemma corresponde_insert s v l p' q' :
  corresponde s v → projeta p' = q' →
  corresponde (com_objetos (<[l := p']> (objetos s)) s)
              (SistemaPedidos.com_objetos
                 (<[l := q']> (SistemaPedidos.objetos v)) v).
Proof.
  intros (H1 & H2 & H3 & H4 & H5 & H6) <-. unfold corresponde. simpl.
  repeat split; try done. by rewrite list_fmap_insert, H4.
Qed.

(** An error reply on one side and silence on the other leave both states
    as they were. *)
Lemma projeta_com_status st p :
  projeta (com_status st p) = SistemaPedidos.com_status st (projeta p).
Proof. done. Qed.

(** One clean event keeps the two servers in agreement. *)
Lemma corresponde_passo s v ev ev' r :
  corresponde s v → limpo ev → traduz ev = Some ev' → passo s ev = Some r →
  ∃ rv, SistemaPedidos.passo v ev' = Some rv
        ∧ corresponde (estadoDe r) (SistemaPedidos.estadoDe rv).
Proof.
  intros HR Hlimpo Htr. destruct v as [va vp vn vo vag vt].
  pose proof HR as (H1 & H2 & H3 & H4 & H5 & H6). simpl in *.
  subst va vp vn vo vt.
  destruct ev as [sock|sock agora|sock agora dados|sock pedidoId
                 |sock agora pedidoId|sock agora pedidoId|sock agora pedidoId
                 |sock agora|timer]; simpl in *; try done;
    injection Htr as <-; simpl.
  - intros [= <-]. eexists. split; [reflexivity|done].
  - intros [= <-]. eexists. split; [reflexivity|]. unfold corresponde. simpl.
    by repeat split.
  - intros [= <-]. destruct Hlimpo as (dc & di & -> & Hc & Hi & Htc & Hti).
    unfold pedido_criar, SistemaPedidos.pedido_criar. simpl.
    destruct (sistemaAtivo s); simpl; [|eexists; split; [reflexivity|done]].
    rewrite !bool_decide_eq_false_2 by done. simpl.
    eexists. split; [reflexivity|]. unfold corresponde. simpl.
    rewrite length_fmap, fmap_app, Htc, Hti.
    repeat split; try done.
    intros h l [[<- <-]|[Hne Hh]]%lookup_insert_Some.
    + apply lookup_insert_eq.
    + rewrite lookup_insert_ne by done. by apply H6.
  - intros [= <-].
    unfold pedido_aceitar, SistemaPedidos.pedido_aceitar. simpl.
    rewrite find_projeta.
    destruct (find (objetos s) pedidoId (pedidos s)) as [[l p]|]; simpl;
      [|eexists; split; [reflexivity|done]].
    case_bool_decide; simpl; [|eexists; split; [reflexivity|done]].
    eexists. split; [reflexivity|]. simpl.
    apply corresponde_limparTimer. by apply (corresponde_insert _ _ l _ _ HR).
  - intros [= <-].
    unfold pedido_finalizar, SistemaPedidos.pedido_finalizar. simpl.
    rewrite find_projeta.
    destruct (find (objetos s) pedidoId (pedidos s)) as [[l p]|]; simpl;
      [|eexists; split; [reflexivity|done]].
    case_bool_decide; simpl; [|eexists; split; [reflexivity|done]].
    eexists. split; [reflexivity|]. simpl.
    by apply (corresponde_insert _ _ l _ _ HR).
  - intros [= <-].
    unfold pedido_cancelar, SistemaPedidos.pedido_cancelar. simpl.
    rewrite find_projeta.
    destruct (find (objetos s) pedidoId (pedidos s)) as [[l p]|] eqn:Ef; simpl;
      [|eexists; split; [reflexivity|done]].
    apply find_Some in Ef as (_ & Hl & _).
    destruct (decide (status p = Entregue)) as [He|He].
    + rewrite !bool_decide_eq_true_2 by done. simpl.
      eexists. split; [reflexivity|done].
    + rewrite (bool_decide_eq_false_2 (status p = Entregue)) by done. simpl.
      eexists. split; [reflexivity|]. simpl.
      case_bool_decide as Hc; simpl.
      * unfold corresponde. simpl. repeat split; try done.
        symmetry. apply list_insert_id. rewrite list_lookup_fmap, Hl.
        simpl. f_equal. destruct p. simpl in *. by subst.
      * apply corresponde_limparTimer. by apply (corresponde_insert _ _ l _ _ HR).
  - intros [= <-].
    unfold pedido_entregar, SistemaPedidos.pedido_entregar. simpl.
    rewrite find_projeta.
    destruct (find (objetos s) pedidoId (pedidos s)) as [[l p]|]; simpl;
      [|eexists; split; [reflexivity|done]].
    case_bool_decide; simpl; [|eexists; split; [reflexivity|done]].
    eexists. split; [reflexivity|]. simpl.
    by apply (corresponde_insert _ _ l _ _ HR).
  - destruct (agendados s !! timer) as [novoPedido|] eqn:Ht; [|done].
    rewrite (H6 _ _ Ht). intros [= <-]. eexists. split; [reflexivity|].
    assert (corresponde
              (com_timers (timersExpiracao s) (delete timer (agendados s)) s)
              {| SistemaPedidos.sistemaAtivo := sistemaAtivo s;
                 SistemaPedidos.pedidos := pedidos s;
                 SistemaPedidos.proximoId := proximoId s;
                 SistemaPedidos.objetos := projeta <$> objetos s;
                 SistemaPedidos.agendados := delete timer vag;
                 SistemaPedidos.proximoTimer := proximoTimer s |})
      as HR0.
    { unfold corresponde. simpl. repeat split; try done.
      intros h l [Hne Hh]%lookup_delete_Some.
      rewrite lookup_delete_ne by done. by apply H6. }
    unfold timeout_callback, SistemaPedidos.timeout_callback. simpl.
    rewrite list_lookup_fmap.
    destruct (objetos s !! novoPedido) as [np|]; simpl; [|exact HR0].
    rewrite find_projeta.
    destruct (find (objetos s) (id np) (pedidos s)) as [[l p]|]; simpl;
      [|exact HR0].
    case_bool_decide; simpl; [|exact HR0].
    pose proof (corresponde_insert _ _ l (com_status Expirado p) _ HR0 eq_refl)
      as (G1 & G2 & G3 & G4 & G5 & G6).
    unfold corresponde. simpl in *. by repeat split.
Qed.

Lemma corresponde_inicial : corresponde inicial SistemaPedidos.inicial.
Proof. unfold corresponde. simpl. repeat split. by intros h l; rewrite lookup_empty. Qed.

Lemma corresponde_executa evs : ∀ s v s' out,
  corresponde s v → Forall limpo evs →
  executa s evs = Some (s', out) →
  ∃ v' outv,
    SistemaPedidos.executa v (omap traduz evs) = Some (v', outv)
    ∧ corresponde s' v'.
Proof.
  induction evs as [|ev evs IH]; intros s v s' out HR Hl Hex.
  - injection Hex as <- _. by eexists _, _.
  - apply Forall_cons in Hl as [Hev Hevs]. cbn [executa] in Hex.
    destruct (passo s ev) as [r|] eqn:Hp; [|done].
    destruct (executa (estadoDe r) evs) as [[s1 out1]|] eqn:He; [|done].
    injection Hex as <- _.
    assert (∃ ev', traduz ev = Some ev') as [ev' Hev']
      by (destruct ev; simpl in *; eauto; done).
    destruct (corresponde_passo _ _ _ _ _ HR Hev Hev' Hp) as (rv & Hpv & HR1).
    destruct (IH _ _ _ _ HR1 Hevs He) as (v' & outv & Hexv & HR').
    exists v', (SistemaPedidos.saidasDe rv ++ outv). split; [|done].
    csimpl. rewrite Hev'. cbn [SistemaPedidos.executa]. by rewrite Hpv, Hexv.
Qed.

(** X26: on clean input the two servers keep the same orders.  Take any
    run of [src/server.js] with no reset in which every order is created
    from two non-empty strings that need no trimming; the variant accepts
    the same messages, and at the end both hold the same collection (ids,
    cliente, itens, statuses, creation times and sockets, in the same
    order), the same flag and the same counter. *)
Theorem X26_servers_agree_on_clean_runs evs s out :
  Forall limpo evs →
  executa inicial evs = Some (s, out) →
  ∃ v outv,
    SistemaPedidos.executa SistemaPedidos.inicial (omap traduz evs) = Some (v, outv)
    ∧ projeta <$> pedidosDe s = SistemaPedidos.pedidosDe v
    ∧ sistemaAtivo s = SistemaPedidos.sistemaAtivo v
    ∧ proximoId s = SistemaPedidos.proximoId v.
Proof.
  intros Hl Hex.
  destruct (corresponde_executa _ _ _ _ _ corresponde_inicial Hl Hex)
    as (v & outv & Hexv & (H1 & H2 & H3 & H4 & _)).
  exists v, outv. repeat split; try done.
  unfold pedidosDe, SistemaPedidos.pedidosDe. rewrite <- H2, <- H4.
  generalize (pedidos s). intros ps.
  induction ps as [|l ps IH]; csimpl; [done|].
  rewrite list_lookup_fmap. destruct (objetos s !! l); csimpl; by rewrite IH.
Qed.

Lemma X26_servers_agree_on_clean_runs_witness :
  ∃ v outv,
    SistemaPedidos.executa SistemaPedidos.inicial (omap traduz eventosLimpos)
      = Some (v, outv)
    ∧ projeta <$> pedidosDe (estadoDepois eventosLimpos) = SistemaPedidos.pedidosDe v
    ∧ sistemaAtivo (estadoDepois eventosLimpos) = SistemaPedidos.sistemaAtivo v
    ∧ proximoId (estadoDepois eventosLimpos) = SistemaPedidos.proximoId v.
Proof.
  apply (X26_servers_agree_on_clean_runs eventosLimpos
           (estadoDepois eventosLimpos)
           (match executa inicial eventosLimpos with
            | Some (_, out) => out
            | None => []
            end)).
  - repeat constructor; simpl; try done;
      eexists _, _; (split; [reflexivity|]);
      repeat split; vm_compute; congruence.
  - vm_compute; reflexivity.
Defined.
